(** * Ledger engine of the blockchain mining simulator (src/app.js)

    A shallow embedding of the [BlockchainSimulator] class: block hashing and
    sealing, block production, settlement against the wallet registry, pool
    admission and chain validation, followed by the properties of these
    operations.

    Modelling conventions.
    - JavaScript numbers that hold amounts and balances are modelled at two
      levels.  The engine holds them as exact rationals ([Q]); it carries the
      statements that depend on which checks are made and in what order, on
      which wallets are read or written, and on what is reachable.  Module
      [Double] holds the code of admission, of settlement and of the batch of
      [addBlock] over IEEE 754 binary64 values (primitive floats), with
      rounding and NaN; every statement about what a balance is after an
      addition or a subtraction is made there.  Indices, nonces and the
      difficulty are naturals, timestamps are integers, and the hash rate is
      computed in binary64 as the code computes it.
    - [null] and [undefined] are [None].
    - The wallet registry is a JavaScript [Map]: an association list in
      insertion order, whose keys are pairwise distinct because [Map_set]
      replaces in place.  A wallet object reached through [get] and mutated is
      an update of the binding of its key, so two names for one wallet see
      each other's writes.
    - A [throw] is a [Throw] outcome returned together with the simulator
      state at the point of the throw.
    - Whatever an [await] of a sealing run lets in from outside (a stop
      request, the clock) is read from a [World] record; other calls at the
      operation surface run between sealing runs, not inside one.  The pause
      that ends each pass of the loop of [startMining] lets in the calls that
      handlers and timers make meanwhile; they are the [Event]s of a [Round].
      Rendering calls are left out. *)

From Stdlib Require Import List String Ascii Bool Arith ZArith QArith Lia Lqa.
From Stdlib Require Import DecimalString Qround.
From Stdlib Require Import PrimFloat FloatOps SpecFloat FloatAxioms.
Import ListNotations.

Close Scope Q_scope.
Local Open Scope string_scope.

(** Decimal literals of binary64 type stand for the nearest binary64 value, as
    they do in JavaScript. *)
#[local] Set Warnings "-inexact-float".

(** ** The platform digest: SHA-256 (FIPS 180-4) over 32-bit words held in [Z] *)

Module SHA256.
Local Open Scope Z_scope.

Definition mask32 : Z := 2 ^ 32 - 1.
Definition add32 (x y : Z) : Z := Z.land (x + y) mask32.
Definition rotr (n x : Z) : Z :=
  Z.land (Z.lor (Z.shiftr x n) (Z.shiftl x (32 - n))) mask32.
Definition xor3 (a b c : Z) : Z := Z.lxor (Z.lxor a b) c.

Definition Ch (x y z : Z) : Z :=
  Z.lxor (Z.land x y) (Z.land (Z.lxor x mask32) z).
Definition Maj (x y z : Z) : Z :=
  xor3 (Z.land x y) (Z.land x z) (Z.land y z).
Definition bigSigma0 (x : Z) : Z := xor3 (rotr 2 x) (rotr 13 x) (rotr 22 x).
Definition bigSigma1 (x : Z) : Z := xor3 (rotr 6 x) (rotr 11 x) (rotr 25 x).
Definition smallSigma0 (x : Z) : Z := xor3 (rotr 7 x) (rotr 18 x) (Z.shiftr x 3).
Definition smallSigma1 (x : Z) : Z := xor3 (rotr 17 x) (rotr 19 x) (Z.shiftr x 10).

(** The round constants are the first 32 fractional bits of the cube roots of
    the first 64 primes, the initial state those of the square roots of the
    first 8; both are computed rather than tabulated. *)
Definition primes : list Z :=
  [2; 3; 5; 7; 11; 13; 17; 19; 23; 29; 31; 37; 41; 43; 47; 53; 59; 61; 67; 71;
   73; 79; 83; 89; 97; 101; 103; 107; 109; 113; 127; 131; 137; 139; 149; 151;
   157; 163; 167; 173; 179; 181; 191; 193; 197; 199; 211; 223; 227; 229; 233;
   239; 241; 251; 257; 263; 269; 271; 277; 281; 283; 293; 307; 311].

(** Largest [r] in [[lo, hi)] with [r^3 <= n], by bisection. *)
Fixpoint cbrt_between (fuel : nat) (n lo hi : Z) : Z :=
  match fuel with
  | O => lo
  | S fuel' =>
      if hi - lo <=? 1 then lo
      else let mid := (lo + hi) / 2 in
           if mid * mid * mid <=? n then cbrt_between fuel' n mid hi
           else cbrt_between fuel' n lo mid
  end.

Definition frac_cbrt32 (p : Z) : Z :=
  Z.land (cbrt_between 64 (p * 2 ^ 96) 0 (2 ^ 36)) mask32.
Definition frac_sqrt32 (p : Z) : Z := Z.land (Z.sqrt (p * 2 ^ 64)) mask32.

Definition K : list Z := Eval vm_compute in map frac_cbrt32 primes.
Definition H0 : list Z := Eval vm_compute in map frac_sqrt32 (firstn 8 primes).

(** Big-endian bytes of [x], [n] of them. *)
Fixpoint be_bytes (n : nat) (x : Z) : list Z :=
  match n with
  | O => []
  | S n' => Z.land (Z.shiftr x (8 * Z.of_nat n')) 255 :: be_bytes n' x
  end.

Definition pad (msg : list Z) : list Z :=
  let len := Z.of_nat (List.length msg) in
  let zeros := Z.to_nat ((55 - len) mod 64) in
  (msg ++ 128 :: repeat 0 zeros ++ be_bytes 8 (8 * len))%list.

Fixpoint be_words (fuel : nat) (bs : list Z) : list Z :=
  match fuel, bs with
  | S fuel', b0 :: b1 :: b2 :: b3 :: rest =>
      (b0 * 2 ^ 24 + b1 * 2 ^ 16 + b2 * 2 ^ 8 + b3) :: be_words fuel' rest
  | _, _ => []
  end.

(** The message schedule, newest word first: [recent] holds W(t-1), W(t-2), ... *)
Fixpoint schedule (n : nat) (recent : list Z) : list Z :=
  match n with
  | O => recent
  | S n' =>
      let w := add32 (add32 (smallSigma1 (nth 1 recent 0)) (nth 6 recent 0))
                     (add32 (smallSigma0 (nth 14 recent 0)) (nth 15 recent 0)) in
      schedule n' (w :: recent)
  end.

Record regs := Regs { ra : Z; rb : Z; rc : Z; rd : Z; re : Z; rf : Z; rg : Z; rh : Z }.

Definition round (r : regs) (kw : Z * Z) : regs :=
  let t1 := add32 (add32 (add32 (rh r) (bigSigma1 (re r)))
                         (add32 (Ch (re r) (rf r) (rg r)) (fst kw))) (snd kw) in
  let t2 := add32 (bigSigma0 (ra r)) (Maj (ra r) (rb r) (rc r)) in
  Regs (add32 t1 t2) (ra r) (rb r) (rc r) (add32 (rd r) t1) (re r) (rf r) (rg r).

Definition regs_of (l : list Z) : regs :=
  Regs (nth 0 l 0) (nth 1 l 0) (nth 2 l 0) (nth 3 l 0)
       (nth 4 l 0) (nth 5 l 0) (nth 6 l 0) (nth 7 l 0).
Definition list_of (r : regs) : list Z :=
  [ra r; rb r; rc r; rd r; re r; rf r; rg r; rh r].

Definition compress (h : list Z) (block : list Z) : list Z :=
  let w := rev (schedule 48 (rev block)) in
  let r := fold_left round (combine K w) (regs_of h) in
  map (fun p => add32 (fst p) (snd p)) (combine h (list_of r)).

Fixpoint blocks (fuel : nat) (ws : list Z) : list (list Z) :=
  match fuel, ws with
  | S fuel', _ :: _ => firstn 16 ws :: blocks fuel' (skipn 16 ws)
  | _, _ => []
  end.

(** The 32 digest bytes of a byte message. *)
Definition digest (msg : list Z) : list Z :=
  let p := pad msg in
  let ws := be_words (List.length p) p in
  flat_map (be_bytes 4) (fold_left compress (blocks (List.length ws) ws) H0).

End SHA256.

(** ** Strings, numbers and bytes as JavaScript renders them *)

(** [String.prototype.repeat]. *)
Fixpoint String_repeat (s : string) (n : nat) : string :=
  match n with
  | O => ""
  | S n' => s ++ String_repeat s n'
  end.

(** [String.prototype.startsWith]. *)
Definition startsWith (s target : string) : bool := String.prefix target s.

(** An integer inside a template literal: its decimal digits. *)
Definition Number_toString (z : Z) : string := NilZero.string_of_int (Z.to_int z).

(** An integer as a JavaScript number: the nearest binary64 value, which is
    the integer itself below 2^53 in magnitude. *)
Definition Number_ofZ (z : Z) : float :=
  SF2Prim (binary_normalize prec emax z 0 false).

(** [Math.floor] of a finite number, as an integer.  NaN and the infinities,
    which [Math.floor] returns as they are, have no integer and are read as 0. *)
Definition Math_floor (x : float) : Z :=
  match Prim2SF x with
  | S754_finite s m e =>
      let n := if s then Zneg m else Zpos m in
      if (0 <=? e)%Z then (n * 2 ^ e)%Z else (n / 2 ^ (- e))%Z
  | _ => 0%Z
  end.

(** The rational that a finite number stands for. *)
Definition Number_value (x : float) : option Q :=
  match Prim2SF x with
  | S754_zero _ => Some 0%Q
  | S754_finite s m e =>
      Some (inject_Z (if s then Zneg m else Zpos m) * Qpower 2 e)%Q
  | _ => None
  end.

(** [TextEncoder.encode]: the bytes of the string (strings are held UTF-8 encoded). *)
Definition TextEncoder_encode (s : string) : list Z :=
  map (fun c => Z.of_N (N_of_ascii c)) (list_ascii_of_string s).

Definition hexDigit (d : Z) : ascii :=
  nth (Z.to_nat d) (list_ascii_of_string "0123456789abcdef") "0"%char.

(** [b.toString(16).padStart(2, '0')] for a byte [b]. *)
Definition byteToHex (b : Z) : string :=
  String (hexDigit (b / 16)) (String (hexDigit (b mod 16)) "").

(** [hashArray.map(b => ...).join('')]. *)
Definition hexOfBytes (bs : list Z) : string := String.concat "" (map byteToHex bs).

(** ** Data model: the [Transaction], [Block] and [Wallet] classes *)

Module Transaction.
Record t := Build
  { id : string; from : string; to : option string; amount : Q; timestamp : Z }.

(** [new Transaction(from, to, amount)]; the random identifier and the clock
    reading are supplied by the caller. *)
Definition new (id : string) (now : Z) (from : string) (to : option string)
    (amount : Q) : t :=
  Build id from to amount now.
End Transaction.

Module Block.
Record t := Build
  { index : nat; timestamp : Z; data : string; previousHash : option string;
    transactions : list Transaction.t; nonce : nat; hash : option string }.

(** [new Block(index, timestamp, data, previousHash, transactions)]. *)
Definition new (index : nat) (timestamp : Z) (data : string)
    (previousHash : option string) (transactions : list Transaction.t) : t :=
  Build index timestamp data previousHash transactions 0 None.

Definition set_nonce (n : nat) (b : t) : t :=
  Build (index b) (timestamp b) (data b) (previousHash b) (transactions b) n (hash b).
Definition set_hash (h : option string) (b : t) : t :=
  Build (index b) (timestamp b) (data b) (previousHash b) (transactions b) (nonce b) h.
Definition set_previousHash (p : option string) (b : t) : t :=
  Build (index b) (timestamp b) (data b) p (transactions b) (nonce b) (hash b).
End Block.

Module Wallet.
Record t := Build { address : string; label : string; balance : Q; createdAt : Z }.

Definition set_balance (q : Q) (w : t) : t :=
  Build (address w) (label w) q (createdAt w).
End Wallet.

(** ** The wallet registry: a [Map] from address to wallet *)

Definition WalletMap := list (string * Wallet.t).

Fixpoint Map_get (k : string) (m : WalletMap) : option Wallet.t :=
  match m with
  | [] => None
  | (k', w) :: m' => if String.eqb k k' then Some w else Map_get k m'
  end.

(** [Map.prototype.set]: an existing key keeps its place, a new one goes last. *)
Fixpoint Map_set (k : string) (w : Wallet.t) (m : WalletMap) : WalletMap :=
  match m with
  | [] => [(k, w)]
  | (k', w') :: m' =>
      if String.eqb k k' then (k, w) :: m' else (k', w') :: Map_set k w m'
  end.

Definition Map_keys (m : WalletMap) : list string := map fst m.

(** A write through the wallet object that [get] returned for [k]. *)
Fixpoint Map_mutate (k : string) (f : Wallet.t -> Wallet.t) (m : WalletMap) : WalletMap :=
  match m with
  | [] => []
  | (k', w) :: m' =>
      if String.eqb k k' then (k', f w) :: m' else (k', w) :: Map_mutate k f m'
  end.

(** [wallets.get(x)] where [x] may be [undefined]. *)
Definition Map_get_opt (k : option string) (m : WalletMap) : option Wallet.t :=
  match k with
  | Some a => Map_get a m
  | None => None
  end.

(** ** Simulator state *)

Record BlockchainSimulator := Simulator
  { blockchain : list Block.t;
    transactionPool : list Transaction.t;
    wallets : WalletMap;
    difficulty : nat;
    miningReward : Q;
    isMining : bool;
    currentNonce : nat;
    hashRate : Z;
    blocksMined : nat;
    miningStartTime : Z }.

Definition set_blockchain (c : list Block.t) (s : BlockchainSimulator) :=
  Simulator c (transactionPool s) (wallets s) (difficulty s) (miningReward s)
    (isMining s) (currentNonce s) (hashRate s) (blocksMined s) (miningStartTime s).
Definition set_transactionPool (p : list Transaction.t) (s : BlockchainSimulator) :=
  Simulator (blockchain s) p (wallets s) (difficulty s) (miningReward s)
    (isMining s) (currentNonce s) (hashRate s) (blocksMined s) (miningStartTime s).
Definition set_wallets (w : WalletMap) (s : BlockchainSimulator) :=
  Simulator (blockchain s) (transactionPool s) w (difficulty s) (miningReward s)
    (isMining s) (currentNonce s) (hashRate s) (blocksMined s) (miningStartTime s).
Definition set_difficulty (d : nat) (s : BlockchainSimulator) :=
  Simulator (blockchain s) (transactionPool s) (wallets s) d (miningReward s)
    (isMining s) (currentNonce s) (hashRate s) (blocksMined s) (miningStartTime s).
Definition set_isMining (b : bool) (s : BlockchainSimulator) :=
  Simulator (blockchain s) (transactionPool s) (wallets s) (difficulty s) (miningReward s)
    b (currentNonce s) (hashRate s) (blocksMined s) (miningStartTime s).
Definition set_currentNonce (n : nat) (s : BlockchainSimulator) :=
  Simulator (blockchain s) (transactionPool s) (wallets s) (difficulty s) (miningReward s)
    (isMining s) n (hashRate s) (blocksMined s) (miningStartTime s).
Definition set_hashRate (r : Z) (s : BlockchainSimulator) :=
  Simulator (blockchain s) (transactionPool s) (wallets s) (difficulty s) (miningReward s)
    (isMining s) (currentNonce s) r (blocksMined s) (miningStartTime s).
Definition set_blocksMined (n : nat) (s : BlockchainSimulator) :=
  Simulator (blockchain s) (transactionPool s) (wallets s) (difficulty s) (miningReward s)
    (isMining s) (currentNonce s) (hashRate s) n (miningStartTime s).
Definition set_miningStartTime (t : Z) (s : BlockchainSimulator) :=
  Simulator (blockchain s) (transactionPool s) (wallets s) (difficulty s) (miningReward s)
    (isMining s) (currentNonce s) (hashRate s) (blocksMined s) t.

(** The field initialisers of the constructor (lines 4-13). *)
Definition newSimulator : BlockchainSimulator :=
  Simulator [] [] [] 3 10 false 0 0 0 0.

(** ** Outcomes *)

Inductive Exception :=
| Error (message : string)
| TypeError.

Inductive outcome (A : Type) :=
| Ret (a : A)
| Throw (e : Exception).
Arguments Ret {A} a.
Arguments Throw {A} e.

(** The three admission failures, under the names the specification gives them. *)
Definition UnknownWallet : Exception := Error "Invalid wallet address".
Definition InsufficientBalance : Exception := Error "Insufficient balance".
Definition InvalidAmount : Exception := Error "Amount must be positive".

(** ** What the platform and the outside world supply *)

(** [JSON.stringify] on a transaction array is a builtin whose number
    formatting is that of IEEE doubles; it is taken as given. *)
Class Platform := { JSON_stringify : list Transaction.t -> string }.

(** What reaches one sealing run from outside while it is suspended:
    [stopDuring n] tells whether a stop request is handled while attempt [n]
    is suspended in an [await], [clock n] is [Date.now()] at attempt [n]. *)
Record World := { stopDuring : nat -> bool; clock : nat -> Z }.

(** The readings of [Date.now()] and the random identifier that one call of
    [addBlock] consumes. *)
Record Readings :=
  { rewardId : string; rewardTime : Z; blockTime : Z; startTime : Z }.

Definition Qltb (x y : Q) : bool := negb (Qle_bool y x).

Definition option_string_eqb (a b : option string) : bool :=
  match a, b with
  | Some x, Some y => String.eqb x y
  | None, None => true
  | _, _ => false
  end.

(** ** The engine: methods of [BlockchainSimulator] *)

Section Engine.
Context {platform : Platform}.

(** A hash or [null] inside a template literal. *)
Definition renderHash (h : option string) : string :=
  match h with
  | Some x => x
  | None => "null"
  end.

(** The template literal of line 48. *)
Definition serialize (block : Block.t) : string :=
  Number_toString (Z.of_nat (Block.index block))
  ++ Number_toString (Block.timestamp block)
  ++ JSON_stringify (Block.transactions block)
  ++ renderHash (Block.previousHash block)
  ++ Number_toString (Z.of_nat (Block.nonce block)).

(** [calculateHash] (lines 47-54). *)
Definition calculateHash (block : Block.t) : string :=
  hexOfBytes (SHA256.digest (TextEncoder_encode (serialize block))).

(** [createGenesisBlock] (lines 34-45); [now] is the reading of [Date.now()]. *)
Definition createGenesisBlock (now : Z) (s : BlockchainSimulator) : BlockchainSimulator :=
  let genesisBlock :=
    Block.new 0 now "Genesis Block - The beginning of our blockchain" (Some "0") [] in
  let genesisBlock := Block.set_hash (Some (calculateHash genesisBlock)) genesisBlock in
  set_blockchain (blockchain s ++ [genesisBlock]) s.

(** Lines 67-68: [elapsed] is the time since the start in seconds, a binary64
    quotient, and the rate is [Math.floor] of a second binary64 quotient.
    With [elapsed > 0] that quotient is finite. *)
Definition updateHashRate (now : Z) (s : BlockchainSimulator) : BlockchainSimulator :=
  let elapsed := (Number_ofZ (now - miningStartTime s) / 1000)%float in
  set_hashRate
    (if (0 <? elapsed)%float
     then Math_floor (Number_ofZ (Z.of_nat (currentNonce s)) / elapsed)%float
     else 0%Z) s.

(** One attempt seen from the simulator state: the hash-rate report of lines
    66-69, then whatever the suspension of this attempt lets in. *)
Definition suspend (world : World) (s : BlockchainSimulator) : BlockchainSimulator :=
  let s := if (currentNonce s mod 100 =? 0)%nat
           then updateHashRate (clock world (currentNonce s)) s else s in
  if stopDuring world (currentNonce s) then set_isMining false s else s.

(** The [while (this.isMining)] loop of [mineBlock] (lines 61-83).  The outer
    [None] is an exhausted [fuel]; the inner one is the [null] returned once
    the flag is found lowered. *)
Fixpoint mineLoop (fuel : nat) (world : World) (target : string) (block : Block.t)
    (s : BlockchainSimulator) : option (option Block.t * BlockchainSimulator) :=
  match fuel with
  | O => None
  | S fuel' =>
      if isMining s then
        let block := Block.set_nonce (currentNonce s) block in
        let hash := calculateHash block in
        let s := suspend world s in
        if startsWith hash target then Some (Some (Block.set_hash (Some hash) block), s)
        else mineLoop fuel' world target block (set_currentNonce (S (currentNonce s)) s)
      else Some (None, s)
  end.

(** [mineBlock] (lines 56-84). *)
Definition mineBlock (fuel : nat) (world : World) (now : Z) (block : Block.t)
    (s : BlockchainSimulator) : option (option Block.t * BlockchainSimulator) :=
  let target := String_repeat "0" (difficulty s) in
  let s := set_miningStartTime now (set_currentNonce 0 s) in
  mineLoop fuel world target block s.

(** The callback of [transactions.forEach] in [processTransactions] (lines
    126-141), with exact amounts; [Double.processTransaction] is the same code
    over binary64 values. *)
Definition processTransaction (ws : WalletMap) (tx : Transaction.t) : WalletMap :=
  let amount := Transaction.amount tx in
  if String.eqb (Transaction.from tx) "System" then
    match Transaction.to tx, Map_get_opt (Transaction.to tx) ws with
    | Some to, Some _ =>
        Map_mutate to (fun w => Wallet.set_balance (Wallet.balance w + amount) w) ws
    | _, _ => ws
    end
  else
    match Transaction.to tx, Map_get (Transaction.from tx) ws,
          Map_get_opt (Transaction.to tx) ws with
    | Some to, Some fromWallet, Some _ =>
        if Qle_bool amount (Wallet.balance fromWallet) then
          let ws := Map_mutate (Transaction.from tx)
                      (fun w => Wallet.set_balance (Wallet.balance w - amount) w) ws in
          Map_mutate to (fun w => Wallet.set_balance (Wallet.balance w + amount) w) ws
        else ws
    | _, _, _ => ws
    end.

(** [processTransactions] (lines 124-143). *)
Definition processTransactions (transactions : list Transaction.t) (ws : WalletMap)
    : WalletMap :=
  fold_left processTransaction transactions ws.

(** Line 96-97: the reward goes to the first key of the registry. *)
Definition rewardTransaction (r : Readings) (s : BlockchainSimulator) : Transaction.t :=
  let minerAddress := nth_error (Map_keys (wallets s)) 0 in
  Transaction.new (rewardId r) (rewardTime r) "System" minerAddress (miningReward s).

(** Lines 93-106: the batch and the block built on [previousBlock]. *)
Definition batch (r : Readings) (s : BlockchainSimulator) : list Transaction.t :=
  rewardTransaction r s :: firstn 10 (transactionPool s).

Definition candidateBlock (r : Readings) (s : BlockchainSimulator)
    (previousBlock : Block.t) : Block.t :=
  Block.new (Block.index previousBlock + 1) (blockTime r)
    ("Block " ++ Number_toString (Z.of_nat (Block.index previousBlock + 1)))
    (Block.hash previousBlock) (batch r s).

(** [addBlock] (lines 86-122).  [blockchain[length - 1]] is [undefined] exactly
    when the chain is empty.  A result of [undefined] or [null] is [None]. *)
Definition addBlock (fuel : nat) (world : World) (r : Readings) (s : BlockchainSimulator)
    : option (option Block.t * BlockchainSimulator) :=
  match nth_error (blockchain s) (List.length (blockchain s) - 1) with
  | None => Some (None, createGenesisBlock (blockTime r) s)
  | Some previousBlock =>
      let transactions := batch r s in
      let newBlock := candidateBlock r s previousBlock in
      let s := set_transactionPool (skipn 10 (transactionPool s)) s in
      match mineBlock fuel world (startTime r) newBlock s with
      | None => None
      | Some (Some minedBlock, s) =>
          if isMining s then
            let s := set_blockchain (blockchain s ++ [minedBlock]) s in
            let s := set_blocksMined (S (blocksMined s)) s in
            let s := set_wallets (processTransactions transactions (wallets s)) s in
            Some (Some minedBlock, s)
          else Some (None, s)
      | Some (None, s) => Some (None, s)
      end
  end.

(** The [for] loop of [validateChain] (lines 146-159), entered with
    [previousBlock = blockchain[i - 1]] and [rest] the blocks from [i] on.
    [startsWith] on a [null] hash is a [TypeError]. *)
Fixpoint validateFrom (target : string) (previousBlock : Block.t) (rest : list Block.t)
    : outcome bool :=
  match rest with
  | [] => Ret true
  | currentBlock :: rest' =>
      match Block.hash currentBlock with
      | None => Throw TypeError
      | Some h =>
          if negb (startsWith h target) then Ret false
          else if negb (option_string_eqb (Block.previousHash currentBlock)
                                          (Block.hash previousBlock))
               then Ret false
               else validateFrom target currentBlock rest'
      end
  end.

(** [validateChain] (lines 145-161). *)
Definition validateChain (s : BlockchainSimulator) : outcome bool :=
  match blockchain s with
  | [] => Ret true
  | genesis :: rest => validateFrom (String_repeat "0" (difficulty s)) genesis rest
  end.

(** [generateAddress] (lines 191-196) on 20 random bytes. *)
Definition generateAddress (randomData : list Z) : string :=
  "bc1q" ++ String.substring 0 39 (hexOfBytes (SHA256.digest randomData)).

(** [createWallet] (lines 177-189); [label || ...] also replaces an empty label. *)
Definition createWallet (randomData : list Z) (now : Z) (label : option string)
    (initialBalance : Q) (s : BlockchainSimulator) : Wallet.t * BlockchainSimulator :=
  let address := generateAddress randomData in
  let auto := "Wallet " ++ Number_toString (Z.of_nat (List.length (wallets s) + 1)) in
  let label := match label with
               | Some l => if String.eqb l "" then auto else l
               | None => auto
               end in
  let wallet := Wallet.Build address label initialBalance now in
  (wallet, set_wallets (Map_set address wallet (wallets s)) s).

(** [initializeWallets] (lines 164-175). *)
Definition initialWallets : list (string * Q) :=
  [("Alice", 100%Q); ("Bob", 75%Q); ("Charlie", 50%Q)].

Definition initializeWallets (random : list (list Z * Z)) (s : BlockchainSimulator)
    : BlockchainSimulator :=
  fold_left
    (fun s wr => snd (createWallet (fst (snd wr)) (snd (snd wr))
                        (Some (fst (fst wr))) (snd (fst wr)) s))
    (combine initialWallets random) s.

(** [init] (lines 23-31) up to the genesis block; the rest is presentation. *)
Definition init (random : list (list Z * Z)) (now : Z) : BlockchainSimulator :=
  createGenesisBlock now (initializeWallets random newSimulator).

(** [addTransaction] (lines 199-221), with exact amounts;
    [Double.addTransaction] is the same code over binary64 values, NaN
    included. *)
Definition addTransaction (id : string) (now : Z) (from to : string) (amount : Q)
    (s : BlockchainSimulator) : outcome Transaction.t * BlockchainSimulator :=
  match Map_get from (wallets s), Map_get to (wallets s) with
  | Some fromWallet, Some _ =>
      if Qltb (Wallet.balance fromWallet) amount then (Throw InsufficientBalance, s)
      else if Qle_bool amount 0 then (Throw InvalidAmount, s)
      else
        let transaction := Transaction.new id now from (Some to) amount in
        (Ret transaction, set_transactionPool (transactionPool s ++ [transaction]) s)
  | _, _ => (Throw UnknownWallet, s)
  end.

(** ** States the operations can produce

    One step is one call at the operation surface.  Wallets are created with
    a non-negative initial balance. *)
Inductive step : BlockchainSimulator -> BlockchainSimulator -> Prop :=
| step_createWallet s randomData now label initialBalance :
    (0 <= initialBalance)%Q ->
    step s (snd (createWallet randomData now label initialBalance s))
| step_createGenesisBlock s now :
    step s (createGenesisBlock now s)
| step_addTransaction s id now from to amount :
    step s (snd (addTransaction id now from to amount s))
| step_addBlock s fuel world r result s' :
    addBlock fuel world r s = Some (result, s') ->
    step s s'
| step_startMining s :
    step s (set_isMining true s)
| step_stopMining s :
    step s (set_isMining false s)
| step_setDifficulty s d :
    step s (set_difficulty d s).

Inductive reachable : BlockchainSimulator -> Prop :=
| reachable_new : reachable newSimulator
| reachable_step s s' : reachable s -> step s s' -> reachable s'.

(** ** Predicates of the statements *)

(** Attempt [n] on [block] meets the prefix requirement of difficulty [d]. *)
Definition sealsAt (block : Block.t) (d n : nat) : bool :=
  startsWith (calculateHash (Block.set_nonce n block)) (String_repeat "0" d).

(** [block] with the nonce [n] and the hash found there. *)
Definition sealedAt (block : Block.t) (n : nat) : Block.t :=
  Block.set_hash (Some (calculateHash (Block.set_nonce n block))) (Block.set_nonce n block).

(** The outcomes of [addBlock]: the genesis block on an empty chain; otherwise
    a sealing run on the candidate after the pool was drained, whose block is
    appended and settled only if the flag is still up. *)
Inductive produced (fuel : nat) (world : World) (r : Readings) (s : BlockchainSimulator)
  : option Block.t -> BlockchainSimulator -> Prop :=
| produced_genesis :
    blockchain s = [] ->
    produced fuel world r s None (createGenesisBlock (blockTime r) s)
| produced_block previousBlock b s1 :
    nth_error (blockchain s) (List.length (blockchain s) - 1) = Some previousBlock ->
    mineBlock fuel world (startTime r) (candidateBlock r s previousBlock)
      (set_transactionPool (skipn 10 (transactionPool s)) s) = Some (Some b, s1) ->
    isMining s1 = true ->
    produced fuel world r s (Some b)
      (set_wallets (processTransactions (batch r s) (wallets s1))
         (set_blocksMined (S (blocksMined s1))
            (set_blockchain (blockchain s1 ++ [b]) s1)))
| produced_nothing previousBlock mined s1 :
    nth_error (blockchain s) (List.length (blockchain s) - 1) = Some previousBlock ->
    mineBlock fuel world (startTime r) (candidateBlock r s previousBlock)
      (set_transactionPool (skipn 10 (transactionPool s)) s) = Some (mined, s1) ->
    mined = None \/ isMining s1 = false ->
    produced fuel world r s None s1.

End Engine.

Arguments calculateHash : simpl never.
Arguments generateAddress : simpl never.

Definition balanceOf (a : string) (ws : WalletMap) : option Q :=
  option_map Wallet.balance (Map_get a ws).

Definition nonNegativeBalances (ws : WalletMap) : Prop :=
  Forall (fun kw => (0 <= Wallet.balance (snd kw))%Q) ws.

(** What pool admission establishes about a transaction, relative to a registry. *)
Definition accepted (ws : WalletMap) (tx : Transaction.t) : Prop :=
  (0 < Transaction.amount tx)%Q
  /\ In (Transaction.from tx) (Map_keys ws)
  /\ exists to, Transaction.to tx = Some to /\ In to (Map_keys ws).

Definition Invariant (s : BlockchainSimulator) : Prop :=
  nonNegativeBalances (wallets s)
  /\ Forall (fun k => k <> "System") (Map_keys (wallets s))
  /\ Forall (accepted (wallets s)) (transactionPool s)
  /\ miningReward s = 10%Q
  /\ Forall (fun b => Block.hash b <> None) (blockchain s).

(** The three ways the callback can go. *)
Inductive settled (ws : WalletMap) (tx : Transaction.t) : WalletMap -> Prop :=
| settled_reward to w :
    Transaction.from tx = "System" ->
    Transaction.to tx = Some to -> Map_get to ws = Some w ->
    settled ws tx
      (Map_mutate to
         (fun w => Wallet.set_balance (Wallet.balance w + Transaction.amount tx) w) ws)
| settled_transfer to fromWallet toWallet :
    Transaction.from tx <> "System" ->
    Transaction.to tx = Some to ->
    Map_get (Transaction.from tx) ws = Some fromWallet ->
    Map_get to ws = Some toWallet ->
    (Transaction.amount tx <= Wallet.balance fromWallet)%Q ->
    settled ws tx
      (Map_mutate to
         (fun w => Wallet.set_balance (Wallet.balance w + Transaction.amount tx) w)
         (Map_mutate (Transaction.from tx)
            (fun w => Wallet.set_balance (Wallet.balance w - Transaction.amount tx) w) ws))
| settled_nothing :
    (if String.eqb (Transaction.from tx) "System"
     then Map_get_opt (Transaction.to tx) ws = None
     else Map_get (Transaction.from tx) ws = None
          \/ Map_get_opt (Transaction.to tx) ws = None
          \/ exists fromWallet, Map_get (Transaction.from tx) ws = Some fromWallet
                                /\ (Wallet.balance fromWallet < Transaction.amount tx)%Q) ->
    settled ws tx ws.

(** The ledger part of the state: what a sealing run never writes. *)
Definition sameLedger (s s' : BlockchainSimulator) : Prop :=
  blockchain s' = blockchain s
  /\ transactionPool s' = transactionPool s
  /\ wallets s' = wallets s
  /\ difficulty s' = difficulty s
  /\ miningReward s' = miningReward s
  /\ blocksMined s' = blocksMined s.

(** ** Admission and settlement over IEEE 754 doubles

    The code of [addTransaction], of [processTransactions] and of the batch of
    [addBlock] once more, with amounts and balances as the binary64 values
    JavaScript holds: [+] and [-] round to nearest (ties to even), and [<],
    [<=] and [>=] are false as soon as an operand is NaN. *)

Module Double.

Module Transaction.
Record t := Build
  { id : string; from : string; to : option string; amount : float; timestamp : Z }.

Definition new (id : string) (now : Z) (from : string) (to : option string)
    (amount : float) : t :=
  Build id from to amount now.
End Transaction.

Module Wallet.
Record t := Build { address : string; label : string; balance : float; createdAt : Z }.

Definition set_balance (x : float) (w : t) : t :=
  Build (address w) (label w) x (createdAt w).
End Wallet.

Definition WalletMap := list (string * Wallet.t).

Fixpoint Map_get (k : string) (m : WalletMap) : option Wallet.t :=
  match m with
  | [] => None
  | (k', w) :: m' => if String.eqb k k' then Some w else Map_get k m'
  end.

Fixpoint Map_set (k : string) (w : Wallet.t) (m : WalletMap) : WalletMap :=
  match m with
  | [] => [(k, w)]
  | (k', w') :: m' =>
      if String.eqb k k' then (k, w) :: m' else (k', w') :: Map_set k w m'
  end.

Definition Map_keys (m : WalletMap) : list string := map fst m.

Fixpoint Map_mutate (k : string) (f : Wallet.t -> Wallet.t) (m : WalletMap) : WalletMap :=
  match m with
  | [] => []
  | (k', w) :: m' =>
      if String.eqb k k' then (k', f w) :: m' else (k', w) :: Map_mutate k f m'
  end.

Definition Map_get_opt (k : option string) (m : WalletMap) : option Wallet.t :=
  match k with
  | Some a => Map_get a m
  | None => None
  end.

Definition balanceOf (a : string) (ws : WalletMap) : option float :=
  option_map Wallet.balance (Map_get a ws).

(** The fields of [BlockchainSimulator] that admission and settlement read or
    write. *)
Record Ledger := MkLedger
  { transactionPool : list Transaction.t; wallets : WalletMap; miningReward : float }.

Definition set_transactionPool (p : list Transaction.t) (s : Ledger) : Ledger :=
  MkLedger p (wallets s) (miningReward s).
Definition set_wallets (w : WalletMap) (s : Ledger) : Ledger :=
  MkLedger (transactionPool s) w (miningReward s).

(** The field initialisers of the constructor (lines 5, 6 and 8). *)
Definition newLedger : Ledger := MkLedger [] [] 10%float.

(** The callback of [transactions.forEach] in [processTransactions] (lines
    126-141); [fromWallet.balance >= tx.amount] is [amount <= balance]. *)
Definition processTransaction (ws : WalletMap) (tx : Transaction.t) : WalletMap :=
  let amount := Transaction.amount tx in
  if String.eqb (Transaction.from tx) "System" then
    match Transaction.to tx, Map_get_opt (Transaction.to tx) ws with
    | Some to, Some _ =>
        Map_mutate to (fun w => Wallet.set_balance (Wallet.balance w + amount)%float w) ws
    | _, _ => ws
    end
  else
    match Transaction.to tx, Map_get (Transaction.from tx) ws,
          Map_get_opt (Transaction.to tx) ws with
    | Some to, Some fromWallet, Some _ =>
        if (amount <=? Wallet.balance fromWallet)%float then
          let ws := Map_mutate (Transaction.from tx)
                      (fun w => Wallet.set_balance (Wallet.balance w - amount)%float w) ws in
          Map_mutate to (fun w => Wallet.set_balance (Wallet.balance w + amount)%float w) ws
        else ws
    | _, _, _ => ws
    end.

(** [processTransactions] (lines 124-143). *)
Definition processTransactions (transactions : list Transaction.t) (ws : WalletMap)
    : WalletMap :=
  fold_left processTransaction transactions ws.

(** Lines 96-97 of [addBlock]: the reward goes to the first key of the registry. *)
Definition rewardTransaction (r : Readings) (s : Ledger) : Transaction.t :=
  let minerAddress := nth_error (Map_keys (wallets s)) 0 in
  Transaction.new (rewardId r) (rewardTime r) "System" minerAddress (miningReward s).

(** Lines 93-98 of [addBlock]: the batch. *)
Definition batch (r : Readings) (s : Ledger) : list Transaction.t :=
  rewardTransaction r s :: firstn 10 (transactionPool s).

(** [addBlock] (lines 92-122) on a non-empty chain, as far as these fields go.
    The sealing run of line 108 writes none of them; [sealed] is the value of
    [minedBlock && this.isMining] that line 110 tests after it. *)
Definition addBlock (sealed : bool) (r : Readings) (s : Ledger) : Ledger :=
  let transactions := batch r s in
  let s := set_transactionPool (skipn 10 (transactionPool s)) s in
  if sealed then set_wallets (processTransactions transactions (wallets s)) s else s.

(** [createWallet] (lines 177-189). *)
Definition createWallet (randomData : list Z) (now : Z) (label : option string)
    (initialBalance : float) (s : Ledger) : Wallet.t * Ledger :=
  let address := generateAddress randomData in
  let auto := "Wallet " ++ Number_toString (Z.of_nat (List.length (wallets s) + 1)) in
  let label := match label with
               | Some l => if String.eqb l "" then auto else l
               | None => auto
               end in
  let wallet := Wallet.Build address label initialBalance now in
  (wallet, set_wallets (Map_set address wallet (wallets s)) s).

(** [addTransaction] (lines 199-221).  [amount] is whatever number the caller
    passes; [handleSendTransaction] passes the result of [parseFloat], which
    is NaN for a field that holds no number. *)
Definition addTransaction (id : string) (now : Z) (from to : string) (amount : float)
    (s : Ledger) : outcome Transaction.t * Ledger :=
  match Map_get from (wallets s), Map_get to (wallets s) with
  | Some fromWallet, Some _ =>
      if (Wallet.balance fromWallet <? amount)%float then (Throw InsufficientBalance, s)
      else if (amount <=? 0)%float then (Throw InvalidAmount, s)
      else
        let transaction := Transaction.new id now from (Some to) amount in
        (Ret transaction, set_transactionPool (transactionPool s ++ [transaction]) s)
  | _, _ => (Throw UnknownWallet, s)
  end.

(** One step is one call of [createWallet], of [addTransaction] or of
    [addBlock], with any arguments. *)
Inductive step : Ledger -> Ledger -> Prop :=
| step_createWallet s randomData now label initialBalance :
    step s (snd (createWallet randomData now label initialBalance s))
| step_addTransaction s id now from to amount :
    step s (snd (addTransaction id now from to amount s))
| step_addBlock s sealed r :
    step s (addBlock sealed r s).

Inductive reachable : Ledger -> Prop :=
| reachable_new : reachable newLedger
| reachable_step s s' : reachable s -> step s s' -> reachable s'.

(** What pool admission establishes about a transaction, relative to a
    registry: nothing about its amount. *)
Definition accepted (ws : WalletMap) (tx : Transaction.t) : Prop :=
  In (Transaction.from tx) (Map_keys ws)
  /\ exists to, Transaction.to tx = Some to /\ In to (Map_keys ws).

Definition Invariant (s : Ledger) : Prop :=
  Forall (fun k => k <> "System") (Map_keys (wallets s))
  /\ Forall (accepted (wallets s)) (transactionPool s).

End Double.

(** ** A concrete platform and concrete runs, for the examples below *)

Definition doubleQuote : string := String (ascii_of_nat 34) "".

Definition JSON_member (key value : string) : string :=
  doubleQuote ++ key ++ doubleQuote ++ ":" ++ value.

Definition JSON_string (s : string) : string := doubleQuote ++ s ++ doubleQuote.

(** The JSON text of a transaction whose strings need no escaping and whose
    amount is a whole number; an [undefined] member is skipped. *)
Definition JSON_transaction (tx : Transaction.t) : string :=
  "{" ++ JSON_member "id" (JSON_string (Transaction.id tx))
  ++ "," ++ JSON_member "from" (JSON_string (Transaction.from tx))
  ++ match Transaction.to tx with
     | Some a => "," ++ JSON_member "to" (JSON_string a)
     | None => ""
     end
  ++ "," ++ JSON_member "amount"
              (Number_toString (Qnum (Transaction.amount tx) / Zpos (Qden (Transaction.amount tx))))
  ++ "," ++ JSON_member "timestamp" (Number_toString (Transaction.timestamp tx))
  ++ "}".

(** [JSON.stringify] restricted to such transactions. *)
Definition wholeAmounts : Platform :=
  {| JSON_stringify := fun txs => "[" ++ String.concat "," (map JSON_transaction txs) ++ "]" |}.

(** Nobody asks to stop; the clock advances one millisecond per attempt. *)
Definition undisturbed : World :=
  {| stopDuring := fun _ => false; clock := fun n => (1700000000600 + Z.of_nat n)%Z |}.

(** A stop request arrives while attempt [k] is suspended. *)
Definition stoppedAt (k : nat) : World :=
  {| stopDuring := fun n => Nat.eqb n k; clock := fun n => (1700000000600 + Z.of_nat n)%Z |}.

Definition readings : Readings :=
  {| rewardId := "tx_k3j9x0q2alo8zq1xc"; rewardTime := 1700000000500;
     blockTime := 1700000000500; startTime := 1700000000500 |}.

Definition aliceKey : list Z := repeat 1%Z 20.
Definition bobKey : list Z := repeat 2%Z 20.
Definition alice := Eval vm_compute in generateAddress aliceKey.
Definition bob := Eval vm_compute in generateAddress bobKey.

(** Two wallets (Alice 100, Bob 0), the genesis block, difficulty 1, mining on. *)
Definition twoWallets :=
  Eval vm_compute in
    snd (createWallet bobKey 1700000000002 (Some "Bob") 0
      (snd (createWallet aliceKey 1700000000001 (Some "Alice") 100 newSimulator))).

Definition ready :=
  Eval vm_compute in
    set_isMining true (set_difficulty 1
      (createGenesisBlock (platform := wholeAmounts) 1700000000100 twoWallets)).

(** One transfer of 30 from Alice to Bob waits in the pool. *)
Definition funded :=
  Eval vm_compute in
    snd (addTransaction "tx_p0a7c41dblo8zq0ab" 1700000000200 alice bob 30 ready).

Definition emptyBlock : Block.t := Block.new 0 0 "" None [].

(** The block that [addBlock] builds on the genesis block of [funded], and
    what the sealing run makes of it. *)
Definition fundedCandidate :=
  Eval vm_compute in
    candidateBlock readings funded (nth 0 (blockchain funded) emptyBlock).

Definition fundedDrained :=
  Eval vm_compute in set_transactionPool (skipn 10 (transactionPool funded)) funded.

Definition fundedSealed :=
  Eval vm_compute in
    match mineBlock (platform := wholeAmounts) 64 undisturbed 1700000000500
            fundedCandidate fundedDrained with
    | Some (Some b, s) => (b, s)
    | _ => (emptyBlock, newSimulator)
    end.

Definition fundedProduced :=
  Eval vm_compute in
    match addBlock (platform := wholeAmounts) 64 undisturbed readings funded with
    | Some (_, s) => s
    | None => newSimulator
    end.

(** A write to [blockchain[i].previousHash] from outside the engine. *)
Fixpoint tamper (i : nat) (p : option string) (chain : list Block.t) : list Block.t :=
  match chain, i with
  | [], _ => []
  | b :: rest, O => Block.set_previousHash p b :: rest
  | b :: rest, S i' => b :: tamper i' p rest
  end.

(** ** The mining controller, the traffic generator and the dashboard figures *)

(** A call that a handler or a timer makes while the loop of [startMining] is
    suspended in its pause: the stop button (line 296), the transaction form
    and the traffic timer (lines 354 and 690), the wallet button (line 271)
    and the difficulty slider (line 304).  The start button is disabled while
    mining is on (line 635); a second loop started after a stop request within
    one pause is not covered. *)
Inductive Event :=
| StopRequest
| Submission (id : string) (now : Z) (from to : string) (amount : Q)
| WalletRequest (randomData : list Z) (now : Z) (label : string)
| DifficultyInput (d : nat).

Definition isSubmission (e : Event) : bool :=
  match e with
  | Submission _ _ _ _ _ => true
  | _ => false
  end.

(** What one pass of the [while] loop of [startMining] (lines 231-241)
    consumes: the fuel, world and readings of the call of [addBlock] it may
    make, and the calls handled, in order, during the pause that ends the
    pass. *)
Record Round :=
  { sealingFuel : nat; sealingWorld : World; roundReadings : Readings;
    duringPause : list Event }.

(** What one firing of the traffic timer (lines 674-697) draws from
    [Math.random()]: the gate, the sender, the recipient, the further
    recipients drawn while recipient and sender coincide, and the amount. *)
Record Draws :=
  { gate : Q; fromDraw : Q; toDraw : Q; redraws : list Q; amountDraw : Q }.

(** What became of one firing of the traffic timer. *)
Inductive Tick :=
| Idle
| Submitted (tx : Transaction.t)
| Refused (e : Exception)
| Failed (e : Exception).

(** [addresses[Math.floor(u * addresses.length)]]; out of range is [undefined]. *)
Definition draw (u : Q) (addresses : list string) : option string :=
  let i := Qfloor (u * inject_Z (Z.of_nat (List.length addresses))) in
  if (i <? 0)%Z then None else nth_error addresses (Z.to_nat i).

(** [while (to === from) to = addresses[...]] (lines 680-682); [None] when the
    draws supplied run out while the loop is still turning. *)
Fixpoint redraw (from to : option string) (us : list Q) (addresses : list string)
    : option (option string) :=
  if option_string_eqb to from then
    match us with
    | [] => None
    | u :: us' => redraw from (draw u addresses) us' addresses
    end
  else Some to.

Section Controller.
Context {platform : Platform}.

(** [stopMining] (lines 244-248). *)
Definition stopMining (s : BlockchainSimulator) : BlockchainSimulator :=
  set_isMining false s.

(** The effect of one call made during a pause.  Both callers of
    [addTransaction] catch what it throws. *)
Definition handle (e : Event) (s : BlockchainSimulator) : BlockchainSimulator :=
  match e with
  | StopRequest => stopMining s
  | Submission id now from to amount => snd (addTransaction id now from to amount s)
  | WalletRequest randomData now label => snd (createWallet randomData now (Some label) 0 s)
  | DifficultyInput d => set_difficulty d s
  end.

Definition handleAll (events : list Event) (s : BlockchainSimulator) : BlockchainSimulator :=
  fold_left (fun s e => handle e s) events s.

(** The [while (this.isMining)] loop of [startMining] (lines 231-241).  [None]
    when the rounds supplied run out, or a sealing run exhausts its fuel,
    while the loop is still turning. *)
Fixpoint miningLoop (rounds : list Round) (s : BlockchainSimulator)
    : option BlockchainSimulator :=
  match rounds with
  | [] => if isMining s then None else Some s
  | round :: rest =>
      if isMining s then
        let attempted :=
          if (0 <? List.length (transactionPool s))%nat
             || (List.length (blockchain s) =? 1)%nat
          then match addBlock (sealingFuel round) (sealingWorld round)
                       (roundReadings round) s with
               | Some (_, s') => Some s'
               | None => None
               end
          else Some s in
        match attempted with
        | Some s' =>
            miningLoop rest (handleAll (duringPause round) s')
        | None => None
        end
      else Some s
  end.

(** [startMining] (lines 224-242). *)
Definition startMining (rounds : list Round) (s : BlockchainSimulator)
    : option BlockchainSimulator :=
  if isMining s then Some s else miningLoop rounds (set_isMining true s).


(** The first timer of [startSimulation] (lines 674-697), fired once.  The
    result tells what became of the firing: nothing was submitted, a
    transaction was submitted and accepted, [addTransaction] threw and the
    [catch] swallowed it, or the callback itself failed (reading [balance] off
    an [undefined] sender is a [TypeError]).  [addTransaction] with an
    [undefined] recipient throws 'Invalid wallet address'. *)
Definition trafficTick (d : Draws) (id : string) (now : Z) (s : BlockchainSimulator)
    : option (Tick * BlockchainSimulator) :=
  if Qltb (gate d) (2 # 10) && (2 <=? List.length (wallets s))%nat then
    let addresses := Map_keys (wallets s) in
    let from := draw (fromDraw d) addresses in
    match redraw from (draw (toDraw d) addresses) (redraws d) addresses with
    | None => None
    | Some to =>
        match from, Map_get_opt from (wallets s) with
        | Some f, Some fromWallet =>
            let maxAmount := (Wallet.balance fromWallet * (1 # 10))%Q in
            if Qltb 1 maxAmount then
              let amount := (amountDraw d * maxAmount + (5 # 10))%Q in
              match to with
              | Some t =>
                  match addTransaction id now f t amount s with
                  | (Ret tx, s') => Some (Submitted tx, s')
                  | (Throw e, s') => Some (Refused e, s')
                  end
              | None => Some (Refused UnknownWallet, s)
              end
            else Some (Idle, s)
        | _, _ => Some (Failed TypeError, s)
        end
    end
  else Some (Idle, s).

End Controller.

(** [confirmedTransactions] and [totalTransactions] of [updateUI] (lines
    645, 648): the [reduce] over the chain. *)
Definition confirmedTransactions (s : BlockchainSimulator) : nat :=
  fold_left (fun acc block => acc + List.length (Block.transactions block))
    (blockchain s) 0.

(** [pendingTransactions] of [updateUI] (line 647). *)
Definition pendingTransactions (s : BlockchainSimulator) : nat :=
  List.length (transactionPool s).

(** ** Predicates of the further statements *)

Definition hexAlphabet : list ascii := list_ascii_of_string "0123456789abcdef".

(** Every block sits at the position its index names. *)
Definition indexed (chain : list Block.t) : Prop :=
  forall i b, nth_error chain i = Some b -> Block.index b = i.

(** Two blocks that [validateChain] cannot tell apart. *)
Definition sameSeal (b b' : Block.t) : Prop :=
  Block.hash b = Block.hash b' /\ Block.previousHash b = Block.previousHash b'.

(** [block.transactions = txs], a write from outside the engine. *)
Definition Block_set_transactions (txs : list Transaction.t) (b : Block.t) : Block.t :=
  Block.Build (Block.index b) (Block.timestamp b) (Block.data b) (Block.previousHash b)
    txs (Block.nonce b) (Block.hash b).

(** [s'] comes from [s] by zero or more calls at the operation surface. *)
Inductive evolves {platform : Platform}
  : BlockchainSimulator -> BlockchainSimulator -> Prop :=
| evolves_refl s : evolves s s
| evolves_step s s' s'' : evolves s s' -> step s' s'' -> evolves s s''.

(** The stored hash of a block is the digest of what the block now holds. *)
Definition hashMatches {platform : Platform} (b : Block.t) : Prop :=
  Block.hash b = Some (calculateHash b).

(** The blocks that carry a reward transaction. *)
Definition rewarded (chain : list Block.t) : list Block.t :=
  filter (fun b => match Block.transactions b with [] => false | _ :: _ => true end) chain.

(** Draws that pick Alice as sender, Alice again and then Bob as recipient. *)
Definition sampleDraws : Draws :=
  {| gate := (1 # 10)%Q; fromDraw := (1 # 4)%Q; toDraw := (1 # 4)%Q;
     redraws := [(3 # 4)%Q]; amountDraw := (1 # 2)%Q |}.

(** A block as production makes them: no transactions (a genesis block), or
    one reward of 10 from "System" followed by at most 10 transfers, none of
    them from "System", each to a named recipient. *)
Definition wellFormedBlock (b : Block.t) : Prop :=
  Block.transactions b = []
  \/ exists reward rest,
       Block.transactions b = reward :: rest
       /\ Transaction.from reward = "System"
       /\ Transaction.amount reward = 10%Q
       /\ List.length rest <= 10
       /\ Forall (fun tx => Transaction.from tx <> "System"
                            /\ exists to, Transaction.to tx = Some to) rest.

Definition carolKey : list Z := repeat 3%Z 20.

(** Alice and Bob with the balances given, as binary64 values. *)
Definition doubleWallets (aliceBalance bobBalance : float) : Double.Ledger :=
  snd (Double.createWallet bobKey 1700000000002 (Some "Bob") bobBalance
    (snd (Double.createWallet aliceKey 1700000000001 (Some "Alice") aliceBalance
       Double.newLedger))).

(** One transfer of 30 from Alice, who holds 100, to Bob waits in the pool. *)
Definition doubleFunded : Double.Ledger :=
  snd (Double.addTransaction "tx_p0a7c41dblo8zq0ab" 1700000000200 alice bob 30
         (doubleWallets 100 0)).

(** A pass with the readings given that finds no stop request while sealing. *)
Definition pass (r : Readings) (events : list Event) : Round :=
  {| sealingFuel := 64; sealingWorld := undisturbed; roundReadings := r;
     duringPause := events |}.

Definition laterReadings : Readings :=
  {| rewardId := "tx_m2c8v5t1blo8zq9ke"; rewardTime := 1700000000900;
     blockTime := 1700000000900; startTime := 1700000000900 |}.

(** * Properties *)

(** ** The digest agrees with the published SHA-256 test vectors *)

Example sha256_abc :
  hexOfBytes (SHA256.digest (TextEncoder_encode "abc"))
  = "ba7816bf8f01cfea414140de5dae2223b00361a396177a9cb410ff61f20015ad".
Proof. vm_compute. reflexivity. Qed.

Example sha256_empty :
  hexOfBytes (SHA256.digest (TextEncoder_encode ""))
  = "e3b0c44298fc1c149afbf4c8996fb92427ae41e4649b934ca495991b7852b855".
Proof. vm_compute. reflexivity. Qed.

Example sha256_two_blocks :
  hexOfBytes (SHA256.digest (TextEncoder_encode
    "abcdbcdecdefdefgefghfghighijhijkijkljklmklmnlmnomnopnopq"))
  = "248d6a61d20638b8e5c026930c3e6039a33ce45964ff2167f6ecedd419db06c1".
Proof. vm_compute. reflexivity. Qed.

(** ** Strings *)

Lemma prefix_app (p s : string) :
  String.prefix p s = true <-> exists rest, s = p ++ rest.
Proof.
  revert s; induction p as [|c p IH]; intros s.
  - split; [intros _; now exists s | intros _; destruct s; reflexivity].
  - destruct s as [|c' s]; simpl.
    + split; [discriminate | intros [rest H]; discriminate].
    + destruct (ascii_dec c c') as [->|Hne].
      * rewrite IH. split; intros [rest H]; exists rest; [now subst | now injection H].
      * split; [discriminate | intros [rest H]; injection H; congruence].
Qed.

Lemma startsWith_zeros (h : string) (d : nat) :
  startsWith h (String_repeat "0" d) = true ->
  forall i, i < d -> String.get i h = Some "0"%char.
Proof.
  unfold startsWith. revert h; induction d as [|d IH]; intros h H i Hi; [lia|].
  destruct h as [|c h]; [discriminate|].
  change (String_repeat "0" (S d)) with (String "0" (String_repeat "0" d)) in H.
  change ((if ascii_dec "0" c then String.prefix (String_repeat "0" d) h else false) = true) in H.
  destruct (ascii_dec "0" c) as [<-|]; [|discriminate].
  destruct i as [|i]; [reflexivity|]. simpl. apply IH; [exact H | lia].
Qed.

Lemma startsWith_empty (h : string) : startsWith h (String_repeat "0" 0) = true.
Proof. destruct h; reflexivity. Qed.

Lemma option_string_eqb_eq (a b : option string) :
  option_string_eqb a b = true <-> a = b.
Proof.
  destruct a as [x|], b as [y|]; simpl; try (split; congruence).
  rewrite String.eqb_eq. split; congruence.
Qed.

Lemma generateAddress_not_System (randomData : list Z) :
  generateAddress randomData <> "System".
Proof. unfold generateAddress. cbn [append]. discriminate. Qed.

(** ** The registry *)

Lemma Map_get_In (k : string) (m : WalletMap) (w : Wallet.t) :
  Map_get k m = Some w -> In (k, w) m.
Proof.
  induction m as [|[k' w'] m IH]; simpl; [discriminate|].
  destruct (String.eqb_spec k k') as [->|Hne].
  - intros [= ->]. now left.
  - intros H. right. now apply IH.
Qed.

Lemma Map_get_keys (k : string) (m : WalletMap) :
  In k (Map_keys m) <-> exists w, Map_get k m = Some w.
Proof.
  induction m as [|[k' w'] m IH]; simpl.
  - split; [tauto | intros [w H]; discriminate].
  - destruct (String.eqb_spec k k') as [->|Hne].
    + split; [intros _; now exists w' | now left].
    + rewrite <- IH. split; [intros [H|H]; [congruence | exact H] | now right].
Qed.

Lemma Map_keys_mutate (k : string) (f : Wallet.t -> Wallet.t) (m : WalletMap) :
  Map_keys (Map_mutate k f m) = Map_keys m.
Proof.
  induction m as [|[k' w'] m IH]; simpl; [reflexivity|].
  destruct (String.eqb k k'); simpl; [reflexivity | now rewrite IH].
Qed.

Lemma Map_get_mutate_same (k : string) (f : Wallet.t -> Wallet.t) (m : WalletMap)
    (w : Wallet.t) :
  Map_get k m = Some w -> Map_get k (Map_mutate k f m) = Some (f w).
Proof.
  induction m as [|[k' w'] m IH]; simpl; [discriminate|].
  destruct (String.eqb_spec k k') as [->|Hne]; simpl.
  - rewrite String.eqb_refl. now intros [= ->].
  - destruct (String.eqb_spec k k'); [congruence | exact IH].
Qed.

Lemma Map_get_mutate_other (k a : string) (f : Wallet.t -> Wallet.t) (m : WalletMap) :
  a <> k -> Map_get a (Map_mutate k f m) = Map_get a m.
Proof.
  intros Hne. induction m as [|[k' w'] m IH]; simpl; [reflexivity|].
  destruct (String.eqb_spec k k') as [->|Hk]; simpl.
  - destruct (String.eqb_spec a k'); [congruence | reflexivity].
  - destruct (String.eqb_spec a k'); [reflexivity | exact IH].
Qed.

Lemma Map_keys_set (k a : string) (w : Wallet.t) (m : WalletMap) :
  In a (Map_keys (Map_set k w m)) <-> a = k \/ In a (Map_keys m).
Proof.
  induction m as [|[k' w'] m IH]; simpl.
  - intuition congruence.
  - destruct (String.eqb_spec k k') as [->|Hne]; simpl.
    + intuition congruence.
    + rewrite IH. intuition congruence.
Qed.

Lemma Map_set_In (k : string) (w : Wallet.t) (m : WalletMap) (kw : string * Wallet.t) :
  In kw (Map_set k w m) -> kw = (k, w) \/ In kw m.
Proof.
  induction m as [|[k' w'] m IH]; simpl.
  - intuition.
  - destruct (String.eqb k k'); simpl; intuition.
Qed.

Lemma Map_mutate_Forall (P : string * Wallet.t -> Prop) (k : string)
    (f : Wallet.t -> Wallet.t) (m : WalletMap) (w : Wallet.t) :
  Map_get k m = Some w -> Forall P m -> P (k, f w) -> Forall P (Map_mutate k f m).
Proof.
  induction m as [|[k' w'] m IH]; simpl; [discriminate|].
  intros Hget Hall Hnew. inversion Hall as [|? ? Hhd Htl]; subst.
  destruct (String.eqb_spec k k') as [->|Hne].
  - injection Hget as ->. now constructor.
  - constructor; [exact Hhd | now apply IH].
Qed.

(** ** Sealing *)

(** The hash rate is the floor of a quotient of binary64 values: 700 attempts
    in 35 ms are reported as 19999 per second, because 35 / 1000 is not exact;
    with no time elapsed the rate is 0. *)
Lemma updateHashRate_rounds :
  hashRate (updateHashRate 1035
              (set_miningStartTime 1000 (set_currentNonce 700 newSimulator))) = 19999%Z
  /\ hashRate (updateHashRate 1000
                 (set_miningStartTime 1000 (set_currentNonce 700 newSimulator))) = 0%Z.
Proof. split; vm_compute; reflexivity. Qed.

Section Sealing.
Context {platform : Platform}.

Lemma calculateHash_set_hash (h : option string) (b : Block.t) :
  calculateHash (Block.set_hash h b) = calculateHash b.
Proof. reflexivity. Qed.

Lemma suspend_currentNonce (world : World) (s : BlockchainSimulator) :
  currentNonce (suspend world s) = currentNonce s.
Proof.
  unfold suspend.
  destruct (currentNonce s mod 100 =? 0)%nat; cbn [currentNonce updateHashRate set_hashRate];
    match goal with |- context [if ?c then _ else _] => destruct c end; reflexivity.
Qed.

Lemma suspend_sameLedger (world : World) (s : BlockchainSimulator) :
  sameLedger s (suspend world s).
Proof.
  unfold suspend, sameLedger.
  destruct (currentNonce s mod 100 =? 0)%nat;
    match goal with |- context [if ?c then _ else _] => destruct c end;
    repeat split; reflexivity.
Qed.

Lemma suspend_isMining (world : World) (s : BlockchainSimulator) :
  isMining (suspend world s)
  = if stopDuring world (currentNonce s) then false else isMining s.
Proof.
  unfold suspend.
  destruct (currentNonce s mod 100 =? 0)%nat; cbn [currentNonce updateHashRate set_hashRate];
    destruct (stopDuring world (currentNonce s)); reflexivity.
Qed.

Lemma sameLedger_trans (s1 s2 s3 : BlockchainSimulator) :
  sameLedger s1 s2 -> sameLedger s2 s3 -> sameLedger s1 s3.
Proof. unfold sameLedger. intuition congruence. Qed.

(** The nonce the block carries on entry is overwritten by the first attempt. *)
Lemma mineLoop_set_nonce (fuel : nat) (world : World) (target : string) (block : Block.t)
    (n : nat) :
  forall s, mineLoop fuel world target (Block.set_nonce n block) s
            = mineLoop fuel world target block s.
Proof.
  destruct fuel as [|fuel]; intros s; reflexivity.
Qed.

Lemma mineLoop_step (fuel : nat) (world : World) (target : string) (block : Block.t)
    (s : BlockchainSimulator) :
  mineLoop (S fuel) world target block s
  = if isMining s then
      if startsWith (calculateHash (Block.set_nonce (currentNonce s) block)) target
      then Some (Some (sealedAt block (currentNonce s)), suspend world s)
      else mineLoop fuel world target block
             (set_currentNonce (S (currentNonce s)) (suspend world s))
    else Some (None, s).
Proof.
  cbn [mineLoop]. cbv zeta. rewrite suspend_currentNonce, mineLoop_set_nonce.
  reflexivity.
Qed.

(** A sealing run writes only the mining counters and the flag. *)
Lemma mineLoop_sameLedger (fuel : nat) (world : World) (target : string) (block : Block.t) :
  forall s result s',
    mineLoop fuel world target block s = Some (result, s') -> sameLedger s s'.
Proof.
  induction fuel as [|fuel IH]; intros s result s' H; [discriminate|].
  rewrite mineLoop_step in H.
  destruct (isMining s).
  - destruct (startsWith _ target).
    + injection H as _ <-. apply suspend_sameLedger.
    + apply IH in H. eapply sameLedger_trans; [apply suspend_sameLedger|].
      unfold sameLedger in *. exact H.
  - injection H as _ <-. unfold sameLedger. repeat split; reflexivity.
Qed.

(** A returned block is the input block at the nonce reached, carrying the
    digest computed there, and no earlier attempt of the run met the target. *)
Lemma mineLoop_sealed (fuel : nat) (world : World) (target : string) (block : Block.t) :
  forall s b s',
    mineLoop fuel world target block s = Some (Some b, s') ->
    b = sealedAt block (currentNonce s')
    /\ startsWith (calculateHash (Block.set_nonce (currentNonce s') block)) target = true
    /\ currentNonce s <= currentNonce s'
    /\ forall j, currentNonce s <= j < currentNonce s' ->
         startsWith (calculateHash (Block.set_nonce j block)) target = false.
Proof.
  induction fuel as [|fuel IH]; intros s b s' H; [discriminate|].
  rewrite mineLoop_step in H.
  destruct (isMining s); [|discriminate].
  destruct (startsWith _ target) eqn:Hhit.
  - injection H as <- <-. rewrite suspend_currentNonce.
    repeat split; [exact Hhit | lia | intros j Hj; lia].
  - apply IH in H. cbn [currentNonce set_currentNonce] in H.
    destruct H as (Hb & Hhit' & Hle & Hmin).
    repeat split; [exact Hb | exact Hhit' | lia |].
    intros j Hj. destruct (Nat.eq_dec j (currentNonce s)) as [->|Hne]; [exact Hhit|].
    apply Hmin. lia.
Qed.

(** If the flag stays up until some attempt meets the target, the run returns
    the block sealed at the least such attempt. *)
Lemma mineLoop_finds (world : World) (target : string) (block : Block.t) :
  forall k fuel s,
    isMining s = true ->
    (forall j, currentNonce s <= j < currentNonce s + k ->
       stopDuring world j = false
       /\ startsWith (calculateHash (Block.set_nonce j block)) target = false) ->
    startsWith (calculateHash (Block.set_nonce (currentNonce s + k) block)) target = true ->
    k < fuel ->
    exists s', mineLoop fuel world target block s
               = Some (Some (sealedAt block (currentNonce s + k)), s')
               /\ currentNonce s' = currentNonce s + k
               /\ isMining s' = negb (stopDuring world (currentNonce s + k)).
Proof.
  induction k as [|k IH]; intros fuel s Hon Hbefore Hhit Hfuel;
    (destruct fuel as [|fuel]; [lia|]); rewrite mineLoop_step, Hon.
  - rewrite Nat.add_0_r in *. rewrite Hhit. eexists. split; [reflexivity|].
    split; [apply suspend_currentNonce|].
    rewrite suspend_isMining, Hon. now destruct (stopDuring world (currentNonce s)).
  - destruct (Hbefore (currentNonce s)) as [Hstop Hmiss]; [lia|]. rewrite Hmiss.
    destruct (IH fuel (set_currentNonce (S (currentNonce s)) (suspend world s)))
      as (s' & Hrun & Hn & Hflag).
    + cbn [isMining set_currentNonce]. rewrite suspend_isMining, Hstop. exact Hon.
    + cbn [currentNonce set_currentNonce]. intros j Hj. apply Hbefore. lia.
    + cbn [currentNonce set_currentNonce].
      replace (S (currentNonce s) + k) with (currentNonce s + S k) by lia.
      exact Hhit.
    + lia.
    + cbn [currentNonce set_currentNonce] in Hrun, Hn, Hflag.
      replace (S (currentNonce s) + k) with (currentNonce s + S k) in Hrun, Hn, Hflag by lia.
      exists s'. repeat split; assumption.
Qed.

(** A stop request that arrives before any attempt has met the target ends
    the run with the flag lowered. *)
Lemma mineLoop_stopped (world : World) (target : string) (block : Block.t) :
  forall k fuel s,
    stopDuring world (currentNonce s + k) = true ->
    (forall j, currentNonce s <= j < currentNonce s + k ->
       startsWith (calculateHash (Block.set_nonce j block)) target = false) ->
    k + 2 <= fuel ->
    exists result s', mineLoop fuel world target block s = Some (result, s')
                      /\ isMining s' = false.
Proof.
  induction k as [|k IH]; intros fuel s Hstop Hmiss Hfuel;
    (destruct fuel as [|fuel]; [lia|]); rewrite mineLoop_step;
    (destruct (isMining s) eqn:Hon; [|now exists None, s]).
  - rewrite Nat.add_0_r in Hstop.
    assert (Hoff : isMining (suspend world s) = false)
      by (rewrite suspend_isMining, Hstop; reflexivity).
    destruct (startsWith _ target).
    + eexists _, _. split; [reflexivity | exact Hoff].
    + destruct fuel as [|fuel]; [lia|]. rewrite mineLoop_step.
      cbn [isMining set_currentNonce]. rewrite Hoff.
      eexists _, _. split; [reflexivity | exact Hoff].
  - rewrite (Hmiss (currentNonce s)) by lia.
    apply IH; cbn [currentNonce set_currentNonce]; rewrite ?suspend_currentNonce.
    + replace (S (currentNonce s) + k) with (currentNonce s + S k) by lia. exact Hstop.
    + intros j Hj. apply Hmiss. lia.
    + lia.
Qed.

End Sealing.

(** ** Settlement *)

Lemma Qle_bool_false (x y : Q) : Qle_bool x y = false <-> (y < x)%Q.
Proof.
  split; intros H.
  - apply Qnot_le_lt. intros Hle. apply Qle_bool_iff in Hle. congruence.
  - destruct (Qle_bool x y) eqn:E; [|reflexivity].
    apply Qle_bool_iff in E. apply Qlt_not_le in H. contradiction.
Qed.

Lemma Qltb_true (x y : Q) : Qltb x y = true <-> (x < y)%Q.
Proof. unfold Qltb. rewrite negb_true_iff. apply Qle_bool_false. Qed.

Lemma Qltb_false (x y : Q) : Qltb x y = false <-> (y <= x)%Q.
Proof. unfold Qltb. rewrite negb_false_iff. apply Qle_bool_iff. Qed.

Lemma Map_get_opt_Some (to : option string) (ws : WalletMap) (w : Wallet.t) :
  Map_get_opt to ws = Some w -> exists a, to = Some a /\ Map_get a ws = Some w.
Proof. destruct to as [a|]; simpl; [now exists a | discriminate]. Qed.

Lemma processTransaction_settled (ws : WalletMap) (tx : Transaction.t) :
  settled ws tx (processTransaction ws tx).
Proof.
  unfold processTransaction.
  destruct (String.eqb_spec (Transaction.from tx) "System") as [Hsys|Hsys].
  - destruct (Transaction.to tx) as [to|] eqn:Hto.
    + cbn [Map_get_opt]. destruct (Map_get to ws) as [w|] eqn:Hw.
      * eapply settled_reward; eassumption.
      * apply settled_nothing. rewrite Hsys, String.eqb_refl, Hto. exact Hw.
    + apply settled_nothing. rewrite Hsys, String.eqb_refl, Hto. reflexivity.
  - assert (Hne : String.eqb (Transaction.from tx) "System" = false)
      by (now apply String.eqb_neq).
    destruct (Transaction.to tx) as [to|] eqn:Hto.
    + cbn [Map_get_opt].
      destruct (Map_get (Transaction.from tx) ws) as [fw|] eqn:Hfw.
      * destruct (Map_get to ws) as [tw|] eqn:Htw.
        -- destruct (Qle_bool (Transaction.amount tx) (Wallet.balance fw)) eqn:Hle.
           ++ eapply settled_transfer; try eassumption. now apply Qle_bool_iff.
           ++ apply settled_nothing. rewrite Hne. right. right. exists fw.
              split; [exact Hfw | now apply Qle_bool_false].
        -- apply settled_nothing. rewrite Hne, Hto. right. left. exact Htw.
      * apply settled_nothing. rewrite Hne. left. exact Hfw.
    + destruct (Map_get (Transaction.from tx) ws);
        apply settled_nothing; rewrite Hne, Hto; right; left; reflexivity.
Qed.

Lemma processTransaction_keys (ws : WalletMap) (tx : Transaction.t) :
  Map_keys (processTransaction ws tx) = Map_keys ws.
Proof.
  destruct (processTransaction_settled ws tx); rewrite ?Map_keys_mutate; reflexivity.
Qed.

Lemma processTransactions_keys (txs : list Transaction.t) :
  forall ws, Map_keys (processTransactions txs ws) = Map_keys ws.
Proof.
  induction txs as [|tx txs IH]; intros ws; [reflexivity|].
  unfold processTransactions in *. cbn [fold_left].
  rewrite IH. apply processTransaction_keys.
Qed.

Lemma nonNegative_get (ws : WalletMap) (a : string) (w : Wallet.t) :
  nonNegativeBalances ws -> Map_get a ws = Some w -> (0 <= Wallet.balance w)%Q.
Proof.
  intros Hall Hget. apply Map_get_In in Hget.
  unfold nonNegativeBalances in Hall. rewrite Forall_forall in Hall.
  exact (Hall _ Hget).
Qed.

Lemma credit_nonNegative (ws : WalletMap) (to : string) (amount : Q) (w : Wallet.t) :
  nonNegativeBalances ws -> Map_get to ws = Some w -> (0 <= amount)%Q ->
  nonNegativeBalances
    (Map_mutate to (fun w => Wallet.set_balance (Wallet.balance w + amount) w) ws).
Proof.
  intros Hall Hget Hamount. eapply Map_mutate_Forall; [exact Hget | exact Hall |].
  cbn. pose proof (nonNegative_get _ _ _ Hall Hget). lra.
Qed.

Lemma processTransaction_nonNegative (ws : WalletMap) (tx : Transaction.t) :
  nonNegativeBalances ws -> (0 <= Transaction.amount tx)%Q ->
  nonNegativeBalances (processTransaction ws tx).
Proof.
  intros Hall Hamount.
  destruct (processTransaction_settled ws tx)
    as [to w _ _ Hw | to fw tw _ _ Hfw Htw Hle | _]; [| |exact Hall].
  - eapply credit_nonNegative; eassumption.
  - assert (Hdebit : nonNegativeBalances
      (Map_mutate (Transaction.from tx)
         (fun w => Wallet.set_balance (Wallet.balance w - Transaction.amount tx) w) ws)).
    { eapply Map_mutate_Forall; [exact Hfw | exact Hall |]. cbn. lra. }
    assert (Hin : In to (Map_keys (Map_mutate (Transaction.from tx)
         (fun w => Wallet.set_balance (Wallet.balance w - Transaction.amount tx) w) ws))).
    { rewrite Map_keys_mutate. apply Map_get_keys. now exists tw. }
    apply Map_get_keys in Hin. destruct Hin as [w' Hw'].
    eapply credit_nonNegative; eassumption.
Qed.

Lemma processTransactions_nonNegative (txs : list Transaction.t) :
  forall ws,
    nonNegativeBalances ws ->
    Forall (fun tx => (0 <= Transaction.amount tx)%Q) txs ->
    nonNegativeBalances (processTransactions txs ws).
Proof.
  induction txs as [|tx txs IH]; intros ws Hall Hamounts; [exact Hall|].
  inversion Hamounts; subst. unfold processTransactions in *. cbn [fold_left].
  apply IH; [now apply processTransaction_nonNegative | assumption].
Qed.

(** ** Block production *)

Lemma nth_error_last_None (A : Type) (l : list A) :
  nth_error l (List.length l - 1) = None <-> l = [].
Proof.
  split; [|intros ->; reflexivity].
  intros H. apply nth_error_None in H. destruct l; [reflexivity | simpl in H; lia].
Qed.

Lemma Forall_skipn_of (A : Type) (P : A -> Prop) (n : nat) (l : list A) :
  Forall P l -> Forall P (skipn n l).
Proof.
  intros H. rewrite <- (firstn_skipn n l) in H. now apply Forall_app in H.
Qed.

Lemma Forall_firstn_of (A : Type) (P : A -> Prop) (n : nat) (l : list A) :
  Forall P l -> Forall P (firstn n l).
Proof.
  intros H. rewrite <- (firstn_skipn n l) in H. now apply Forall_app in H.
Qed.

Lemma In_firstn_of (A : Type) (x : A) (n : nat) (l : list A) :
  In x (firstn n l) -> In x l.
Proof.
  intros H. rewrite <- (firstn_skipn n l). apply in_or_app. now left.
Qed.

Section Production.
Context {platform : Platform}.

Lemma mineBlock_sameLedger (fuel : nat) (world : World) (now : Z) (block : Block.t)
    (s : BlockchainSimulator) (result : option Block.t) (s' : BlockchainSimulator) :
  mineBlock fuel world now block s = Some (result, s') -> sameLedger s s'.
Proof.
  unfold mineBlock. intros H. apply mineLoop_sameLedger in H.
  unfold sameLedger in *. exact H.
Qed.

Lemma addBlock_produced (fuel : nat) (world : World) (r : Readings)
    (s : BlockchainSimulator) (result : option Block.t) (s' : BlockchainSimulator) :
  addBlock fuel world r s = Some (result, s') -> produced fuel world r s result s'.
Proof.
  unfold addBlock.
  destruct (nth_error (blockchain s) (List.length (blockchain s) - 1))
    as [previousBlock|] eqn:Hlast.
  - cbv zeta.
    destruct (mineBlock fuel world (startTime r) (candidateBlock r s previousBlock)
                (set_transactionPool (skipn 10 (transactionPool s)) s))
      as [[[b|] s1]|] eqn:Hmine; [| |discriminate].
    + destruct (isMining s1) eqn:Hon; intros [= <- <-].
      * eapply produced_block; eassumption.
      * eapply produced_nothing; [eassumption | eassumption | now right].
    + intros [= <- <-]. eapply produced_nothing; [eassumption | eassumption | now left].
  - intros [= <- <-]. apply produced_genesis. now apply nth_error_last_None.
Qed.

End Production.

(** ** The invariant of reachable states *)

Section Invariants.
Context {platform : Platform}.

Lemma accepted_keys (ws ws' : WalletMap) (tx : Transaction.t) :
  (forall a, In a (Map_keys ws) -> In a (Map_keys ws')) ->
  accepted ws tx -> accepted ws' tx.
Proof.
  intros Hsub (Hpos & Hfrom & to & Hto & Hin).
  repeat split; [exact Hpos | now apply Hsub | exists to; split; [exact Hto | now apply Hsub]].
Qed.

Lemma Invariant_new : Invariant newSimulator.
Proof.
  unfold Invariant, nonNegativeBalances; cbn. repeat split; constructor.
Qed.

Lemma Invariant_createWallet (s : BlockchainSimulator) (randomData : list Z) (now : Z)
    (label : option string) (initialBalance : Q) :
  (0 <= initialBalance)%Q -> Invariant s ->
  Invariant (snd (createWallet randomData now label initialBalance s)).
Proof.
  intros Hinit (Hbal & Hkeys & Hpool & Hreward & Hchain).
  unfold createWallet; cbn [snd]. unfold Invariant; cbn [wallets transactionPool
    miningReward blockchain set_wallets].
  repeat split; [| | |exact Hreward|exact Hchain].
  - unfold nonNegativeBalances in *. rewrite Forall_forall in *.
    intros kw Hin. apply Map_set_In in Hin. destruct Hin as [->|Hin]; [exact Hinit|].
    now apply Hbal.
  - rewrite Forall_forall in *. intros k Hin. apply Map_keys_set in Hin.
    destruct Hin as [->|Hin]; [apply generateAddress_not_System | now apply Hkeys].
  - eapply Forall_impl; [|exact Hpool]. intros tx. apply accepted_keys.
    intros a Ha. apply Map_keys_set. now right.
Qed.

Lemma Invariant_createGenesisBlock (s : BlockchainSimulator) (now : Z) :
  Invariant s -> Invariant (createGenesisBlock now s).
Proof.
  intros (Hbal & Hkeys & Hpool & Hreward & Hchain).
  unfold createGenesisBlock, Invariant; cbn [wallets transactionPool miningReward
    blockchain set_blockchain].
  repeat split; try assumption.
  apply Forall_app. split; [exact Hchain|]. constructor; [discriminate | constructor].
Qed.

Lemma Invariant_addTransaction (s : BlockchainSimulator) (id : string) (now : Z)
    (from to : string) (amount : Q) :
  Invariant s -> Invariant (snd (addTransaction id now from to amount s)).
Proof.
  intros Hinv. unfold addTransaction.
  destruct (Map_get from (wallets s)) as [fw|] eqn:Hfrom; [|exact Hinv].
  destruct (Map_get to (wallets s)) as [tw|] eqn:Hto; [|exact Hinv].
  destruct (Qltb (Wallet.balance fw) amount); [exact Hinv|].
  destruct (Qle_bool amount 0) eqn:Hle; [exact Hinv|].
  destruct Hinv as (Hbal & Hkeys & Hpool & Hreward & Hchain).
  cbn [snd]. unfold Invariant; cbn [wallets transactionPool miningReward blockchain
    set_transactionPool].
  repeat split; try assumption.
  apply Forall_app. split; [exact Hpool|]. constructor; [|constructor].
  repeat split; cbn.
  - now apply Qle_bool_false.
  - apply Map_get_keys. now exists fw.
  - exists to. split; [reflexivity | apply Map_get_keys; now exists tw].
Qed.

Lemma accepted_not_System (ws : WalletMap) (tx : Transaction.t) :
  Forall (fun k => k <> "System") (Map_keys ws) -> accepted ws tx ->
  Transaction.from tx <> "System".
Proof.
  intros Hkeys (_ & Hfrom & _). rewrite Forall_forall in Hkeys. now apply Hkeys.
Qed.

Lemma Invariant_addBlock (fuel : nat) (world : World) (r : Readings)
    (s : BlockchainSimulator) (result : option Block.t) (s' : BlockchainSimulator) :
  addBlock fuel world r s = Some (result, s') -> Invariant s -> Invariant s'.
Proof.
  intros Hadd Hinv. apply addBlock_produced in Hadd.
  destruct Hadd as [Hempty | previousBlock b s1 Hlast Hmine Hon
                   | previousBlock mined s1 Hlast Hmine Hwhy].
  - now apply Invariant_createGenesisBlock.
  - destruct Hinv as (Hbal & Hkeys & Hpool & Hreward & Hchain).
    pose proof (mineBlock_sameLedger _ _ _ _ _ _ _ Hmine) as (Hc & Hp & Hw & _ & Hr & _).
    cbn [blockchain transactionPool wallets miningReward set_transactionPool] in Hc, Hp, Hw, Hr.
    unfold mineBlock in Hmine. apply mineLoop_sealed in Hmine. destruct Hmine as (Hb & _).
    unfold Invariant; cbn [wallets transactionPool miningReward blockchain set_wallets
      set_blocksMined set_blockchain].
    rewrite Hc, Hp, Hw, Hr.
    assert (Hamounts : Forall (fun tx => (0 <= Transaction.amount tx)%Q) (batch r s)).
    { constructor.
      - cbn. rewrite Hreward. discriminate.
      - apply Forall_firstn_of. eapply Forall_impl; [|exact Hpool].
        intros tx (Hpos & _). now apply Qlt_le_weak. }
    repeat split.
    + now apply processTransactions_nonNegative.
    + now rewrite processTransactions_keys.
    + apply Forall_skipn_of. eapply Forall_impl; [|exact Hpool].
      intros tx. apply accepted_keys. intros a Ha. now rewrite processTransactions_keys.
    + exact Hreward.
    + apply Forall_app. split; [exact Hchain|]. constructor; [|constructor].
      rewrite Hb. discriminate.
  - destruct Hinv as (Hbal & Hkeys & Hpool & Hreward & Hchain).
    pose proof (mineBlock_sameLedger _ _ _ _ _ _ _ Hmine) as (Hc & Hp & Hw & _ & Hr & _).
    cbn [blockchain transactionPool wallets miningReward set_transactionPool] in Hc, Hp, Hw, Hr.
    unfold Invariant. rewrite Hc, Hp, Hw, Hr.
    repeat split; try assumption. now apply Forall_skipn_of.
Qed.

Lemma Invariant_step (s s' : BlockchainSimulator) :
  step s s' -> Invariant s -> Invariant s'.
Proof.
  intros Hstep Hinv.
  destruct Hstep as [s rd now label bal Hbal | s now | s id now from to amount
                    | s fuel world r result s' Hadd | s | s | s d].
  - now apply Invariant_createWallet.
  - now apply Invariant_createGenesisBlock.
  - now apply Invariant_addTransaction.
  - eapply Invariant_addBlock; eassumption.
  - exact Hinv.
  - exact Hinv.
  - exact Hinv.
Qed.

Lemma reachable_Invariant (s : BlockchainSimulator) : reachable s -> Invariant s.
Proof.
  induction 1 as [|s s' _ IH Hstep]; [apply Invariant_new | eapply Invariant_step; eassumption].
Qed.

End Invariants.

(** ** Production runs to completion *)

Section Completion.
Context {platform : Platform}.

(** At difficulty 0 the first attempt seals. *)
Lemma mineBlock_difficulty_zero (fuel : nat) (world : World) (now : Z) (block : Block.t)
    (s : BlockchainSimulator) :
  difficulty s = 0 -> isMining s = true ->
  exists s', mineBlock (S fuel) world now block s = Some (Some (sealedAt block 0), s').
Proof.
  intros Hd Hon. unfold mineBlock. rewrite mineLoop_step.
  cbn [isMining currentNonce set_miningStartTime set_currentNonce]. rewrite Hon, Hd.
  rewrite startsWith_empty. eexists. reflexivity.
Qed.

(** With the flag up and no stop request up to and including the first attempt
    [k] that meets the target, [addBlock] appends the block sealed at [k] and
    settles its batch. *)
Lemma addBlock_succeeds (fuel : nat) (world : World) (r : Readings)
    (s : BlockchainSimulator) (previousBlock : Block.t) (k : nat) :
  nth_error (blockchain s) (List.length (blockchain s) - 1) = Some previousBlock ->
  isMining s = true ->
  (forall j, j <= k -> stopDuring world j = false) ->
  (forall j, j < k -> sealsAt (candidateBlock r s previousBlock) (difficulty s) j = false) ->
  sealsAt (candidateBlock r s previousBlock) (difficulty s) k = true ->
  k < fuel ->
  exists s',
    addBlock fuel world r s
    = Some (Some (sealedAt (candidateBlock r s previousBlock) k), s')
    /\ blockchain s' = (blockchain s ++ [sealedAt (candidateBlock r s previousBlock) k])%list
    /\ wallets s' = processTransactions (batch r s) (wallets s)
    /\ transactionPool s' = skipn 10 (transactionPool s).
Proof.
  intros Hlast Hon Hquiet Hmiss Hhit Hfuel.
  destruct (mineLoop_finds world (String_repeat "0" (difficulty s))
              (candidateBlock r s previousBlock) k fuel
              (set_miningStartTime (startTime r)
                 (set_currentNonce 0
                    (set_transactionPool (skipn 10 (transactionPool s)) s))))
    as (s1 & Hrun & _ & Hflag); cbn [isMining currentNonce set_miningStartTime
      set_currentNonce set_transactionPool].
  - exact Hon.
  - intros j Hj. split; [apply Hquiet; lia | apply Hmiss; lia].
  - exact Hhit.
  - exact Hfuel.
  - cbn [currentNonce set_miningStartTime set_currentNonce set_transactionPool Nat.add]
      in Hrun, Hflag.
    rewrite (Hquiet k (Nat.le_refl k)) in Hflag. cbn [negb] in Hflag.
    pose proof (mineLoop_sameLedger _ _ _ _ _ _ _ Hrun) as (Hc & Hp & Hw & _).
    cbn [blockchain transactionPool wallets set_miningStartTime set_currentNonce
      set_transactionPool] in Hc, Hp, Hw.
    eexists. unfold addBlock, mineBlock. rewrite Hlast. cbv zeta.
    cbn [difficulty set_transactionPool]. rewrite Hrun, Hflag.
    split; [reflexivity|].
    cbn [blockchain wallets transactionPool set_wallets set_blocksMined set_blockchain].
    rewrite Hc, Hp, Hw. repeat split.
Qed.

(** The state that the constructor's [init] leaves is reachable. *)
Lemma init_reachable (random : list (list Z * Z)) (now : Z) :
  reachable (init random now).
Proof.
  unfold init. eapply reachable_step; [|apply step_createGenesisBlock].
  unfold initializeWallets, initialWallets.
  destruct random as [|r1 [|r2 [|r3 rest]]]; cbn [combine fold_left fst snd].
  - apply reachable_new.
  - eapply reachable_step; [apply reachable_new | apply step_createWallet; discriminate].
  - eapply reachable_step; [|apply step_createWallet; discriminate].
    eapply reachable_step; [apply reachable_new | apply step_createWallet; discriminate].
  - eapply reachable_step; [|apply step_createWallet; discriminate].
    eapply reachable_step; [|apply step_createWallet; discriminate].
    eapply reachable_step; [apply reachable_new | apply step_createWallet; discriminate].
Qed.

End Completion.

(** ** The sealed block (C1) and the genesis block (C6) *)

Lemma ready_reachable : reachable (platform := wholeAmounts) ready.
Proof.
  replace ready with
    (set_isMining true (set_difficulty 1
       (createGenesisBlock (platform := wholeAmounts) 1700000000100
          (snd (createWallet bobKey 1700000000002 (Some "Bob") 0
             (snd (createWallet aliceKey 1700000000001 (Some "Alice") 100
                     newSimulator)))))))
    by (vm_compute; reflexivity).
  eapply reachable_step; [|apply step_startMining].
  eapply reachable_step; [|apply step_setDifficulty].
  eapply reachable_step; [|apply step_createGenesisBlock].
  eapply reachable_step; [|apply step_createWallet; discriminate].
  eapply reachable_step; [|apply step_createWallet; discriminate].
  apply reachable_new.
Qed.

Lemma funded_reachable : reachable (platform := wholeAmounts) funded.
Proof.
  replace funded with
    (snd (addTransaction "tx_p0a7c41dblo8zq0ab" 1700000000200 alice bob 30 ready))
    by (vm_compute; reflexivity).
  eapply reachable_step; [apply ready_reachable | apply step_addTransaction].
Qed.

Lemma fundedProduced_run :
  addBlock (platform := wholeAmounts) 64 undisturbed readings funded
  = Some (Some (fst fundedSealed), fundedProduced).
Proof. vm_compute. reflexivity. Qed.

Lemma fundedProduced_reachable : reachable (platform := wholeAmounts) fundedProduced.
Proof.
  apply (reachable_step funded fundedProduced funded_reachable).
  exact (step_addBlock funded 64 undisturbed readings _ _ fundedProduced_run).
Qed.

(** C1.  Whatever the difficulty, a block returned by the sealing loop is the
    input block with the nonce the loop stopped at; its hash is the hex digest
    of the serialization of index, timestamp, transactions, previous hash and
    that nonce; and the digest begins with [difficulty] characters '0'. *)
Theorem mineBlock_returns_sealed {platform : Platform} (fuel : nat) (world : World)
    (now : Z) (block : Block.t) (s : BlockchainSimulator) (b : Block.t)
    (s' : BlockchainSimulator) :
  mineBlock fuel world now block s = Some (Some b, s') ->
  Block.index b = Block.index block
  /\ Block.timestamp b = Block.timestamp block
  /\ Block.transactions b = Block.transactions block
  /\ Block.previousHash b = Block.previousHash block
  /\ Block.nonce b = currentNonce s'
  /\ exists h,
       Block.hash b = Some h
       /\ h = hexOfBytes (SHA256.digest (TextEncoder_encode (serialize b)))
       /\ (exists rest, h = String_repeat "0" (difficulty s) ++ rest)
       /\ forall i, i < difficulty s -> String.get i h = Some "0"%char.
Proof.
  unfold mineBlock. intros H. apply mineLoop_sealed in H.
  cbn [difficulty set_miningStartTime set_currentNonce] in H.
  destruct H as (-> & Hhit & _ & _).
  repeat split. eexists. split; [reflexivity|]. split; [reflexivity|]. split.
  - apply prefix_app. exact Hhit.
  - apply startsWith_zeros. exact Hhit.
Qed.

Lemma mineBlock_returns_sealed_witness :
  mineBlock (platform := wholeAmounts) 64 undisturbed 1700000000500
    fundedCandidate fundedDrained = Some (Some (fst fundedSealed), snd fundedSealed)
  /\ Block.nonce (fst fundedSealed) = 15
  /\ Block.hash (fst fundedSealed)
     = Some "0d15534264cf193c18237d69cda5f79ba2c9a3ff6c514c9d8df2374355ecb86f".
Proof.
  assert (Hrun : mineBlock (platform := wholeAmounts) 64 undisturbed 1700000000500
            fundedCandidate fundedDrained = Some (Some (fst fundedSealed), snd fundedSealed))
    by (vm_compute; reflexivity).
  split; [exact Hrun|].
  destruct (mineBlock_returns_sealed 64 undisturbed 1700000000500 fundedCandidate
              fundedDrained (fst fundedSealed) (snd fundedSealed) Hrun)
    as (_ & _ & _ & _ & Hnonce & h & Hh & Hdigest & _).
  split; [rewrite Hnonce; reflexivity|].
  rewrite Hh, Hdigest. vm_compute. reflexivity.
Defined.

(** C6, as the code has it.  On an empty chain [addBlock] appends a block with
    index 0, previous hash "0", no transactions and nonce 0, whose hash is the
    digest of its serialization at that nonce.  No nonce search is run: the
    result does not depend on the fuel, the world or the mining flag, and
    nothing else in the state changes. *)
Theorem addBlock_genesis {platform : Platform} (fuel : nat) (world : World)
    (r : Readings) (s : BlockchainSimulator) :
  blockchain s = [] ->
  exists g,
    addBlock fuel world r s = Some (None, set_blockchain [g] s)
    /\ Block.index g = 0
    /\ Block.previousHash g = Some "0"
    /\ Block.transactions g = []
    /\ Block.nonce g = 0
    /\ Block.hash g = Some (calculateHash g).
Proof.
  intros Hempty. unfold addBlock, createGenesisBlock. rewrite Hempty. cbn [nth_error List.length Nat.sub app].
  eexists. split; [reflexivity|]. repeat split.
Qed.

Lemma addBlock_genesis_witness :
  exists g,
    addBlock (platform := wholeAmounts) 0 undisturbed readings newSimulator
    = Some (None, set_blockchain [g] newSimulator)
    /\ Block.index g = 0
    /\ Block.previousHash g = Some "0"
    /\ Block.transactions g = []
    /\ Block.nonce g = 0
    /\ Block.hash g = Some (calculateHash (platform := wholeAmounts) g).
Proof.
  apply (addBlock_genesis (platform := wholeAmounts) 0 undisturbed readings newSimulator).
  reflexivity.
Defined.

(** C6 as stated fails: at the default difficulty 3 the genesis block that
    [addBlock] appends to the empty chain of a new simulator carries a hash
    that begins with '7'. *)
Lemma genesis_hash_misses_target :
  exists g s',
    addBlock (platform := wholeAmounts) 64 undisturbed readings newSimulator
    = Some (None, s')
    /\ blockchain s' = [g]
    /\ difficulty s' = 3
    /\ Block.hash g
       = Some "7b079da7f40445f3b240a9f1569e0c48bf3f476af6da68e9bf09f903b33e88f1"
    /\ forall h, Block.hash g = Some h ->
         startsWith h (String_repeat "0" (difficulty s')) = false.
Proof.
  eexists _, _. split; [vm_compute; reflexivity|].
  split; [reflexivity|]. split; [reflexivity|]. split; [vm_compute; reflexivity|].
  intros h [= <-]. vm_compute. reflexivity.
Qed.

(** ** Chain validation (C2) *)

(** What the loop checks of block [cur] against its predecessor [prv]. *)
Lemma validateFrom_cons (target : string) (prv cur : Block.t) (rest : list Block.t) :
  validateFrom target prv (cur :: rest) = Ret true
  <-> (exists h, Block.hash cur = Some h /\ startsWith h target = true)
      /\ Block.previousHash cur = Block.hash prv
      /\ validateFrom target cur rest = Ret true.
Proof.
  cbn [validateFrom]. destruct (Block.hash cur) as [h|].
  - destruct (startsWith h target) eqn:Hhit; cbn [negb].
    + destruct (option_string_eqb (Block.previousHash cur) (Block.hash prv)) eqn:Hlink;
        cbn [negb].
      * apply option_string_eqb_eq in Hlink. split.
        -- intros H. split; [exists h; now split | now split].
        -- now intros (_ & _ & H).
      * split; [discriminate|]. intros (_ & Hl & _).
        apply option_string_eqb_eq in Hl. congruence.
    + split; [discriminate|]. intros ((h' & [= <-] & Hh) & _). congruence.
  - split; [discriminate|]. intros ((h' & Hh & _) & _). discriminate.
Qed.

Lemma validateFrom_pairs (target : string) (rest : list Block.t) :
  forall prv,
    validateFrom target prv rest = Ret true
    <-> forall i cur prev,
          nth_error (prv :: rest) (S i) = Some cur ->
          nth_error (prv :: rest) i = Some prev ->
          (exists h, Block.hash cur = Some h /\ startsWith h target = true)
          /\ Block.previousHash cur = Block.hash prev.
Proof.
  induction rest as [|c rest IH]; intros prv.
  - split; [|reflexivity]. intros _ i cur prev H. destruct i; discriminate.
  - rewrite validateFrom_cons, IH. split.
    + intros (Hh & Hl & Hrest) i cur prev Hcur Hprev. destruct i as [|i].
      * cbn in Hcur, Hprev. injection Hcur as <-. injection Hprev as <-. now split.
      * exact (Hrest i cur prev Hcur Hprev).
    + intros H. destruct (H 0 c prv eq_refl eq_refl) as [Hh Hl].
      split; [exact Hh|]. split; [exact Hl|].
      intros i cur prev Hcur Hprev. exact (H (S i) cur prev Hcur Hprev).
Qed.

(** Only the hash of the predecessor is read. *)
Lemma validateFrom_previous (target : string) (prv prv' : Block.t) (rest : list Block.t) :
  Block.hash prv = Block.hash prv' ->
  validateFrom target prv rest = validateFrom target prv' rest.
Proof. intros H. destruct rest; cbn [validateFrom]; [reflexivity | now rewrite H]. Qed.

Lemma validateFrom_tamper (target : string) (p : option string) (rest : list Block.t) :
  forall prv i cur,
    validateFrom target prv rest = Ret true ->
    nth_error rest i = Some cur ->
    p <> Block.previousHash cur ->
    validateFrom target prv (tamper i p rest) = Ret false.
Proof.
  induction rest as [|c rest IH]; intros prv i cur Hvalid Hcur Hp.
  - destruct i; discriminate.
  - apply validateFrom_cons in Hvalid. destruct Hvalid as ((h & Hh & Hhit) & Hlink & Hrest).
    destruct i as [|i]; cbn [tamper validateFrom].
    + injection Hcur as <-. cbn [Block.hash Block.previousHash Block.set_previousHash].
      rewrite Hh, Hhit. cbn [negb].
      destruct (option_string_eqb p (Block.hash prv)) eqn:E; [|reflexivity].
      apply option_string_eqb_eq in E. congruence.
    + rewrite Hh, Hhit. cbn [negb].
      assert (E : option_string_eqb (Block.previousHash c) (Block.hash prv) = true)
        by now apply option_string_eqb_eq.
      rewrite E. cbn [negb]. eapply IH; eassumption.
Qed.

(** C2, as the code has it.  [validateChain] returns [true] exactly when every
    block at a position [i >= 1] has a hash that starts with the current
    difficulty's zeros and a previous hash equal to the hash of block [i - 1];
    so it returns [true] on chains of 0 or 1 blocks.  On a chain it accepts, a
    write of a different value to the previous hash of a block at a position
    [i >= 1] makes it return [false]; the previous hash of block 0 is never
    read, so a write to it changes nothing.  The result is a function of the
    state alone and no state is written. *)
Theorem validateChain_pairs (s : BlockchainSimulator) :
  (validateChain s = Ret true
   <-> forall i cur prev,
         nth_error (blockchain s) (S i) = Some cur ->
         nth_error (blockchain s) i = Some prev ->
         (exists h, Block.hash cur = Some h
                    /\ startsWith h (String_repeat "0" (difficulty s)) = true)
         /\ Block.previousHash cur = Block.hash prev)
  /\ (List.length (blockchain s) <= 1 -> validateChain s = Ret true)
  /\ (forall i cur p,
        validateChain s = Ret true ->
        nth_error (blockchain s) (S i) = Some cur ->
        p <> Block.previousHash cur ->
        validateChain (set_blockchain (tamper (S i) p (blockchain s)) s) = Ret false)
  /\ (forall p,
        validateChain (set_blockchain (tamper 0 p (blockchain s)) s) = validateChain s).
Proof.
  unfold validateChain. destruct s as [chain pool ws d mr on n hr bm st].
  cbn [blockchain difficulty set_blockchain].
  destruct chain as [|g rest]; (split; [|split; [|split]]).
  - split; [|reflexivity]. intros _ i cur prev H. destruct i; discriminate.
  - reflexivity.
  - intros i cur p _ H. destruct i; discriminate.
  - reflexivity.
  - apply validateFrom_pairs.
  - cbn [List.length]. intros Hlen. destruct rest; [reflexivity | cbn in Hlen; lia].
  - intros i cur p Hvalid Hcur Hp. cbn [tamper]. cbn [nth_error] in Hcur.
    eapply validateFrom_tamper; eassumption.
  - intros p. cbn [tamper]. now apply validateFrom_previous.
Qed.

Lemma validateChain_pairs_witness :
  validateChain fundedProduced = Ret true
  /\ validateChain (set_blockchain (tamper 1 (Some "0") (blockchain fundedProduced))
                      fundedProduced) = Ret false.
Proof.
  destruct (validateChain_pairs fundedProduced)
    as (Hiff & _ & Htamper & _).
  assert (Hvalid : validateChain fundedProduced = Ret true).
  { apply Hiff. intros [|[|i]] cur prev Hcur Hprev; try discriminate.
    injection Hcur as <-. injection Hprev as <-.
    split; [eexists; split; reflexivity | reflexivity]. }
  split; [exact Hvalid|].
  eapply (Htamper 0); [exact Hvalid | reflexivity | discriminate].
Defined.

(** C2 as stated fails: the chain of [fundedProduced] was built by block
    production alone and is accepted; after the previous hash of its block 0
    is changed from "0" to "1" it is still accepted. *)
Lemma validateChain_accepts_tampered_genesis :
  exists g g',
    nth_error (blockchain fundedProduced) 0 = Some g
    /\ nth_error (tamper 0 (Some "1") (blockchain fundedProduced)) 0 = Some g'
    /\ Block.previousHash g = Some "0"
    /\ Block.previousHash g' = Some "1"
    /\ validateChain fundedProduced = Ret true
    /\ validateChain (set_blockchain (tamper 0 (Some "1") (blockchain fundedProduced))
                        fundedProduced) = Ret true.
Proof.
  eexists _, _. repeat split; reflexivity.
Qed.

(** ** Doubles: comparison, the registry, settlement, the invariant *)

Lemma SFcompare_swap (x y : spec_float) :
  SFcompare y x = option_map CompOpp (SFcompare x y).
Proof.
  destruct x as [sx|sx| |sx mx ex], y as [sy|sy| |sy my ey]; cbn;
    try reflexivity; try (destruct sx; reflexivity); try (destruct sy; reflexivity);
    try (destruct sx, sy; reflexivity).
  destruct sx, sy; cbn; try reflexivity;
    rewrite (Z.compare_antisym ex ey); destruct (ex ?= ey)%Z; cbn; try reflexivity;
    change (Pos.compare_cont Eq my mx) with (Pos.compare my mx);
    change (Pos.compare_cont Eq mx my) with (Pos.compare mx my);
    rewrite (Pos.compare_antisym mx my); now destruct (mx ?= my)%positive.
Qed.

(** [x <= y] excludes [y < x], and [x < y] excludes [y <= x]. *)
Lemma Double_leb_ltb (x y : float) : (x <=? y)%float = true -> (y <? x)%float = false.
Proof.
  rewrite leb_spec, ltb_spec. unfold SFleb, SFltb. rewrite (SFcompare_swap (Prim2SF x)).
  destruct (SFcompare (Prim2SF x) (Prim2SF y)) as [[]|]; cbn; congruence.
Qed.

Lemma Double_ltb_leb (x y : float) : (x <? y)%float = true -> (y <=? x)%float = false.
Proof.
  rewrite leb_spec, ltb_spec. unfold SFleb, SFltb. rewrite (SFcompare_swap (Prim2SF x)).
  destruct (SFcompare (Prim2SF x) (Prim2SF y)) as [[]|]; cbn; congruence.
Qed.

(** No number is below NaN, and NaN is not at most any number. *)
Lemma Double_ltb_nan (x : float) : (x <? nan)%float = false.
Proof.
  rewrite ltb_spec. change (Prim2SF nan) with S754_nan. unfold SFltb.
  now destruct (Prim2SF x).
Qed.

Lemma Double_nan_leb (x : float) : (nan <=? x)%float = false.
Proof. rewrite leb_spec. reflexivity. Qed.

Lemma Double_Map_get_keys (k : string) (m : Double.WalletMap) :
  In k (Double.Map_keys m) <-> exists w, Double.Map_get k m = Some w.
Proof.
  induction m as [|[k' w'] m IH]; simpl.
  - split; [tauto | intros [w H]; discriminate].
  - destruct (String.eqb_spec k k') as [->|Hne].
    + split; [intros _; now exists w' | now left].
    + rewrite <- IH. split; [intros [H|H]; [congruence | exact H] | now right].
Qed.

Lemma Double_Map_keys_mutate (k : string) (f : Double.Wallet.t -> Double.Wallet.t)
    (m : Double.WalletMap) :
  Double.Map_keys (Double.Map_mutate k f m) = Double.Map_keys m.
Proof.
  induction m as [|[k' w'] m IH]; simpl; [reflexivity|].
  destruct (String.eqb k k'); simpl; [reflexivity | now rewrite IH].
Qed.

Lemma Double_Map_get_mutate_same (k : string) (f : Double.Wallet.t -> Double.Wallet.t)
    (m : Double.WalletMap) (w : Double.Wallet.t) :
  Double.Map_get k m = Some w -> Double.Map_get k (Double.Map_mutate k f m) = Some (f w).
Proof.
  induction m as [|[k' w'] m IH]; simpl; [discriminate|].
  destruct (String.eqb_spec k k') as [->|Hne]; simpl.
  - rewrite String.eqb_refl. now intros [= ->].
  - destruct (String.eqb_spec k k'); [congruence | exact IH].
Qed.

Lemma Double_Map_get_mutate_other (k a : string) (f : Double.Wallet.t -> Double.Wallet.t)
    (m : Double.WalletMap) :
  a <> k -> Double.Map_get a (Double.Map_mutate k f m) = Double.Map_get a m.
Proof.
  intros Hne. induction m as [|[k' w'] m IH]; simpl; [reflexivity|].
  destruct (String.eqb_spec k k') as [->|Hk]; simpl.
  - destruct (String.eqb_spec a k'); [congruence | reflexivity].
  - destruct (String.eqb_spec a k'); [reflexivity | exact IH].
Qed.

Lemma Double_Map_keys_set (k a : string) (w : Double.Wallet.t) (m : Double.WalletMap) :
  In a (Double.Map_keys (Double.Map_set k w m)) <-> a = k \/ In a (Double.Map_keys m).
Proof.
  induction m as [|[k' w'] m IH]; simpl.
  - intuition congruence.
  - destruct (String.eqb_spec k k') as [->|Hne]; simpl.
    + intuition congruence.
    + rewrite IH. intuition congruence.
Qed.

Lemma Double_balanceOf_mutate_same (k : string) (f : Double.Wallet.t -> Double.Wallet.t)
    (ws : Double.WalletMap) (w : Double.Wallet.t) :
  Double.Map_get k ws = Some w ->
  Double.balanceOf k (Double.Map_mutate k f ws) = Some (Double.Wallet.balance (f w)).
Proof.
  intros H. unfold Double.balanceOf. now rewrite (Double_Map_get_mutate_same _ _ _ _ H).
Qed.

Lemma Double_balanceOf_mutate_other (k a : string) (f : Double.Wallet.t -> Double.Wallet.t)
    (ws : Double.WalletMap) :
  a <> k -> Double.balanceOf a (Double.Map_mutate k f ws) = Double.balanceOf a ws.
Proof. intros H. unfold Double.balanceOf. now rewrite Double_Map_get_mutate_other. Qed.

(** A debit of [from] followed by a credit of [to], by address. *)
Lemma Double_transfer_balances (ws : Double.WalletMap) (from to : string) (amount : float)
    (fromWallet toWallet : Double.Wallet.t) :
  Double.Map_get from ws = Some fromWallet ->
  Double.Map_get to ws = Some toWallet ->
  let after :=
    Double.Map_mutate to
      (fun w => Double.Wallet.set_balance (Double.Wallet.balance w + amount)%float w)
      (Double.Map_mutate from
         (fun w => Double.Wallet.set_balance (Double.Wallet.balance w - amount)%float w) ws) in
  (from <> to ->
     Double.balanceOf from after = Some (Double.Wallet.balance fromWallet - amount)%float
     /\ Double.balanceOf to after = Some (Double.Wallet.balance toWallet + amount)%float)
  /\ (from = to ->
        Double.balanceOf from after
        = Some (Double.Wallet.balance fromWallet - amount + amount)%float)
  /\ forall a, a <> from -> a <> to -> Double.balanceOf a after = Double.balanceOf a ws.
Proof.
  intros Hfrom Hto after. subst after. split; [|split].
  - intros Hne. split.
    + rewrite Double_balanceOf_mutate_other by exact Hne.
      now rewrite (Double_balanceOf_mutate_same _ _ _ _ Hfrom).
    + assert (Hto' : Double.Map_get to (Double.Map_mutate from
               (fun w => Double.Wallet.set_balance (Double.Wallet.balance w - amount)%float w)
               ws) = Some toWallet)
        by (rewrite Double_Map_get_mutate_other by congruence; exact Hto).
      now rewrite (Double_balanceOf_mutate_same _ _ _ _ Hto').
  - intros <-.
    rewrite (Double_balanceOf_mutate_same _ _ _ _
               (Double_Map_get_mutate_same _ _ _ _ Hfrom)).
    reflexivity.
  - intros a Ha Hb. now rewrite !Double_balanceOf_mutate_other.
Qed.

Lemma Double_processTransaction_transfer (ws : Double.WalletMap) (tx : Double.Transaction.t)
    (to : string) (fromWallet toWallet : Double.Wallet.t) :
  Double.Transaction.from tx <> "System" ->
  Double.Transaction.to tx = Some to ->
  Double.Map_get (Double.Transaction.from tx) ws = Some fromWallet ->
  Double.Map_get to ws = Some toWallet ->
  Double.processTransaction ws tx
  = if (Double.Transaction.amount tx <=? Double.Wallet.balance fromWallet)%float
    then Double.Map_mutate to
           (fun w => Double.Wallet.set_balance
                       (Double.Wallet.balance w + Double.Transaction.amount tx)%float w)
           (Double.Map_mutate (Double.Transaction.from tx)
              (fun w => Double.Wallet.set_balance
                          (Double.Wallet.balance w - Double.Transaction.amount tx)%float w) ws)
    else ws.
Proof.
  intros Hsys Hto Hfrom Htw. unfold Double.processTransaction.
  apply String.eqb_neq in Hsys. rewrite Hsys, Hto. cbn [Double.Map_get_opt].
  now rewrite Hfrom, Htw.
Qed.

Lemma Double_processTransaction_keys (ws : Double.WalletMap) (tx : Double.Transaction.t) :
  Double.Map_keys (Double.processTransaction ws tx) = Double.Map_keys ws.
Proof.
  unfold Double.processTransaction.
  destruct (String.eqb (Double.Transaction.from tx) "System").
  - destruct (Double.Transaction.to tx) as [to|]; [|reflexivity].
    destruct (Double.Map_get_opt (Some to) ws); [|reflexivity].
    apply Double_Map_keys_mutate.
  - destruct (Double.Transaction.to tx) as [to|];
      [|destruct (Double.Map_get (Double.Transaction.from tx) ws); reflexivity].
    destruct (Double.Map_get (Double.Transaction.from tx) ws) as [fw|]; [|reflexivity].
    destruct (Double.Map_get_opt (Some to) ws); [|reflexivity].
    destruct (Double.Transaction.amount tx <=? Double.Wallet.balance fw)%float;
      [|reflexivity].
    now rewrite !Double_Map_keys_mutate.
Qed.

Lemma Double_processTransactions_keys (txs : list Double.Transaction.t) :
  forall ws, Double.Map_keys (Double.processTransactions txs ws) = Double.Map_keys ws.
Proof.
  induction txs as [|tx txs IH]; intros ws; [reflexivity|].
  unfold Double.processTransactions in *. cbn [fold_left].
  rewrite IH. apply Double_processTransaction_keys.
Qed.

Lemma Double_accepted_keys (ws ws' : Double.WalletMap) (tx : Double.Transaction.t) :
  (forall a, In a (Double.Map_keys ws) -> In a (Double.Map_keys ws')) ->
  Double.accepted ws tx -> Double.accepted ws' tx.
Proof.
  intros Hsub (Hfrom & to & Hto & Hin).
  split; [now apply Hsub | exists to; split; [exact Hto | now apply Hsub]].
Qed.

Lemma Double_Invariant_step (s s' : Double.Ledger) :
  Double.step s s' -> Double.Invariant s -> Double.Invariant s'.
Proof.
  intros Hstep (Hkeys & Hpool).
  destruct Hstep as [s rd now label bal | s id now from to amount | s sealed r].
  - unfold Double.createWallet; cbn [snd]. split;
      cbn [Double.wallets Double.transactionPool Double.set_wallets].
    + rewrite Forall_forall in *. intros k Hin. apply Double_Map_keys_set in Hin.
      destruct Hin as [->|Hin]; [apply generateAddress_not_System | now apply Hkeys].
    + eapply Forall_impl; [|exact Hpool]. intros tx. apply Double_accepted_keys.
      intros a Ha. apply Double_Map_keys_set. now right.
  - unfold Double.addTransaction.
    destruct (Double.Map_get from (Double.wallets s)) as [fw|] eqn:Hfrom;
      [|now split].
    destruct (Double.Map_get to (Double.wallets s)) as [tw|] eqn:Hto; [|now split].
    destruct (Double.Wallet.balance fw <? amount)%float; [now split|].
    destruct (amount <=? 0)%float; [now split|].
    cbn [snd]. split; cbn [Double.wallets Double.transactionPool Double.set_transactionPool];
      [exact Hkeys|].
    apply Forall_app. split; [exact Hpool|]. constructor; [|constructor].
    split; cbn.
    + apply Double_Map_get_keys. now exists fw.
    + exists to. split; [reflexivity | apply Double_Map_get_keys; now exists tw].
  - unfold Double.addBlock. cbv zeta. destruct sealed;
      split; cbn [Double.wallets Double.transactionPool Double.set_wallets
                  Double.set_transactionPool].
    + now rewrite Double_processTransactions_keys.
    + apply Forall_skipn_of. eapply Forall_impl; [|exact Hpool].
      intros tx. apply Double_accepted_keys. intros a Ha.
      now rewrite Double_processTransactions_keys.
    + exact Hkeys.
    + now apply Forall_skipn_of.
Qed.

Lemma Double_reachable_Invariant (s : Double.Ledger) :
  Double.reachable s -> Double.Invariant s.
Proof.
  induction 1 as [|s s' _ IH Hstep]; [split; constructor|].
  eapply Double_Invariant_step; eassumption.
Qed.

Lemma doubleWallets_reachable (aliceBalance bobBalance : float) :
  Double.reachable (doubleWallets aliceBalance bobBalance).
Proof.
  unfold doubleWallets.
  eapply Double.reachable_step; [|apply Double.step_createWallet].
  eapply Double.reachable_step; [apply Double.reachable_new | apply Double.step_createWallet].
Qed.

Lemma doubleWallets_registry (aliceBalance bobBalance : float) :
  Double.wallets (doubleWallets aliceBalance bobBalance)
  = [(alice, Double.Wallet.Build alice "Alice" aliceBalance 1700000000001);
     (bob, Double.Wallet.Build bob "Bob" bobBalance 1700000000002)].
Proof.
  unfold doubleWallets, Double.createWallet.
  cbn [snd Double.wallets Double.set_wallets Double.newLedger Double.Map_set].
  change (generateAddress aliceKey) with alice. change (generateAddress bobKey) with bob.
  reflexivity.
Qed.

(** ** Balances under settlement (C3, C7, C10) *)

Lemma balanceOf_mutate_same (k : string) (f : Wallet.t -> Wallet.t) (ws : WalletMap)
    (w : Wallet.t) :
  Map_get k ws = Some w ->
  balanceOf k (Map_mutate k f ws) = Some (Wallet.balance (f w)).
Proof. intros H. unfold balanceOf. now rewrite (Map_get_mutate_same _ _ _ _ H). Qed.

Lemma balanceOf_mutate_other (k a : string) (f : Wallet.t -> Wallet.t) (ws : WalletMap) :
  a <> k -> balanceOf a (Map_mutate k f ws) = balanceOf a ws.
Proof. intros H. unfold balanceOf. now rewrite Map_get_mutate_other. Qed.

(** A debit of [from] followed by a credit of [to], by address. *)
Lemma transfer_balances (ws : WalletMap) (from to : string) (amount : Q)
    (fromWallet toWallet : Wallet.t) :
  Map_get from ws = Some fromWallet ->
  Map_get to ws = Some toWallet ->
  let after :=
    Map_mutate to (fun w => Wallet.set_balance (Wallet.balance w + amount) w)
      (Map_mutate from (fun w => Wallet.set_balance (Wallet.balance w - amount) w) ws) in
  (from <> to ->
     balanceOf from after = Some (Wallet.balance fromWallet - amount)%Q
     /\ balanceOf to after = Some (Wallet.balance toWallet + amount)%Q)
  /\ (from = to ->
        balanceOf from after = Some (Wallet.balance fromWallet - amount + amount)%Q)
  /\ forall a, a <> from -> a <> to -> balanceOf a after = balanceOf a ws.
Proof.
  intros Hfrom Hto after. subst after. split; [|split].
  - intros Hne. split.
    + rewrite balanceOf_mutate_other by exact Hne.
      now rewrite (balanceOf_mutate_same _ _ _ _ Hfrom).
    + assert (Hto' : Map_get to (Map_mutate from
               (fun w => Wallet.set_balance (Wallet.balance w - amount) w) ws)
             = Some toWallet)
        by (rewrite Map_get_mutate_other by congruence; exact Hto).
      now rewrite (balanceOf_mutate_same _ _ _ _ Hto').
  - intros <-.
    rewrite (balanceOf_mutate_same _ _ _ _ (Map_get_mutate_same _ _ _ _ Hfrom)).
    reflexivity.
  - intros a Ha Hb. now rewrite !balanceOf_mutate_other.
Qed.

Lemma processTransaction_transfer (ws : WalletMap) (tx : Transaction.t) (to : string)
    (fromWallet toWallet : Wallet.t) :
  Transaction.from tx <> "System" ->
  Transaction.to tx = Some to ->
  Map_get (Transaction.from tx) ws = Some fromWallet ->
  Map_get to ws = Some toWallet ->
  processTransaction ws tx
  = if Qle_bool (Transaction.amount tx) (Wallet.balance fromWallet)
    then Map_mutate to
           (fun w => Wallet.set_balance (Wallet.balance w + Transaction.amount tx) w)
           (Map_mutate (Transaction.from tx)
              (fun w => Wallet.set_balance (Wallet.balance w - Transaction.amount tx) w) ws)
    else ws.
Proof.
  intros Hsys Hto Hfrom Htw. unfold processTransaction.
  apply String.eqb_neq in Hsys. rewrite Hsys, Hto. cbn [Map_get_opt].
  now rewrite Hfrom, Htw.
Qed.

Lemma processTransactions_app (before later : list Transaction.t) (ws : WalletMap) :
  processTransactions (before ++ later) ws
  = processTransactions later (processTransactions before ws).
Proof. unfold processTransactions. apply fold_left_app. Qed.

(** C3, as the code has it (amounts and balances are binary64 values).  A
    settled transfer between two different wallets leaves the recipient's
    balance at the double sum [balance + amount] and the sender's at the
    double difference [balance - amount]; a settled transfer from a wallet to
    itself leaves its balance at [(balance - amount) + amount]; no other
    balance is written.  A produced block settles one reward, before its
    transfers: the balance of the first wallet of the registry becomes the
    double sum [balance + miningReward], and nothing is credited when the
    registry is empty; the transfers that follow are not rewards; a cancelled
    production settles nothing. *)
Theorem settlement_moves_balances :
  (forall ws tx to fromWallet toWallet,
     Double.Transaction.from tx <> "System" ->
     Double.Transaction.to tx = Some to ->
     Double.Map_get (Double.Transaction.from tx) ws = Some fromWallet ->
     Double.Map_get to ws = Some toWallet ->
     (Double.Transaction.amount tx <=? Double.Wallet.balance fromWallet)%float = true ->
     let after := Double.processTransaction ws tx in
     (Double.Transaction.from tx <> to ->
        Double.balanceOf to after
        = Some (Double.Wallet.balance toWallet + Double.Transaction.amount tx)%float
        /\ Double.balanceOf (Double.Transaction.from tx) after
           = Some (Double.Wallet.balance fromWallet - Double.Transaction.amount tx)%float)
     /\ (Double.Transaction.from tx = to ->
           Double.balanceOf to after
           = Some (Double.Wallet.balance fromWallet - Double.Transaction.amount tx
                   + Double.Transaction.amount tx)%float)
     /\ (forall a, a <> Double.Transaction.from tx -> a <> to ->
           Double.balanceOf a after = Double.balanceOf a ws))
  /\ (forall r s,
        Double.wallets (Double.addBlock true r s)
        = Double.processTransactions (firstn 10 (Double.transactionPool s))
            match Double.wallets s with
            | [] => []
            | (miner, w) :: rest =>
                (miner, Double.Wallet.set_balance
                          (Double.Wallet.balance w + Double.miningReward s)%float w) :: rest
            end)
  /\ (forall s tx,
        Double.reachable s -> In tx (firstn 10 (Double.transactionPool s)) ->
        Double.Transaction.from tx <> "System")
  /\ (forall r s, Double.wallets (Double.addBlock false r s) = Double.wallets s).
Proof.
  split; [|split; [|split]].
  - intros ws tx to fw tw Hsys Hto Hfw Htw Hle after. subst after.
    rewrite (Double_processTransaction_transfer _ _ _ _ _ Hsys Hto Hfw Htw), Hle.
    destruct (Double_transfer_balances ws _ _ (Double.Transaction.amount tx) _ _ Hfw Htw)
      as (Hdiff & Hsame & Hother).
    split; [|split].
    + intros Hne. destruct (Hdiff Hne) as [Hf Ht]. split; [exact Ht | exact Hf].
    + intros Heq. subst to. exact (Hsame eq_refl).
    + exact Hother.
  - intros r s. unfold Double.addBlock, Double.batch, Double.processTransactions.
    cbn [Double.wallets Double.set_wallets Double.set_transactionPool fold_left].
    f_equal. unfold Double.processTransaction, Double.rewardTransaction.
    cbn [Double.Transaction.from Double.Transaction.to Double.Transaction.amount
         Double.Transaction.new].
    rewrite String.eqb_refl.
    destruct (Double.wallets s) as [|[miner w] rest];
      cbn [Double.Map_keys map nth_error fst Double.Map_get_opt Double.Map_get
           Double.Map_mutate]; [reflexivity|].
    now rewrite String.eqb_refl.
  - intros s tx Hreach Hin. apply Double_reachable_Invariant in Hreach.
    destruct Hreach as [Hkeys Hpool]. apply In_firstn_of in Hin.
    rewrite Forall_forall in Hkeys, Hpool. apply Hkeys. now apply Hpool.
  - intros r s. reflexivity.
Qed.

Lemma settlement_moves_balances_witness :
  Double.balanceOf alice (Double.wallets (Double.addBlock true readings doubleFunded))
  = Some 80%float
  /\ Double.balanceOf bob (Double.wallets (Double.addBlock true readings doubleFunded))
     = Some 30%float.
Proof.
  destruct settlement_moves_balances as (Htransfer & Hblock & _).
  rewrite (Hblock readings doubleFunded).
  destruct (Htransfer
              [(alice, Double.Wallet.Build alice "Alice" 110 1700000000001);
               (bob, Double.Wallet.Build bob "Bob" 0 1700000000002)]
              (Double.Transaction.new "tx_p0a7c41dblo8zq0ab" 1700000000200 alice
                 (Some bob) 30)
              bob
              (Double.Wallet.Build alice "Alice" 110 1700000000001)
              (Double.Wallet.Build bob "Bob" 0 1700000000002))
    as (Hdiff & _).
  - vm_compute. discriminate.
  - reflexivity.
  - vm_compute. reflexivity.
  - vm_compute. reflexivity.
  - vm_compute. reflexivity.
  - destruct Hdiff as [Hbob Halice]; [vm_compute; discriminate|].
    split; [vm_compute in Halice |- *; exact Halice | vm_compute in Hbob |- *; exact Hbob].
Defined.

(** C3 as stated fails, in three ways.  Alice holds 0.3 and Bob 0.7; a
    transfer of 0.1 is settled, and Bob's balance is then 0.7999999999999999:
    as exact numbers it has not risen by the amount, and the two balances
    together are not what they were.  A transfer of 30 from Alice, who holds
    100, to herself is settled and leaves her, the recipient, with 100.  And
    on an empty registry the reward of a produced block is credited to
    nobody. *)
Lemma settlement_does_not_conserve :
  (let ws := Double.wallets (doubleWallets 0.3 0.7) in
   let tx := Double.Transaction.new "tx_7f3k2m9qxlo8zq2cd" 1700000000300 alice (Some bob)
               0.1 in
   let after := Double.processTransaction ws tx in
   Double.Transaction.from tx <> "System"
   /\ Double.balanceOf alice ws = Some 0.3%float
   /\ Double.balanceOf bob ws = Some 0.7%float
   /\ (Double.Transaction.amount tx <=? 0.3)%float = true
   /\ Double.balanceOf bob after = Some 0.7999999999999999%float
   /\ Double.balanceOf alice after = Some 0.19999999999999998%float
   /\ (exists amount bobBefore bobAfter aliceBefore aliceAfter,
         Number_value 0.1 = Some amount
         /\ Number_value 0.7 = Some bobBefore
         /\ Number_value 0.7999999999999999 = Some bobAfter
         /\ Number_value 0.3 = Some aliceBefore
         /\ Number_value 0.19999999999999998 = Some aliceAfter
         /\ ~ (bobAfter - bobBefore == amount)%Q
         /\ ~ (aliceAfter + bobAfter == aliceBefore + bobBefore)%Q))
  /\ (let ws := Double.wallets (doubleWallets 100 0) in
      let tx := Double.Transaction.new "tx_7f3k2m9qxlo8zq2cd" 1700000000300 alice
                  (Some alice) 30 in
      Double.Transaction.from tx <> "System"
      /\ Double.balanceOf alice ws = Some 100%float
      /\ (Double.Transaction.amount tx <=? 100)%float = true
      /\ Double.balanceOf alice (Double.processTransaction ws tx) = Some 100%float
      /\ (100 =? 100 + 30)%float = false)
  /\ Double.wallets (Double.addBlock true readings Double.newLedger) = [].
Proof.
  split; [|split].
  - cbv zeta. rewrite doubleWallets_registry.
    split; [vm_compute; discriminate|].
    split; [vm_compute; reflexivity|]. split; [vm_compute; reflexivity|].
    split; [vm_compute; reflexivity|]. split; [vm_compute; reflexivity|].
    split; [vm_compute; reflexivity|].
    eexists _, _, _, _, _.
    split; [vm_compute; reflexivity|]. split; [vm_compute; reflexivity|].
    split; [vm_compute; reflexivity|]. split; [vm_compute; reflexivity|].
    split; [vm_compute; reflexivity|].
    split; intros H; vm_compute in H; discriminate.
  - cbv zeta. rewrite doubleWallets_registry.
    split; [vm_compute; discriminate|].
    split; [vm_compute; reflexivity|]. split; [reflexivity|].
    split; [vm_compute; reflexivity | reflexivity].
  - reflexivity.
Qed.

(** C7.  In a reachable state, take any transaction [tx] of the batch that
    [addBlock] settles, and let [ws] be the registry after the transactions
    before it have been settled, in order.  If [tx] comes from "System", the
    recipient is credited with the amount whatever the balances are, and a
    recipient missing from the registry leaves it untouched.  Otherwise sender
    and recipient are registered; if the sender's balance in [ws] covers the
    amount, the sender is debited and the recipient credited in one step, and
    if it does not, the registry stays as it is.  Settlement is a total
    function: no case raises an error. *)
Theorem settlement_cases {platform : Platform} (s : BlockchainSimulator) (r : Readings)
    (before later : list Transaction.t) (tx : Transaction.t) :
  reachable s ->
  batch r s = (before ++ tx :: later)%list ->
  let ws := processTransactions before (wallets s) in
  let amount := Transaction.amount tx in
  processTransactions (batch r s) (wallets s)
  = processTransactions later (processTransaction ws tx)
  /\ (Transaction.from tx = "System" ->
        match Map_get_opt (Transaction.to tx) ws with
        | Some w =>
            exists to, Transaction.to tx = Some to
              /\ balanceOf to (processTransaction ws tx) = Some (Wallet.balance w + amount)%Q
              /\ forall a, a <> to -> balanceOf a (processTransaction ws tx) = balanceOf a ws
        | None => processTransaction ws tx = ws
        end)
  /\ (Transaction.from tx <> "System" ->
        exists to fromWallet toWallet,
          Transaction.to tx = Some to
          /\ Map_get (Transaction.from tx) ws = Some fromWallet
          /\ Map_get to ws = Some toWallet
          /\ ((amount <= Wallet.balance fromWallet)%Q ->
                processTransaction ws tx
                = Map_mutate to (fun w => Wallet.set_balance (Wallet.balance w + amount) w)
                    (Map_mutate (Transaction.from tx)
                       (fun w => Wallet.set_balance (Wallet.balance w - amount) w) ws)
                /\ (Transaction.from tx <> to ->
                      balanceOf (Transaction.from tx) (processTransaction ws tx)
                        = Some (Wallet.balance fromWallet - amount)%Q
                      /\ balanceOf to (processTransaction ws tx)
                         = Some (Wallet.balance toWallet + amount)%Q)
                /\ (forall a, a <> Transaction.from tx -> a <> to ->
                      balanceOf a (processTransaction ws tx) = balanceOf a ws))
          /\ ((Wallet.balance fromWallet < amount)%Q -> processTransaction ws tx = ws)).
Proof.
  intros Hreach Hbatch ws amount. split; [|split].
  - rewrite Hbatch, processTransactions_app. reflexivity.
  - intros Hsys. unfold processTransaction. rewrite Hsys, String.eqb_refl.
    destruct (Transaction.to tx) as [to|]; [|reflexivity]. cbn [Map_get_opt].
    destruct (Map_get to ws) as [w|] eqn:Hw; [|reflexivity].
    exists to. split; [reflexivity|]. split.
    + now rewrite (balanceOf_mutate_same _ _ _ _ Hw).
    + intros a Ha. now apply balanceOf_mutate_other.
  - intros Hsys.
    apply reachable_Invariant in Hreach. destruct Hreach as (_ & _ & Hpool & _).
    assert (Hin : In tx (batch r s)) by (rewrite Hbatch; apply in_elt).
    destruct Hin as [<-|Hin]; [now contradiction Hsys|].
    apply In_firstn_of in Hin. rewrite Forall_forall in Hpool.
    destruct (Hpool tx Hin) as (_ & Hfrom & to & Hto & Hreg).
    assert (Hkeys : Map_keys ws = Map_keys (wallets s))
      by apply processTransactions_keys.
    rewrite <- Hkeys in Hfrom, Hreg.
    apply Map_get_keys in Hfrom. destruct Hfrom as [fw Hfw].
    apply Map_get_keys in Hreg. destruct Hreg as [tw Htw].
    exists to, fw, tw. split; [exact Hto|]. split; [exact Hfw|]. split; [exact Htw|].
    rewrite (processTransaction_transfer _ _ _ _ _ Hsys Hto Hfw Htw). split.
    + intros Hle. apply Qle_bool_iff in Hle. fold amount. rewrite Hle.
      split; [reflexivity|].
      destruct (transfer_balances ws _ _ amount _ _ Hfw Htw) as (Hdiff & _ & Hother).
      split; [exact Hdiff | exact Hother].
    + intros Hlt. apply Qle_bool_false in Hlt. fold amount. now rewrite Hlt.
Qed.

Lemma settlement_cases_witness :
  processTransactions (batch readings funded) (wallets funded)
  = processTransactions []
      (processTransaction
         (processTransactions [rewardTransaction readings funded] (wallets funded))
         (nth 0 (transactionPool funded) (rewardTransaction readings funded)))
  /\ balanceOf bob (wallets fundedProduced) = Some 30%Q.
Proof.
  destruct (settlement_cases (platform := wholeAmounts) funded readings
              [rewardTransaction readings funded] []
              (nth 0 (transactionPool funded) (rewardTransaction readings funded))
              funded_reachable eq_refl)
    as (Horder & _ & Htransfer).
  split; [exact Horder|].
  destruct Htransfer as (to & fw & tw & Hto & Hfw & Htw & Hpaid & _).
  - vm_compute. discriminate.
  - injection Hto as <-.
    vm_compute in Hfw. injection Hfw as <-. vm_compute in Htw. injection Htw as <-.
    destruct Hpaid as (_ & Hdiff & _); [vm_compute; discriminate|].
    destruct Hdiff as [_ Hbob]; [vm_compute; discriminate|].
    vm_compute in Hbob. vm_compute. exact Hbob.
Defined.

(** C10, as the code has it (amounts and balances are binary64 values).  In a
    reachable state a transfer of an amount above 0 and within its balance
    from a registered wallet to itself is accepted to the tail of the pool.
    Settling it, on the registry then or on any later registry in which the
    wallet is registered, writes the wallet's balance twice and leaves it at
    [(balance - amount) + amount] when the balance covers the amount, and
    untouched otherwise. *)
Theorem self_transfer_settles (s : Double.Ledger) (id : string) (now : Z) (w : string)
    (amount : float) (wallet : Double.Wallet.t) :
  Double.reachable s ->
  Double.Map_get w (Double.wallets s) = Some wallet ->
  (0 <? amount)%float = true ->
  (amount <=? Double.Wallet.balance wallet)%float = true ->
  let tx := Double.Transaction.new id now w (Some w) amount in
  Double.addTransaction id now w w amount s
  = (Ret tx, Double.set_transactionPool (Double.transactionPool s ++ [tx]) s)
  /\ forall ws wallet',
       Double.Map_get w ws = Some wallet' ->
       Double.balanceOf w (Double.processTransaction ws tx)
       = Some (if (amount <=? Double.Wallet.balance wallet')%float
               then (Double.Wallet.balance wallet' - amount + amount)%float
               else Double.Wallet.balance wallet').
Proof.
  intros Hreach Hw Hpos Hle tx. split.
  - unfold Double.addTransaction. rewrite Hw.
    now rewrite (Double_leb_ltb _ _ Hle), (Double_ltb_leb _ _ Hpos).
  - intros ws wallet' Hw'.
    apply Double_reachable_Invariant in Hreach. destruct Hreach as (Hkeys & _).
    assert (Hsys : Double.Transaction.from tx <> "System").
    { rewrite Forall_forall in Hkeys. apply Hkeys. apply Double_Map_get_keys.
      now exists wallet. }
    rewrite (Double_processTransaction_transfer ws tx w wallet' wallet' Hsys eq_refl Hw' Hw').
    cbn [Double.Transaction.amount Double.Transaction.from tx Double.Transaction.new].
    destruct (amount <=? Double.Wallet.balance wallet')%float.
    + destruct (Double_transfer_balances ws w w amount _ _ Hw' Hw') as (_ & Hsame & _).
      exact (Hsame eq_refl).
    + unfold Double.balanceOf. now rewrite Hw'.
Qed.

Lemma self_transfer_settles_witness :
  fst (Double.addTransaction "tx_7f3k2m9qxlo8zq2cd" 1700000000300 alice alice 30
         (doubleWallets 100 0))
  = Ret (Double.Transaction.new "tx_7f3k2m9qxlo8zq2cd" 1700000000300 alice (Some alice) 30)
  /\ Double.balanceOf alice
       (Double.processTransaction (Double.wallets (doubleWallets 100 0))
          (Double.Transaction.new "tx_7f3k2m9qxlo8zq2cd" 1700000000300 alice (Some alice) 30))
     = Some 100%float.
Proof.
  destruct (self_transfer_settles (doubleWallets 100 0) "tx_7f3k2m9qxlo8zq2cd"
              1700000000300 alice 30
              (Double.Wallet.Build alice "Alice" 100 1700000000001)
              (doubleWallets_reachable 100 0))
    as [Hpooled Hsettle].
  - rewrite doubleWallets_registry. vm_compute. reflexivity.
  - reflexivity.
  - reflexivity.
  - split; [rewrite Hpooled; reflexivity|].
    rewrite (Hsettle (Double.wallets (doubleWallets 100 0))
               (Double.Wallet.Build alice "Alice" 100 1700000000001)).
    + reflexivity.
    + rewrite doubleWallets_registry. vm_compute. reflexivity.
Defined.

(** C10 as stated fails.  Alice holds 0.3; her transfer of 0.03 to herself is
    accepted, and settling it leaves her balance at 0.30000000000000004, which
    is not the balance she had. *)
Lemma self_transfer_changes_balance :
  let s := doubleWallets 0.3 0.7 in
  let tx := Double.Transaction.new "tx_7f3k2m9qxlo8zq2cd" 1700000000300 alice (Some alice)
              0.03 in
  Double.balanceOf alice (Double.wallets s) = Some 0.3%float
  /\ (0 <? 0.03)%float = true
  /\ (0.03 <=? 0.3)%float = true
  /\ fst (Double.addTransaction "tx_7f3k2m9qxlo8zq2cd" 1700000000300 alice alice 0.03 s)
     = Ret tx
  /\ Double.balanceOf alice (Double.processTransaction (Double.wallets s) tx)
     = Some 0.30000000000000004%float
  /\ (0.30000000000000004 =? 0.3)%float = false
  /\ exists before after,
       Number_value 0.3 = Some before
       /\ Number_value 0.30000000000000004 = Some after
       /\ (before < after)%Q.
Proof.
  cbv zeta. rewrite doubleWallets_registry.
  split; [vm_compute; reflexivity|]. split; [reflexivity|]. split; [reflexivity|].
  split; [vm_compute; reflexivity|]. split; [vm_compute; reflexivity|].
  split; [reflexivity|].
  eexists _, _. split; [vm_compute; reflexivity|]. split; [vm_compute; reflexivity|].
  reflexivity.
Qed.

(** ** Pool admission (C4) *)

(** C4.  For every [from], [to] and [amount], in every state: the call throws
    'Invalid wallet address' when [from] or [to] is not registered; with both
    registered it throws 'Amount must be positive' when [amount <= 0] (the
    sender's balance being non-negative, as every balance is) and
    'Insufficient balance' when the sender's balance is below [amount];
    whenever it throws, the state it leaves is the state it was given; and
    when the three checks pass, the new transaction is returned and is the
    last element of the pool, nothing else having changed. *)
Theorem addTransaction_admission (id : string) (now : Z) (from to : string)
    (amount : Q) (s : BlockchainSimulator) :
  let result := addTransaction id now from to amount s in
  (Map_get from (wallets s) = None \/ Map_get to (wallets s) = None ->
     result = (Throw UnknownWallet, s))
  /\ (forall fromWallet toWallet,
        Map_get from (wallets s) = Some fromWallet ->
        Map_get to (wallets s) = Some toWallet ->
        ((amount <= 0)%Q -> (0 <= Wallet.balance fromWallet)%Q ->
           result = (Throw InvalidAmount, s))
        /\ ((Wallet.balance fromWallet < amount)%Q ->
              result = (Throw InsufficientBalance, s))
        /\ ((0 < amount)%Q -> (amount <= Wallet.balance fromWallet)%Q ->
              let tx := Transaction.new id now from (Some to) amount in
              result = (Ret tx, set_transactionPool (transactionPool s ++ [tx]) s)))
  /\ (forall e, fst result = Throw e -> snd result = s).
Proof.
  intros result. subst result. unfold addTransaction. split; [|split].
  - intros [H|H]; rewrite H; [reflexivity|].
    destruct (Map_get from (wallets s)); reflexivity.
  - intros fw tw Hfw Htw. rewrite Hfw, Htw. split; [|split].
    + intros Hle Hnn.
      assert (E1 : Qltb (Wallet.balance fw) amount = false) by (apply Qltb_false; lra).
      assert (E2 : Qle_bool amount 0 = true) by now apply Qle_bool_iff.
      now rewrite E1, E2.
    + intros Hlt. apply Qltb_true in Hlt. now rewrite Hlt.
    + intros Hpos Hle.
      assert (E1 : Qltb (Wallet.balance fw) amount = false) by now apply Qltb_false.
      assert (E2 : Qle_bool amount 0 = false) by now apply Qle_bool_false.
      now rewrite E1, E2.
  - intros e.
    destruct (Map_get from (wallets s)) as [fw|]; [|reflexivity].
    destruct (Map_get to (wallets s)) as [tw|]; [|reflexivity].
    destruct (Qltb (Wallet.balance fw) amount); [reflexivity|].
    destruct (Qle_bool amount 0); [reflexivity | discriminate].
Qed.

Lemma addTransaction_admission_witness :
  addTransaction "tx_p0a7c41dblo8zq0ab" 1700000000200 alice bob 30 ready
  = (Ret (Transaction.new "tx_p0a7c41dblo8zq0ab" 1700000000200 alice (Some bob) 30),
     funded)
  /\ addTransaction "tx_p0a7c41dblo8zq0ab" 1700000000200 alice bob 0 ready
     = (Throw InvalidAmount, ready)
  /\ addTransaction "tx_p0a7c41dblo8zq0ab" 1700000000200 alice bob 101 ready
     = (Throw InsufficientBalance, ready)
  /\ addTransaction "tx_p0a7c41dblo8zq0ab" 1700000000200 alice "bc1qnobody" 30 ready
     = (Throw UnknownWallet, ready).
Proof.
  split; [|split; [|split]].
  - destruct (addTransaction_admission "tx_p0a7c41dblo8zq0ab" 1700000000200 alice bob
                30 ready) as (_ & Hknown & _).
    destruct (Hknown (Wallet.Build alice "Alice" 100 1700000000001)
                (Wallet.Build bob "Bob" 0 1700000000002) eq_refl eq_refl)
      as (_ & _ & Hok).
    exact (Hok eq_refl ltac:(discriminate)).
  - destruct (addTransaction_admission "tx_p0a7c41dblo8zq0ab" 1700000000200 alice bob
                0 ready) as (_ & Hknown & _).
    destruct (Hknown (Wallet.Build alice "Alice" 100 1700000000001)
                (Wallet.Build bob "Bob" 0 1700000000002) eq_refl eq_refl)
      as (Hbad & _).
    exact (Hbad ltac:(discriminate) ltac:(discriminate)).
  - destruct (addTransaction_admission "tx_p0a7c41dblo8zq0ab" 1700000000200 alice bob
                101 ready) as (_ & Hknown & _).
    destruct (Hknown (Wallet.Build alice "Alice" 100 1700000000001)
                (Wallet.Build bob "Bob" 0 1700000000002) eq_refl eq_refl)
      as (_ & Hshort & _).
    exact (Hshort eq_refl).
  - destruct (addTransaction_admission "tx_p0a7c41dblo8zq0ab" 1700000000200 alice
                "bc1qnobody" 30 ready) as (Hunknown & _).
    apply Hunknown. right. reflexivity.
Defined.

(** The code tests the balance before the amount; the order shows only when
    the sender's balance is negative. *)
Lemma addTransaction_checks_balance_first (id : string) (now : Z) (from to : string)
    (amount : Q) (s : BlockchainSimulator) (fromWallet toWallet : Wallet.t) :
  Map_get from (wallets s) = Some fromWallet ->
  Map_get to (wallets s) = Some toWallet ->
  (Wallet.balance fromWallet < amount)%Q ->
  addTransaction id now from to amount s = (Throw InsufficientBalance, s).
Proof.
  intros Hfw Htw Hlt. unfold addTransaction. rewrite Hfw, Htw.
  apply Qltb_true in Hlt. now rewrite Hlt.
Qed.

(** ** Block production (C5) and cancellation (C8) *)

Lemma reachable_miningReward {platform : Platform} (s : BlockchainSimulator) :
  reachable s -> miningReward s = 10%Q.
Proof. intros H. apply reachable_Invariant in H. now destruct H as (_ & _ & _ & H & _). Qed.

(** C5.  On a chain whose last block is [previousBlock], a call of [addBlock]
    that is not stopped before the first attempt [k] whose digest meets the
    target returns a block and appends it to the chain.  Every block that
    [addBlock] returns there has index [previousBlock.index + 1] and previous
    hash [previousBlock.hash], and its transactions are one reward (from
    "System", to the first key of the registry, of amount [miningReward],
    which is 10 in every reachable state) followed by the first 10
    transactions of the pool in order, or by all of them when the pool holds
    fewer.  Whatever the call returns, those transactions have left the pool,
    and draining a pool of fewer than 10 raises no error. *)
Theorem addBlock_production {platform : Platform} (fuel : nat) (world : World)
    (r : Readings) (s : BlockchainSimulator) (previousBlock : Block.t) :
  nth_error (blockchain s) (List.length (blockchain s) - 1) = Some previousBlock ->
  let drained := firstn 10 (transactionPool s) in
  let built (b : Block.t) (s' : BlockchainSimulator) :=
    Block.index b = Block.index previousBlock + 1
    /\ Block.previousHash b = Block.hash previousBlock
    /\ (exists reward,
          Block.transactions b = reward :: drained
          /\ Transaction.from reward = "System"
          /\ Transaction.to reward = nth_error (Map_keys (wallets s)) 0
          /\ Transaction.amount reward = miningReward s
          /\ (reachable s -> Transaction.amount reward = 10%Q))
    /\ blockchain s' = (blockchain s ++ [b])%list in
  (forall k,
     isMining s = true ->
     (forall j, j <= k -> stopDuring world j = false) ->
     (forall j, j < k ->
        sealsAt (candidateBlock r s previousBlock) (difficulty s) j = false) ->
     sealsAt (candidateBlock r s previousBlock) (difficulty s) k = true ->
     k < fuel ->
     exists b s',
       addBlock fuel world r s = Some (Some b, s')
       /\ Block.nonce b = k
       /\ built b s')
  /\ (forall result s',
        addBlock fuel world r s = Some (result, s') ->
        transactionPool s' = skipn 10 (transactionPool s)
        /\ (drained ++ transactionPool s' = transactionPool s)%list
        /\ List.length drained = Nat.min 10 (List.length (transactionPool s))
        /\ (List.length (transactionPool s) <= 10 ->
              drained = transactionPool s /\ transactionPool s' = [])
        /\ forall b, result = Some b -> built b s').
Proof.
  intros Hlast drained built.
  assert (Hbuilt : forall b s', addBlock fuel world r s = Some (Some b, s') -> built b s').
  { intros b s' Hadd. apply addBlock_produced in Hadd.
    inversion Hadd as [| previousBlock' b' s1 Hlast' Hmine Hon |]; subst.
    rewrite Hlast in Hlast'. injection Hlast' as <-.
    pose proof (mineBlock_sameLedger _ _ _ _ _ _ _ Hmine) as (Hc & _).
    cbn [blockchain set_transactionPool] in Hc.
    unfold mineBlock in Hmine. apply mineLoop_sealed in Hmine. destruct Hmine as (-> & _).
    unfold built. cbn [blockchain set_wallets set_blocksMined set_blockchain]. rewrite Hc.
    split; [reflexivity|]. split; [reflexivity|]. split; [|reflexivity].
    exists (rewardTransaction r s). split; [reflexivity|]. split; [reflexivity|].
    split; [reflexivity|]. split; [reflexivity | apply reachable_miningReward]. }
  split.
  - intros k Hon Hquiet Hmiss Hhit Hfuel.
    destruct (addBlock_succeeds fuel world r s previousBlock k Hlast Hon Hquiet Hmiss
                Hhit Hfuel) as (s' & Hadd & _).
    eexists _, s'. split; [exact Hadd|]. split; [reflexivity|]. exact (Hbuilt _ _ Hadd).
  - intros result s' Hadd.
    assert (Hpool : transactionPool s' = skipn 10 (transactionPool s)).
    { pose proof (addBlock_produced _ _ _ _ _ _ Hadd) as Hprod.
      destruct Hprod as [Hempty | previousBlock' b s1 _ Hmine _
                        | previousBlock' mined s1 _ Hmine _].
      - rewrite Hempty in Hlast. discriminate.
      - now pose proof (mineBlock_sameLedger _ _ _ _ _ _ _ Hmine) as (_ & Hp & _).
      - now pose proof (mineBlock_sameLedger _ _ _ _ _ _ _ Hmine) as (_ & Hp & _). }
    split; [exact Hpool|]. split; [rewrite Hpool; apply firstn_skipn|].
    split; [apply length_firstn|]. split.
    + intros Hlen. split; [now apply firstn_all2|].
      rewrite Hpool. now apply skipn_all2.
    + intros b ->. exact (Hbuilt _ _ Hadd).
Qed.

Lemma addBlock_production_witness :
  exists b s',
    addBlock (platform := wholeAmounts) 64 undisturbed readings funded = Some (Some b, s')
    /\ Block.nonce b = 15
    /\ Block.index b = 1
    /\ List.length (Block.transactions b) = 2
    /\ List.length (blockchain s') = 2
    /\ transactionPool s' = [].
Proof.
  destruct (addBlock_production (platform := wholeAmounts) 64 undisturbed readings funded
              (nth 0 (blockchain funded) emptyBlock) eq_refl)
    as (Hruns & Hdrain).
  destruct (Hruns 15) as (b & s' & Hadd & Hnonce & Hindex & _ & (reward & Htxs & _) & Hchain).
  - reflexivity.
  - reflexivity.
  - intros j Hj. do 15 (destruct j as [|j]; [vm_compute; reflexivity|]). lia.
  - vm_compute. reflexivity.
  - lia.
  - destruct (Hdrain _ _ Hadd) as (_ & _ & _ & Hall & _).
    exists b, s'. split; [exact Hadd|]. split; [exact Hnonce|].
    split; [rewrite Hindex; reflexivity|]. split; [rewrite Htxs; reflexivity|].
    split; [rewrite Hchain, length_app; reflexivity|].
    apply Hall. vm_compute. lia.
Defined.

(** C8.  On a non-empty chain, if the flag is already down, or a stop request
    arrives during some attempt [k] while no earlier attempt has met the
    target, then [addBlock] returns no block: the chain, every wallet and the
    count of mined blocks are as before, and the pool has lost the
    transactions that were drained for the candidate. *)
Theorem addBlock_cancelled {platform : Platform} (fuel : nat) (world : World) (r : Readings)
    (s : BlockchainSimulator) (previousBlock : Block.t) (k : nat) :
  nth_error (blockchain s) (List.length (blockchain s) - 1) = Some previousBlock ->
  isMining s = false
  \/ (stopDuring world k = true
      /\ forall j, j < k ->
           sealsAt (candidateBlock r s previousBlock) (difficulty s) j = false) ->
  k + 2 <= fuel ->
  exists s',
    addBlock fuel world r s = Some (None, s')
    /\ blockchain s' = blockchain s
    /\ wallets s' = wallets s
    /\ blocksMined s' = blocksMined s
    /\ transactionPool s' = skipn 10 (transactionPool s)
    /\ (firstn 10 (transactionPool s) ++ transactionPool s' = transactionPool s)%list.
Proof.
  intros Hlast Hstop Hfuel.
  assert (Hrun : exists result s1,
            mineBlock fuel world (startTime r) (candidateBlock r s previousBlock)
              (set_transactionPool (skipn 10 (transactionPool s)) s)
            = Some (result, s1) /\ isMining s1 = false).
  { unfold mineBlock. destruct Hstop as [Hoff | [Hk Hmiss]].
    - destruct fuel as [|fuel]; [lia|]. rewrite mineLoop_step.
      cbn [isMining set_miningStartTime set_currentNonce set_transactionPool].
      rewrite Hoff. eexists _, _. split; [reflexivity | exact Hoff].
    - apply (mineLoop_stopped world _ _ k); cbn [currentNonce set_miningStartTime
        set_currentNonce set_transactionPool difficulty].
      + exact Hk.
      + intros j Hj. apply Hmiss. lia.
      + exact Hfuel. }
  destruct Hrun as (result & s1 & Hmine & Hoff).
  pose proof (mineBlock_sameLedger _ _ _ _ _ _ _ Hmine) as (Hc & Hp & Hw & _ & _ & Hb).
  cbn [blockchain transactionPool wallets blocksMined set_transactionPool] in Hc, Hp, Hw, Hb.
  exists s1. unfold addBlock. rewrite Hlast. cbv zeta. rewrite Hmine, Hoff.
  split; [destruct result; reflexivity|].
  rewrite Hc, Hp, Hw, Hb. repeat split. apply firstn_skipn.
Qed.

Lemma addBlock_cancelled_witness :
  exists s',
    addBlock (platform := wholeAmounts) 64 (stoppedAt 3) readings funded = Some (None, s')
    /\ blockchain s' = blockchain funded
    /\ wallets s' = wallets funded
    /\ blocksMined s' = blocksMined funded
    /\ transactionPool s' = []
    /\ transactionPool funded <> [].
Proof.
  destruct (addBlock_cancelled (platform := wholeAmounts) 64 (stoppedAt 3) readings funded
              (nth 0 (blockchain funded) emptyBlock) 3)
    as (s' & Hrun & Hchain & Hws & Hmined & Hpool & _).
  - reflexivity.
  - right. split; [reflexivity|].
    intros j Hj. do 3 (destruct j as [|j]; [vm_compute; reflexivity|]). lia.
  - lia.
  - exists s'. split; [exact Hrun|]. split; [exact Hchain|]. split; [exact Hws|].
    split; [exact Hmined|]. split; [rewrite Hpool; reflexivity | discriminate].
Defined.

(** ** Non-negative balances (C9) *)



(** * Further properties of the engine *)

(** ** The shape of digests and addresses *)

Lemma String_length_append (a b : string) :
  String.length (a ++ b) = String.length a + String.length b.
Proof. induction a as [|c a IH]; simpl; [reflexivity | now rewrite IH]. Qed.

Lemma chars_append (a b : string) :
  list_ascii_of_string (a ++ b) = (list_ascii_of_string a ++ list_ascii_of_string b)%list.
Proof. induction a as [|c a IH]; simpl; [reflexivity | now rewrite IH]. Qed.

Lemma String_repeat_length (d : nat) : String.length (String_repeat "0" d) = d.
Proof. induction d as [|d IH]; simpl; [reflexivity | now rewrite IH]. Qed.

Lemma be_bytes_length (n : nat) (x : Z) : List.length (SHA256.be_bytes n x) = n.
Proof. induction n as [|n IH]; simpl; [reflexivity | now rewrite IH]. Qed.

Lemma compress_length (h block : list Z) :
  List.length h = 8 -> List.length (SHA256.compress h block) = 8.
Proof.
  intros Hh. unfold SHA256.compress.
  rewrite length_map, length_combine, Hh. reflexivity.
Qed.

Lemma fold_compress_length (bs : list (list Z)) :
  forall h, List.length h = 8 -> List.length (fold_left SHA256.compress bs h) = 8.
Proof.
  induction bs as [|b bs IH]; intros h Hh; [exact Hh|].
  cbn [fold_left]. apply IH. now apply compress_length.
Qed.

Lemma digest_length (msg : list Z) : List.length (SHA256.digest msg) = 32.
Proof.
  unfold SHA256.digest. cbv zeta.
  set (state := fold_left SHA256.compress _ SHA256.H0).
  assert (Hstate : List.length state = 8) by (apply fold_compress_length; reflexivity).
  clearbody state.
  do 9 (destruct state as [|? state]; try discriminate).
  reflexivity.
Qed.

Lemma hexDigit_hex (d : Z) : In (hexDigit d) hexAlphabet.
Proof.
  unfold hexDigit, hexAlphabet.
  destruct (Nat.lt_ge_cases (Z.to_nat d) 16) as [Hlt|Hge].
  - apply nth_In. exact Hlt.
  - rewrite nth_overflow by exact Hge. cbn. now left.
Qed.

Lemma hexOfBytes_cons (b : Z) (bs : list Z) :
  hexOfBytes (b :: bs) = byteToHex b ++ hexOfBytes bs.
Proof.
  unfold hexOfBytes. cbn [map String.concat].
  destruct (map byteToHex bs) as [|x xs] eqn:E; [reflexivity|].
  cbn [String.concat]. reflexivity.
Qed.

Lemma hexOfBytes_length (bs : list Z) :
  String.length (hexOfBytes bs) = 2 * List.length bs.
Proof.
  induction bs as [|b bs IH]; [reflexivity|].
  rewrite hexOfBytes_cons, String_length_append, IH. cbn [byteToHex String.length List.length].
  lia.
Qed.

Lemma hexOfBytes_hex (bs : list Z) :
  Forall (fun c => In c hexAlphabet) (list_ascii_of_string (hexOfBytes bs)).
Proof.
  induction bs as [|b bs IH]; [constructor|].
  rewrite hexOfBytes_cons. cbn [byteToHex append list_ascii_of_string].
  constructor; [apply hexDigit_hex|]. constructor; [apply hexDigit_hex | exact IH].
Qed.

Lemma substring_prefix_length (n : nat) (s : string) :
  n <= String.length s -> String.length (String.substring 0 n s) = n.
Proof.
  revert s; induction n as [|n IH]; intros s Hn.
  - destruct s; reflexivity.
  - destruct s as [|c s]; [simpl in Hn; lia|]. simpl. rewrite IH; [reflexivity|].
    simpl in Hn. lia.
Qed.

Lemma substring_prefix_Forall (P : ascii -> Prop) (n : nat) (s : string) :
  Forall P (list_ascii_of_string s) ->
  Forall P (list_ascii_of_string (String.substring 0 n s)).
Proof.
  revert s; induction n as [|n IH]; intros s H.
  - destruct s; constructor.
  - destruct s as [|c s]; [constructor|]. simpl in *. inversion H; subst.
    constructor; [assumption | now apply IH].
Qed.

Lemma calculateHash_length {platform : Platform} (block : Block.t) :
  String.length (calculateHash block) = 64.
Proof. unfold calculateHash. rewrite hexOfBytes_length, digest_length. reflexivity. Qed.

(** X1.  Whatever the block, [calculateHash] returns 64 characters, each of
    them one of 0-9 and a-f. *)
Theorem calculateHash_format {platform : Platform} (block : Block.t) :
  String.length (calculateHash block) = 64
  /\ Forall (fun c => In c hexAlphabet) (list_ascii_of_string (calculateHash block)).
Proof.
  unfold calculateHash. split.
  - rewrite hexOfBytes_length, digest_length. reflexivity.
  - apply hexOfBytes_hex.
Qed.

(** X2.  Whatever the random bytes, [generateAddress] returns "bc1q" followed
    by 39 characters from 0-9 and a-f: 43 characters in all. *)
Theorem generateAddress_format (randomData : list Z) :
  exists tail,
    generateAddress randomData = "bc1q" ++ tail
    /\ String.length tail = 39
    /\ Forall (fun c => In c hexAlphabet) (list_ascii_of_string tail)
    /\ String.length (generateAddress randomData) = 43.
Proof.
  unfold generateAddress. eexists. split; [reflexivity|].
  assert (Hlen : String.length
            (String.substring 0 39 (hexOfBytes (SHA256.digest randomData))) = 39).
  { apply substring_prefix_length. rewrite hexOfBytes_length, digest_length. lia. }
  split; [exact Hlen|]. split.
  - apply substring_prefix_Forall, hexOfBytes_hex.
  - rewrite String_length_append, Hlen. reflexivity.
Qed.

Lemma startsWith_length (h target : string) :
  startsWith h target = true -> String.length target <= String.length h.
Proof.
  unfold startsWith. intros H. apply prefix_app in H. destruct H as [rest ->].
  rewrite String_length_append. lia.
Qed.

(** X3.  With a difficulty above 64 no digest can meet the target: [addBlock]
    never returns a block, and on a chain that is not empty it leaves chain
    and wallets as they were, however long the search runs. *)
Theorem addBlock_difficulty_beyond_digest {platform : Platform} (fuel : nat)
    (world : World) (r : Readings) (s : BlockchainSimulator)
    (result : option Block.t) (s' : BlockchainSimulator) :
  64 < difficulty s ->
  addBlock fuel world r s = Some (result, s') ->
  result = None
  /\ (blockchain s <> [] -> blockchain s' = blockchain s /\ wallets s' = wallets s).
Proof.
  intros Hd Hadd. apply addBlock_produced in Hadd.
  destruct Hadd as [Hempty | previousBlock b s1 Hlast Hmine Hon
                   | previousBlock mined s1 Hlast Hmine Hwhy].
  - split; [reflexivity | intros H; contradiction].
  - exfalso. unfold mineBlock in Hmine. apply mineLoop_sealed in Hmine.
    destruct Hmine as (_ & Hhit & _).
    cbn [difficulty set_miningStartTime set_currentNonce set_transactionPool] in Hhit.
    apply startsWith_length in Hhit.
    rewrite String_repeat_length in Hhit.
    rewrite calculateHash_length in Hhit. lia.
  - split; [reflexivity|]. intros _.
    pose proof (mineBlock_sameLedger _ _ _ _ _ _ _ Hmine) as (Hc & _ & Hw & _).
    split; [exact Hc | exact Hw].
Qed.

Lemma addBlock_difficulty_beyond_digest_witness :
  exists s',
    addBlock (platform := wholeAmounts) 4 (stoppedAt 1) readings (set_difficulty 65 funded)
    = Some (None, s')
    /\ blockchain s' = blockchain funded.
Proof.
  eexists. split; [vm_compute; reflexivity|].
  refine (proj1 (proj2 (addBlock_difficulty_beyond_digest (platform := wholeAmounts)
            4 (stoppedAt 1) readings (set_difficulty 65 funded) None _ _ _) _)).
  - cbn. lia.
  - vm_compute. reflexivity.
  - discriminate.
Defined.

(** ** The nonce search *)

(** While a run goes on to a later attempt, no stop request was handled
    during the earlier ones. *)
Lemma mineLoop_quiet {platform : Platform} (fuel : nat) (world : World)
    (target : string) (block : Block.t) :
  forall s b s',
    mineLoop fuel world target block s = Some (Some b, s') ->
    forall j, currentNonce s <= j < currentNonce s' -> stopDuring world j = false.
Proof.
  induction fuel as [|fuel IH]; intros s b s' H; [discriminate|].
  rewrite mineLoop_step in H.
  destruct (isMining s) eqn:Hon; [|discriminate].
  destruct (startsWith _ target).
  - injection H as _ <-. rewrite suspend_currentNonce. intros j Hj. lia.
  - intros j Hj.
    assert (Hnext : isMining (set_currentNonce (S (currentNonce s)) (suspend world s)) = true).
    { destruct fuel as [|fuel']; [discriminate|]. rewrite mineLoop_step in H.
      destruct (isMining (set_currentNonce (S (currentNonce s)) (suspend world s)));
        [reflexivity | discriminate]. }
    cbn [isMining set_currentNonce] in Hnext. rewrite suspend_isMining in Hnext.
    destruct (Nat.eq_dec j (currentNonce s)) as [->|Hne].
    + destruct (stopDuring world (currentNonce s)); [discriminate | reflexivity].
    + apply (IH _ _ _ H). cbn [currentNonce set_currentNonce].
      rewrite ?suspend_currentNonce. lia.
Qed.

(** X4.  The nonce of a block returned by [mineBlock] is the least nonce whose
    digest meets the target of the difficulty in force when the call began;
    it is also the value [currentNonce] is left at, and no stop request was
    handled during any earlier attempt. *)
Theorem mineBlock_least_nonce {platform : Platform} (fuel : nat) (world : World)
    (now : Z) (block : Block.t) (s : BlockchainSimulator) (b : Block.t)
    (s' : BlockchainSimulator) :
  mineBlock fuel world now block s = Some (Some b, s') ->
  sealsAt block (difficulty s) (Block.nonce b) = true
  /\ (forall j, j < Block.nonce b -> sealsAt block (difficulty s) j = false)
  /\ (forall j, j < Block.nonce b -> stopDuring world j = false)
  /\ currentNonce s' = Block.nonce b
  /\ Block.nonce b < fuel.
Proof.
  unfold mineBlock. intros H.
  pose proof (mineLoop_quiet _ _ _ _ _ _ _ H) as Hquiet.
  assert (Hfuel : forall f t blk st bb st',
            mineLoop f world t blk st = Some (Some bb, st') ->
            currentNonce st' < currentNonce st + f).
  { induction f as [|f IHf]; intros t blk st bb st' Hrun; [discriminate|].
    rewrite mineLoop_step in Hrun. destruct (isMining st); [|discriminate].
    destruct (startsWith _ t).
    - injection Hrun as _ <-. rewrite suspend_currentNonce. lia.
    - apply IHf in Hrun. cbn [currentNonce set_currentNonce] in Hrun. lia. }
  pose proof (Hfuel _ _ _ _ _ _ H) as Hbound.
  apply mineLoop_sealed in H.
  cbn [currentNonce difficulty set_miningStartTime set_currentNonce] in H, Hquiet, Hbound.
  destruct H as (-> & Hhit & _ & Hmin).
  cbn [Block.nonce sealedAt Block.set_hash Block.set_nonce].
  split; [exact Hhit|]. split; [intros j Hj; apply Hmin; lia|].
  split; [intros j Hj; apply Hquiet; lia|]. split; [reflexivity | lia].
Qed.

Lemma mineBlock_least_nonce_witness :
  sealsAt (platform := wholeAmounts) fundedCandidate (difficulty fundedDrained) 15 = true
  /\ forall j, j < 15 ->
       sealsAt (platform := wholeAmounts) fundedCandidate (difficulty fundedDrained) j = false.
Proof.
  assert (Hrun : mineBlock (platform := wholeAmounts) 64 undisturbed 1700000000500
            fundedCandidate fundedDrained = Some (Some (fst fundedSealed), snd fundedSealed))
    by (vm_compute; reflexivity).
  destruct (mineBlock_least_nonce 64 undisturbed 1700000000500 fundedCandidate
              fundedDrained (fst fundedSealed) (snd fundedSealed) Hrun)
    as (Hhit & Hmin & _).
  split; [exact Hhit | exact Hmin].
Defined.

(** X5.  On a chain that is not empty, with the flag up, if attempt [k] is the
    first to meet the target and no stop request is handled up to and
    including it, then [addBlock] returns the candidate sealed at nonce [k]:
    it is appended, the batch is settled, the pool has lost its first 10
    transactions, [blocksMined] is one higher and the flag is still up. *)
Theorem addBlock_seals_first_hit {platform : Platform} (fuel : nat) (world : World)
    (r : Readings) (s : BlockchainSimulator) (previousBlock : Block.t) (k : nat) :
  nth_error (blockchain s) (List.length (blockchain s) - 1) = Some previousBlock ->
  isMining s = true ->
  (forall j, j <= k -> stopDuring world j = false) ->
  (forall j, j < k -> sealsAt (candidateBlock r s previousBlock) (difficulty s) j = false) ->
  sealsAt (candidateBlock r s previousBlock) (difficulty s) k = true ->
  k < fuel ->
  exists s',
    addBlock fuel world r s
    = Some (Some (sealedAt (candidateBlock r s previousBlock) k), s')
    /\ blockchain s' = (blockchain s ++ [sealedAt (candidateBlock r s previousBlock) k])%list
    /\ wallets s' = processTransactions (batch r s) (wallets s)
    /\ transactionPool s' = skipn 10 (transactionPool s)
    /\ blocksMined s' = S (blocksMined s)
    /\ isMining s' = true
    /\ difficulty s' = difficulty s.
Proof.
  intros Hlast Hon Hquiet Hmiss Hhit Hfuel.
  destruct (addBlock_succeeds fuel world r s previousBlock k Hlast Hon Hquiet Hmiss Hhit Hfuel)
    as (s' & Hadd & Hc & Hw & Hp).
  exists s'. split; [exact Hadd|]. split; [exact Hc|]. split; [exact Hw|].
  split; [exact Hp|].
  apply addBlock_produced in Hadd.
  inversion Hadd as [| previousBlock' b' s1 Hlast' Hmine Hon' |]; subst.
  pose proof (mineBlock_sameLedger _ _ _ _ _ _ _ Hmine) as (_ & _ & _ & Hd & _ & Hb).
  cbn [blocksMined isMining difficulty set_wallets set_blocksMined set_blockchain
    set_transactionPool] in *.
  split; [now rewrite Hb|]. split; [exact Hon' | exact Hd].
Qed.

Lemma addBlock_seals_first_hit_witness :
  exists s',
    addBlock (platform := wholeAmounts) 64 undisturbed readings funded
    = Some (Some (sealedAt (platform := wholeAmounts)
                    (candidateBlock readings funded (nth 0 (blockchain funded) emptyBlock))
                    15), s')
    /\ blocksMined s' = 1.
Proof.
  destruct (addBlock_seals_first_hit (platform := wholeAmounts) 64 undisturbed readings
              funded (nth 0 (blockchain funded) emptyBlock) 15)
    as (s' & Hadd & _ & _ & _ & Hmined & _).
  - reflexivity.
  - reflexivity.
  - reflexivity.
  - intros j Hj. do 15 (destruct j as [|j]; [vm_compute; reflexivity|]). lia.
  - vm_compute. reflexivity.
  - lia.
  - exists s'. split; [exact Hadd | exact Hmined].
Defined.

(** X6.  At difficulty 0 every digest meets the empty target: with the flag up
    and no stop request during the first attempt, [addBlock] on a chain that
    is not empty returns the candidate with nonce 0 after one attempt. *)
Theorem addBlock_difficulty_zero {platform : Platform} (fuel : nat) (world : World)
    (r : Readings) (s : BlockchainSimulator) (previousBlock : Block.t) :
  nth_error (blockchain s) (List.length (blockchain s) - 1) = Some previousBlock ->
  difficulty s = 0 ->
  isMining s = true ->
  stopDuring world 0 = false ->
  exists b s',
    addBlock (S fuel) world r s = Some (Some b, s')
    /\ Block.nonce b = 0
    /\ currentNonce s' = 0
    /\ blockchain s' = (blockchain s ++ [b])%list.
Proof.
  intros Hlast Hd Hon Hquiet.
  destruct (addBlock_succeeds (S fuel) world r s previousBlock 0 Hlast Hon)
    as (s' & Hadd & Hc & _).
  - intros j Hj. replace j with 0 by lia. exact Hquiet.
  - intros j Hj. lia.
  - unfold sealsAt. rewrite Hd. apply startsWith_empty.
  - lia.
  - exists (sealedAt (candidateBlock r s previousBlock) 0), s'.
    split; [exact Hadd|]. split; [reflexivity|]. split; [|exact Hc].
    apply addBlock_produced in Hadd.
    inversion Hadd as [| previousBlock' b' s1 Hlast' Hmine Hon' |]; subst.
    unfold mineBlock in Hmine. apply mineLoop_sealed in Hmine. destruct Hmine as (Hb & _).
    apply (f_equal Block.nonce) in Hb.
    cbn [currentNonce set_wallets set_blocksMined set_blockchain]. symmetry. exact Hb.
Qed.

Lemma addBlock_difficulty_zero_witness :
  exists b s',
    addBlock (platform := wholeAmounts) 1 undisturbed readings (set_difficulty 0 funded)
    = Some (Some b, s')
    /\ Block.nonce b = 0.
Proof.
  destruct (addBlock_difficulty_zero (platform := wholeAmounts) 0 undisturbed readings
              (set_difficulty 0 funded) (nth 0 (blockchain funded) emptyBlock))
    as (b & s' & Hadd & Hnonce & _).
  - reflexivity.
  - reflexivity.
  - reflexivity.
  - reflexivity.
  - exists b, s'. split; [exact Hadd | exact Hnonce].
Defined.

(** ** The chain over time *)

Section ChainOverTime.
Context {platform : Platform}.

(** What one operation does to the chain: nothing, or one block at the end
    whose stored hash is the digest of its content. *)
Lemma step_chain (s s' : BlockchainSimulator) :
  step s s' ->
  blockchain s' = blockchain s
  \/ exists b, blockchain s' = (blockchain s ++ [b])%list /\ hashMatches b.
Proof.
  intros Hstep.
  destruct Hstep as [s rd now label bal Hbal | s now | s id now from to amount
                    | s fuel world r result s' Hadd | s | s | s d];
    try (left; reflexivity).
  - right. eexists. split; [reflexivity|]. reflexivity.
  - left. unfold addTransaction.
    destruct (Map_get from (wallets s)); [|reflexivity].
    destruct (Map_get to (wallets s)); [|reflexivity].
    destruct (Qltb _ amount); [reflexivity|].
    destruct (Qle_bool amount 0); reflexivity.
  - apply addBlock_produced in Hadd.
    destruct Hadd as [Hempty | previousBlock b s1 Hlast Hmine Hon
                     | previousBlock mined s1 Hlast Hmine Hwhy].
    + right. eexists. split; [reflexivity|]. reflexivity.
    + right. exists b.
      pose proof (mineBlock_sameLedger _ _ _ _ _ _ _ Hmine) as (Hc & _).
      cbn [blockchain set_wallets set_blocksMined set_blockchain set_transactionPool] in *.
      rewrite Hc. split; [reflexivity|].
      unfold mineBlock in Hmine. apply mineLoop_sealed in Hmine. destruct Hmine as (-> & _).
      reflexivity.
    + left. now pose proof (mineBlock_sameLedger _ _ _ _ _ _ _ Hmine) as (Hc & _).
Qed.

Lemma step_keys (s s' : BlockchainSimulator) :
  step s s' ->
  exists added, Map_keys (wallets s') = (Map_keys (wallets s) ++ added)%list.
Proof.
  assert (Hset : forall k w m,
            exists added, Map_keys (Map_set k w m) = (Map_keys m ++ added)%list).
  { intros k w m. unfold Map_keys.
    induction m as [|[k' w'] m IH]; cbn [Map_set].
    - now exists [k].
    - destruct (String.eqb_spec k k') as [->|Hne].
      + exists []. cbn [map fst]. now rewrite app_nil_r.
      + destruct IH as [added IH]. exists added. cbn [map fst app]. now rewrite IH. }
  intros Hstep.
  destruct Hstep as [s rd now label bal Hbal | s now | s id now from to amount
                    | s fuel world r result s' Hadd | s | s | s d];
    try (exists []; cbn; now rewrite app_nil_r).
  - apply Hset.
  - exists []. rewrite app_nil_r. unfold addTransaction.
    destruct (Map_get from (wallets s)); [|reflexivity].
    destruct (Map_get to (wallets s)); [|reflexivity].
    destruct (Qltb _ amount); [reflexivity|].
    destruct (Qle_bool amount 0); reflexivity.
  - exists []. rewrite app_nil_r. apply addBlock_produced in Hadd.
    destruct Hadd as [Hempty | previousBlock b s1 Hlast Hmine Hon
                     | previousBlock mined s1 Hlast Hmine Hwhy].
    + reflexivity.
    + pose proof (mineBlock_sameLedger _ _ _ _ _ _ _ Hmine) as (_ & _ & Hw & _).
      cbn [wallets set_wallets set_transactionPool] in *.
      now rewrite processTransactions_keys, Hw.
    + pose proof (mineBlock_sameLedger _ _ _ _ _ _ _ Hmine) as (_ & _ & Hw & _).
      cbn [wallets set_transactionPool] in Hw. now rewrite Hw.
Qed.

(** X7.  The ledger is append-only: whatever operations are called, the chain
    they leave begins with the chain they found, block for block. *)
Theorem chain_append_only (s s' : BlockchainSimulator) :
  evolves s s' ->
  exists suffix, blockchain s' = (blockchain s ++ suffix)%list.
Proof.
  induction 1 as [s | s s' s'' _ [suffix IH] Hstep].
  - exists []. now rewrite app_nil_r.
  - destruct (step_chain _ _ Hstep) as [Hsame | (b & Hb & _)].
    + exists suffix. now rewrite Hsame.
    + exists (suffix ++ [b])%list. now rewrite Hb, IH, app_assoc.
Qed.

(** X8.  Wallets are never removed or reordered: whatever operations are
    called, the addresses of the registry they leave begin with the addresses
    of the registry they found, in the same order; so once a wallet exists the
    reward recipient, the first address, stays the same. *)
Theorem registry_grows_at_the_end (s s' : BlockchainSimulator) :
  evolves s s' ->
  (exists added, Map_keys (wallets s') = (Map_keys (wallets s) ++ added)%list)
  /\ (wallets s <> [] ->
        forall r r', Transaction.to (rewardTransaction r' s')
                     = Transaction.to (rewardTransaction r s)).
Proof.
  intros Hev.
  assert (Hkeys : exists added,
            Map_keys (wallets s') = (Map_keys (wallets s) ++ added)%list).
  { induction Hev as [s | s s' s'' _ [added IH] Hstep].
    - exists []. now rewrite app_nil_r.
    - destruct (step_keys _ _ Hstep) as [added' H'].
      exists (added ++ added')%list. now rewrite H', IH, app_assoc. }
  split; [exact Hkeys|].
  intros Hne r r'. destruct Hkeys as [added Hk].
  cbn [rewardTransaction Transaction.to Transaction.new]. rewrite Hk.
  destruct (wallets s) as [|[k w] ws]; [contradiction | reflexivity].
Qed.

(** X9.  In every reachable state the stored hash of every block of the chain
    is the digest of the serialization of that block. *)
Theorem chain_hashes_match (s : BlockchainSimulator) :
  reachable s -> Forall hashMatches (blockchain s).
Proof.
  induction 1 as [|s s' _ IH Hstep]; [constructor|].
  destruct (step_chain _ _ Hstep) as [-> | (b & -> & Hb)]; [exact IH|].
  apply Forall_app. split; [exact IH | now constructor].
Qed.

End ChainOverTime.

Lemma ready_evolves_fundedProduced : evolves (platform := wholeAmounts) ready fundedProduced.
Proof.
  eapply evolves_step;
    [|exact (step_addBlock funded 64 undisturbed readings _ _ fundedProduced_run)].
  replace funded with
    (snd (addTransaction "tx_p0a7c41dblo8zq0ab" 1700000000200 alice bob 30 ready))
    by (vm_compute; reflexivity).
  eapply evolves_step; [apply evolves_refl | apply step_addTransaction].
Qed.

Lemma chain_append_only_witness :
  exists suffix, blockchain fundedProduced = (blockchain ready ++ suffix)%list.
Proof.
  exact (chain_append_only (platform := wholeAmounts) ready fundedProduced
           ready_evolves_fundedProduced).
Defined.

Lemma registry_grows_at_the_end_witness :
  exists added,
    Map_keys (wallets fundedProduced) = (Map_keys (wallets ready) ++ added)%list.
Proof.
  exact (proj1 (registry_grows_at_the_end (platform := wholeAmounts) ready fundedProduced
                  ready_evolves_fundedProduced)).
Defined.

Lemma chain_hashes_match_witness :
  Forall (hashMatches (platform := wholeAmounts)) (blockchain fundedProduced).
Proof.
  exact (chain_hashes_match (platform := wholeAmounts) fundedProduced
           fundedProduced_reachable).
Defined.

(** ** Validation and production together *)

Lemma validateFrom_snoc (target : string) (b : Block.t) (h : string) :
  forall rest prv last,
    nth_error (prv :: rest) (List.length rest) = Some last ->
    validateFrom target prv rest = Ret true ->
    Block.hash b = Some h ->
    startsWith h target = true ->
    Block.previousHash b = Block.hash last ->
    validateFrom target prv (rest ++ [b]) = Ret true.
Proof.
  induction rest as [|c rest IH]; intros prv last Hlast Hvalid Hh Hhit Hlink.
  - cbn in Hlast. injection Hlast as <-. cbn [app].
    apply validateFrom_cons. split; [now exists h|]. split; [exact Hlink | reflexivity].
  - cbn [app]. apply validateFrom_cons in Hvalid.
    destruct Hvalid as (Hc & Hl & Hrest).
    apply validateFrom_cons. split; [exact Hc|]. split; [exact Hl|].
    eapply IH; eassumption.
Qed.

(** X10.  A chain that [validateChain] accepts is still accepted after any
    call of [addBlock], whether it appended the genesis block, a sealed block
    or nothing. *)
Theorem addBlock_keeps_chain_valid {platform : Platform} (fuel : nat) (world : World)
    (r : Readings) (s : BlockchainSimulator) (result : option Block.t)
    (s' : BlockchainSimulator) :
  validateChain s = Ret true ->
  addBlock fuel world r s = Some (result, s') ->
  validateChain s' = Ret true.
Proof.
  intros Hvalid Hadd. apply addBlock_produced in Hadd.
  destruct Hadd as [Hempty | previousBlock b s1 Hlast Hmine Hon
                   | previousBlock mined s1 Hlast Hmine Hwhy].
  - unfold validateChain, createGenesisBlock. cbn [blockchain set_blockchain].
    rewrite Hempty. reflexivity.
  - pose proof (mineBlock_sameLedger _ _ _ _ _ _ _ Hmine) as (Hc & _ & _ & Hd & _).
    cbn [blockchain difficulty set_transactionPool] in Hc, Hd.
    unfold mineBlock in Hmine. apply mineLoop_sealed in Hmine.
    destruct Hmine as (-> & Hhit & _).
    cbn [difficulty set_miningStartTime set_currentNonce set_transactionPool] in Hhit.
    unfold validateChain in *.
    cbn [blockchain difficulty set_wallets set_blocksMined set_blockchain].
    rewrite Hc, Hd.
    destruct (blockchain s) as [|g rest] eqn:Hchain; [discriminate|].
    cbn [app]. cbn [List.length Nat.sub] in Hlast. rewrite Nat.sub_0_r in Hlast.
    eapply validateFrom_snoc; [exact Hlast | exact Hvalid | reflexivity | exact Hhit |].
    reflexivity.
  - pose proof (mineBlock_sameLedger _ _ _ _ _ _ _ Hmine) as (Hc & _ & _ & Hd & _).
    cbn [blockchain difficulty set_transactionPool] in Hc, Hd.
    unfold validateChain in *. now rewrite Hc, Hd.
Qed.

Lemma addBlock_keeps_chain_valid_witness :
  validateChain fundedProduced = Ret true.
Proof.
  apply (addBlock_keeps_chain_valid (platform := wholeAmounts) 64 undisturbed readings
           funded (Some (fst fundedSealed)) fundedProduced).
  - reflexivity.
  - exact fundedProduced_run.
Defined.

Lemma String_repeat_add (a b : nat) :
  String_repeat "0" (a + b) = String_repeat "0" a ++ String_repeat "0" b.
Proof. induction a as [|a IH]; [reflexivity|]. cbn [Nat.add String_repeat append]. now rewrite IH. Qed.

Lemma String_append_assoc (a b c : string) : (a ++ b) ++ c = a ++ (b ++ c).
Proof. induction a as [|x a IH]; [reflexivity|]. cbn [append]. now rewrite IH. Qed.

Lemma startsWith_fewer_zeros (h : string) (d d' : nat) :
  d' <= d ->
  startsWith h (String_repeat "0" d) = true ->
  startsWith h (String_repeat "0" d') = true.
Proof.
  unfold startsWith. intros Hle H. apply prefix_app in H. destruct H as [rest ->].
  apply prefix_app. replace d with (d' + (d - d')) by lia.
  rewrite String_repeat_add, String_append_assoc. eexists. reflexivity.
Qed.

(** X11.  Lowering the difficulty never invalidates a chain: a chain accepted
    at the current difficulty is accepted at every smaller one. *)
Theorem validateChain_lower_difficulty (s : BlockchainSimulator) (d : nat) :
  d <= difficulty s ->
  validateChain s = Ret true ->
  validateChain (set_difficulty d s) = Ret true.
Proof.
  intros Hle. unfold validateChain. cbn [blockchain difficulty set_difficulty].
  destruct (blockchain s) as [|g rest]; [reflexivity|].
  revert g. induction rest as [|c rest IH]; intros g Hvalid; [reflexivity|].
  apply validateFrom_cons in Hvalid. destruct Hvalid as ((h & Hh & Hhit) & Hl & Hrest).
  apply validateFrom_cons. split.
  - exists h. split; [exact Hh|]. eapply startsWith_fewer_zeros; eassumption.
  - split; [exact Hl | now apply IH].
Qed.

Lemma validateChain_lower_difficulty_witness :
  validateChain (set_difficulty 0 fundedProduced) = Ret true.
Proof.
  apply (validateChain_lower_difficulty fundedProduced 0).
  - cbn. lia.
  - reflexivity.
Defined.

Lemma validateFrom_hashed (target : string) (rest : list Block.t) :
  forall prv,
    Forall (fun b => Block.hash b <> None) rest ->
    validateFrom target prv rest = Ret true \/ validateFrom target prv rest = Ret false.
Proof.
  induction rest as [|c rest IH]; intros prv Hall; [now left|].
  inversion Hall as [|? ? Hc Hrest]; subst. cbn [validateFrom].
  destruct (Block.hash c) as [h|]; [|contradiction].
  destruct (negb (startsWith h target)); [now right|].
  destruct (negb (option_string_eqb _ _)); [now right | now apply IH].
Qed.

(** X12.  In a reachable state [validateChain] returns [true] or [false]: the
    [TypeError] of reading a missing hash does not arise, because every block
    is pushed with its hash set. *)
Theorem validateChain_returns {platform : Platform} (s : BlockchainSimulator) :
  reachable s -> validateChain s = Ret true \/ validateChain s = Ret false.
Proof.
  intros Hreach. apply reachable_Invariant in Hreach.
  destruct Hreach as (_ & _ & _ & _ & Hhashed).
  unfold validateChain. destruct (blockchain s) as [|g rest]; [now left|].
  apply validateFrom_hashed. now inversion Hhashed.
Qed.

Lemma validateChain_returns_witness :
  validateChain fundedProduced = Ret true \/ validateChain fundedProduced = Ret false.
Proof.
  exact (validateChain_returns (platform := wholeAmounts) fundedProduced
           fundedProduced_reachable).
Defined.

Lemma validateFrom_sameSeal (target : string) :
  forall rest rest' prv prv',
    Block.hash prv = Block.hash prv' ->
    Forall2 sameSeal rest rest' ->
    validateFrom target prv rest = validateFrom target prv' rest'.
Proof.
  induction rest as [|c rest IH]; intros rest' prv prv' Hprv Hall;
    inversion Hall as [|? c' ? rest'' [Hh Hp] Hrest]; subst; [reflexivity|].
  cbn [validateFrom]. rewrite <- Hh, <- Hp, Hprv.
  destruct (Block.hash c) eqn:E; [|reflexivity].
  destruct (negb (startsWith _ target)); [reflexivity|].
  destruct (negb (option_string_eqb _ _)); [reflexivity|].
  apply IH; [congruence | assumption].
Qed.

(** X13.  [validateChain] reads nothing of a block but its stored hash and its
    previous hash, and never recomputes a digest: a chain whose blocks have
    had their transactions, data, timestamp, index or nonce rewritten gets the
    same verdict as the original. *)
Theorem validateChain_reads_only_seals (s : BlockchainSimulator) (chain' : list Block.t) :
  Forall2 sameSeal (blockchain s) chain' ->
  validateChain (set_blockchain chain' s) = validateChain s.
Proof.
  intros Hall. unfold validateChain. cbn [blockchain difficulty set_blockchain].
  inversion Hall as [|g g' rest rest' [Hh _] Hrest]; subst; [reflexivity|].
  symmetry. now apply validateFrom_sameSeal.
Qed.

Lemma validateChain_reads_only_seals_witness :
  validateChain
    (set_blockchain (map (Block_set_transactions []) (blockchain fundedProduced))
       fundedProduced) = Ret true
  /\ ~ Forall (hashMatches (platform := wholeAmounts))
         (map (Block_set_transactions []) (blockchain fundedProduced)).
Proof.
  split.
  - rewrite (validateChain_reads_only_seals fundedProduced
               (map (Block_set_transactions []) (blockchain fundedProduced))).
    + reflexivity.
    + repeat constructor.
  - intros H. inversion H as [|? ? _ Hrest]; subst.
    inversion Hrest as [|? ? Hbad _]; subst.
    vm_compute in Hbad. discriminate.
Defined.

(** ** Indices and counters *)

(** X14.  If every block of the chain sits at the position its index names,
    the same holds after any call of [addBlock]: the genesis block gets index
    0 at position 0, a produced block the index equal to the old length. *)
Theorem addBlock_keeps_indices {platform : Platform} (fuel : nat) (world : World)
    (r : Readings) (s : BlockchainSimulator) (result : option Block.t)
    (s' : BlockchainSimulator) :
  indexed (blockchain s) ->
  addBlock fuel world r s = Some (result, s') ->
  indexed (blockchain s')
  /\ forall b, result = Some b -> Block.index b = List.length (blockchain s).
Proof.
  intros Hidx Hadd. apply addBlock_produced in Hadd.
  destruct Hadd as [Hempty | previousBlock b s1 Hlast Hmine Hon
                   | previousBlock mined s1 Hlast Hmine Hwhy].
  - split; [|discriminate]. unfold createGenesisBlock. cbn [blockchain set_blockchain].
    rewrite Hempty. intros [|[|i]] b Hb; cbn in Hb; try discriminate.
    now injection Hb as <-.
  - pose proof (mineBlock_sameLedger _ _ _ _ _ _ _ Hmine) as (Hc & _).
    cbn [blockchain set_transactionPool] in Hc.
    unfold mineBlock in Hmine. apply mineLoop_sealed in Hmine. destruct Hmine as (-> & _).
    assert (Hnew : Block.index (sealedAt (candidateBlock r s previousBlock) (currentNonce s1))
                   = List.length (blockchain s)).
    { cbn [sealedAt candidateBlock Block.index Block.new Block.set_hash Block.set_nonce].
      rewrite (Hidx _ _ Hlast).
      assert (blockchain s <> []) by (intros E; rewrite E in Hlast; discriminate).
      destruct (blockchain s); [contradiction | cbn [List.length]; lia]. }
    split; [|now intros b' [= <-]].
    cbn [blockchain set_wallets set_blocksMined set_blockchain]. rewrite Hc.
    intros i b' Hb'.
    destruct (Nat.lt_ge_cases i (List.length (blockchain s))) as [Hlt|Hge].
    + rewrite nth_error_app1 in Hb' by exact Hlt. now apply Hidx.
    + rewrite nth_error_app2 in Hb' by exact Hge.
      destruct (i - List.length (blockchain s)) as [|n] eqn:E;
        [|destruct n; discriminate].
      cbn in Hb'. injection Hb' as <-. rewrite Hnew. lia.
  - pose proof (mineBlock_sameLedger _ _ _ _ _ _ _ Hmine) as (Hc & _).
    cbn [blockchain set_transactionPool] in Hc. rewrite Hc.
    split; [exact Hidx | discriminate].
Qed.

Lemma addBlock_keeps_indices_witness :
  indexed (blockchain fundedProduced)
  /\ forall b, Some (fst fundedSealed) = Some b -> Block.index b = List.length (blockchain funded).
Proof.
  apply (addBlock_keeps_indices (platform := wholeAmounts) 64 undisturbed readings funded
           (Some (fst fundedSealed)) fundedProduced).
  - intros [|[|i]] b Hb; cbn in Hb; try discriminate. now injection Hb as <-.
  - exact fundedProduced_run.
Defined.

(** X15.  In every reachable state [blocksMined] is the number of blocks of
    the chain that carry transactions, that is, of the blocks produced by
    sealing; genesis blocks, which carry none, are not counted. *)
Theorem blocksMined_counts_rewarded {platform : Platform} (s : BlockchainSimulator) :
  reachable s -> blocksMined s = List.length (rewarded (blockchain s)).
Proof.
  induction 1 as [|s s' _ IH Hstep]; [reflexivity|].
  destruct Hstep as [s rd now label bal Hbal | s now | s id now from to amount
                    | s fuel world r result s' Hadd | s | s | s d];
    try exact IH.
  - unfold createGenesisBlock, rewarded in *. cbn [blockchain blocksMined set_blockchain].
    rewrite filter_app. cbn. now rewrite app_nil_r.
  - unfold addTransaction.
    destruct (Map_get from (wallets s)); [|exact IH].
    destruct (Map_get to (wallets s)); [|exact IH].
    destruct (Qltb _ amount); [exact IH|].
    destruct (Qle_bool amount 0); exact IH.
  - apply addBlock_produced in Hadd.
    destruct Hadd as [Hempty | previousBlock b s1 Hlast Hmine Hon
                     | previousBlock mined s1 Hlast Hmine Hwhy].
    + unfold createGenesisBlock, rewarded in *. cbn [blockchain blocksMined set_blockchain].
      rewrite filter_app. cbn. now rewrite app_nil_r.
    + pose proof (mineBlock_sameLedger _ _ _ _ _ _ _ Hmine) as (Hc & _ & _ & _ & _ & Hb).
      cbn [blockchain blocksMined set_transactionPool] in Hc, Hb.
      unfold mineBlock in Hmine. apply mineLoop_sealed in Hmine. destruct Hmine as (-> & _).
      unfold rewarded in *.
      cbn [blockchain blocksMined set_wallets set_blocksMined set_blockchain].
      rewrite Hc, Hb, filter_app, length_app, IH. cbn. lia.
    + pose proof (mineBlock_sameLedger _ _ _ _ _ _ _ Hmine) as (Hc & _ & _ & _ & _ & Hb).
      cbn [blockchain blocksMined set_transactionPool] in Hc, Hb. now rewrite Hc, Hb.
Qed.

Lemma blocksMined_counts_rewarded_witness :
  blocksMined fundedProduced = 1 /\ List.length (blockchain fundedProduced) = 2.
Proof.
  split; [|reflexivity].
  rewrite (blocksMined_counts_rewarded (platform := wholeAmounts) fundedProduced
             fundedProduced_reachable).
  reflexivity.
Defined.

(** ** The registry *)

Lemma Map_get_set_same (k : string) (w : Wallet.t) (m : WalletMap) :
  Map_get k (Map_set k w m) = Some w.
Proof.
  induction m as [|[k' w'] m IH]; cbn [Map_set Map_get].
  - now rewrite String.eqb_refl.
  - destruct (String.eqb_spec k k') as [->|Hne]; cbn [Map_get].
    + now rewrite String.eqb_refl.
    + destruct (String.eqb_spec k k'); [contradiction | exact IH].
Qed.

Lemma Map_get_set_other (k a : string) (w : Wallet.t) (m : WalletMap) :
  a <> k -> Map_get a (Map_set k w m) = Map_get a m.
Proof.
  intros Hne. induction m as [|[k' w'] m IH]; cbn [Map_set Map_get].
  - destruct (String.eqb_spec a k); [contradiction | reflexivity].
  - destruct (String.eqb_spec k k') as [->|Hk]; cbn [Map_get].
    + destruct (String.eqb_spec a k'); [contradiction | reflexivity].
    + destruct (String.eqb_spec a k'); [reflexivity | exact IH].
Qed.

Lemma Map_set_length (k : string) (w : Wallet.t) (m : WalletMap) :
  List.length (Map_set k w m)
  = match Map_get k m with
    | Some _ => List.length m
    | None => S (List.length m)
    end.
Proof.
  induction m as [|[k' w'] m IH]; cbn [Map_set Map_get]; [reflexivity|].
  destruct (String.eqb k k'); cbn [List.length]; [reflexivity|].
  rewrite IH. now destruct (Map_get k m).
Qed.

(** X16.  [createWallet] returns a wallet with the generated address and the
    given balance and stores it under that address: looking the address up
    yields the wallet, every other address yields what it did, and chain and
    pool are untouched.  The registry grows by one entry unless the address
    was already present, in which case the wallet stored there is replaced. *)
Theorem createWallet_registers (randomData : list Z) (now : Z) (label : option string)
    (initialBalance : Q) (s : BlockchainSimulator) :
  let wallet := fst (createWallet randomData now label initialBalance s) in
  let s' := snd (createWallet randomData now label initialBalance s) in
  Wallet.address wallet = generateAddress randomData
  /\ Wallet.balance wallet = initialBalance
  /\ Map_get (Wallet.address wallet) (wallets s') = Some wallet
  /\ (forall a, a <> Wallet.address wallet ->
        Map_get a (wallets s') = Map_get a (wallets s))
  /\ List.length (wallets s')
     = match Map_get (Wallet.address wallet) (wallets s) with
       | Some _ => List.length (wallets s)
       | None => S (List.length (wallets s))
       end
  /\ blockchain s' = blockchain s
  /\ transactionPool s' = transactionPool s.
Proof.
  cbv zeta. unfold createWallet. cbn [fst snd wallets blockchain transactionPool
    set_wallets Wallet.address Wallet.balance].
  split; [reflexivity|]. split; [reflexivity|].
  split; [apply Map_get_set_same|].
  split; [intros a Ha; now apply Map_get_set_other|].
  split; [apply Map_set_length|]. split; reflexivity.
Qed.

Lemma Map_set_NoDup (k : string) (w : Wallet.t) (m : WalletMap) :
  NoDup (Map_keys m) -> NoDup (Map_keys (Map_set k w m)).
Proof.
  unfold Map_keys. induction m as [|[k' w'] m IH]; cbn [Map_set map fst]; intros Hnd.
  - constructor; [intros [] | constructor].
  - inversion Hnd as [|? ? Hnotin Hrest]; subst.
    destruct (String.eqb_spec k k') as [->|Hne]; cbn [map fst].
    + now constructor.
    + constructor; [|now apply IH].
      intros Hin. apply (Map_keys_set k k' w m) in Hin.
      destruct Hin as [Heq|Hin]; [congruence | contradiction].
Qed.

Lemma Map_mutate_Forall_all (P : string * Wallet.t -> Prop) (k : string)
    (f : Wallet.t -> Wallet.t) (m : WalletMap) :
  (forall a w, P (a, w) -> P (a, f w)) -> Forall P m -> Forall P (Map_mutate k f m).
Proof.
  intros Hf. induction m as [|[k' w'] m IH]; cbn [Map_mutate]; intros Hall; [constructor|].
  inversion Hall; subst.
  destruct (String.eqb k k'); constructor; auto.
Qed.

Lemma processTransactions_Forall (P : string * Wallet.t -> Prop) :
  (forall a w q, P (a, w) -> P (a, Wallet.set_balance q w)) ->
  forall txs ws, Forall P ws -> Forall P (processTransactions txs ws).
Proof.
  intros HP. induction txs as [|tx txs IH]; intros ws Hall; [exact Hall|].
  unfold processTransactions in *. cbn [fold_left]. apply IH.
  destruct (processTransaction_settled ws tx); [| |exact Hall].
  - apply Map_mutate_Forall_all; [|exact Hall]. intros a w0 Hw0. now apply HP.
  - apply Map_mutate_Forall_all; [intros a w0 Hw0; now apply HP|].
    apply Map_mutate_Forall_all; [intros a w0 Hw0; now apply HP | exact Hall].
Qed.

(** X17.  In every reachable state the addresses of the registry are pairwise
    distinct and every wallet is stored under its own address. *)
Theorem registry_keys_are_addresses {platform : Platform} (s : BlockchainSimulator) :
  reachable s ->
  NoDup (Map_keys (wallets s))
  /\ Forall (fun kw => Wallet.address (snd kw) = fst kw) (wallets s).
Proof.
  induction 1 as [|s s' _ [IHnd IHaddr] Hstep]; [split; constructor|].
  destruct Hstep as [s rd now label bal Hbal | s now | s id now from to amount
                    | s fuel world r result s' Hadd | s | s | s d];
    try (split; assumption).
  - unfold createWallet. cbn [snd wallets set_wallets]. split.
    + now apply Map_set_NoDup.
    + rewrite Forall_forall in *. intros kw Hin. apply Map_set_In in Hin.
      destruct Hin as [->|Hin]; [reflexivity | now apply IHaddr].
  - unfold addTransaction.
    destruct (Map_get from (wallets s)); [|split; assumption].
    destruct (Map_get to (wallets s)); [|split; assumption].
    destruct (Qltb _ amount); [split; assumption|].
    destruct (Qle_bool amount 0); split; assumption.
  - apply addBlock_produced in Hadd.
    destruct Hadd as [Hempty | previousBlock b s1 Hlast Hmine Hon
                     | previousBlock mined s1 Hlast Hmine Hwhy].
    + split; assumption.
    + pose proof (mineBlock_sameLedger _ _ _ _ _ _ _ Hmine) as (_ & _ & Hw & _).
      cbn [wallets set_wallets set_transactionPool] in *. rewrite Hw. split.
      * now rewrite processTransactions_keys.
      * apply processTransactions_Forall; [|exact IHaddr]. intros a w q Hw0. exact Hw0.
    + pose proof (mineBlock_sameLedger _ _ _ _ _ _ _ Hmine) as (_ & _ & Hw & _).
      cbn [wallets set_transactionPool] in Hw. rewrite Hw. split; assumption.
Qed.

Lemma registry_keys_are_addresses_witness :
  NoDup (Map_keys (wallets fundedProduced))
  /\ Forall (fun kw => Wallet.address (snd kw) = fst kw) (wallets fundedProduced).
Proof.
  exact (registry_keys_are_addresses (platform := wholeAmounts) fundedProduced
           fundedProduced_reachable).
Defined.

(** X18.  Settlement writes balances and nothing else: after any batch the
    registry holds the same addresses in the same order, and every wallet has
    the address, label and creation time it had. *)
Theorem settlement_writes_only_balances (txs : list Transaction.t) (ws : WalletMap) :
  map (fun kw => (fst kw, Wallet.address (snd kw), Wallet.label (snd kw),
                  Wallet.createdAt (snd kw)))
      (processTransactions txs ws)
  = map (fun kw => (fst kw, Wallet.address (snd kw), Wallet.label (snd kw),
                    Wallet.createdAt (snd kw))) ws.
Proof.
  assert (Hmut : forall k q m,
            map (fun kw => (fst kw, Wallet.address (snd kw), Wallet.label (snd kw),
                            Wallet.createdAt (snd kw)))
                (Map_mutate k (fun w => Wallet.set_balance (q w) w) m)
            = map (fun kw => (fst kw, Wallet.address (snd kw), Wallet.label (snd kw),
                              Wallet.createdAt (snd kw))) m).
  { intros k q m. induction m as [|[k' w'] m IH]; [reflexivity|].
    cbn [Map_mutate]. destruct (String.eqb k k'); cbn [map fst snd]; [reflexivity|].
    now rewrite IH. }
  revert ws. induction txs as [|tx txs IH]; intros ws; [reflexivity|].
  unfold processTransactions in *. cbn [fold_left]. rewrite IH.
  destruct (processTransaction_settled ws tx); [| |reflexivity].
  - apply (Hmut to (fun w => (Wallet.balance w + Transaction.amount tx)%Q)).
  - rewrite (Hmut to (fun w => (Wallet.balance w + Transaction.amount tx)%Q)).
    apply (Hmut (Transaction.from tx) (fun w => (Wallet.balance w - Transaction.amount tx)%Q)).
Qed.

(** ** Admission against settlement *)

(** X19.  Pool admission reserves nothing: after a transfer has been accepted,
    a second transfer from the same sender is accepted as long as it alone is
    within the sender's balance, even if the two together exceed it. *)
Theorem addTransaction_reserves_nothing (id1 id2 : string) (now1 now2 : Z)
    (from to1 to2 : string) (amount1 amount2 : Q) (s s1 : BlockchainSimulator)
    (tx1 : Transaction.t) (fromWallet toWallet2 : Wallet.t) :
  addTransaction id1 now1 from to1 amount1 s = (Ret tx1, s1) ->
  Map_get from (wallets s) = Some fromWallet ->
  Map_get to2 (wallets s) = Some toWallet2 ->
  (0 < amount2)%Q ->
  (amount2 <= Wallet.balance fromWallet)%Q ->
  addTransaction id2 now2 from to2 amount2 s1
  = (Ret (Transaction.new id2 now2 from (Some to2) amount2),
     set_transactionPool
       (transactionPool s ++ [tx1; Transaction.new id2 now2 from (Some to2) amount2]) s).
Proof.
  intros H1 Hfw Htw Hpos Hle.
  assert (Hs1 : s1 = set_transactionPool (transactionPool s ++ [tx1]) s).
  { unfold addTransaction in H1. rewrite Hfw in H1.
    destruct (Map_get to1 (wallets s)); [|discriminate].
    destruct (Qltb _ amount1); [discriminate|].
    destruct (Qle_bool amount1 0); [discriminate|].
    now injection H1 as <- <-. }
  subst s1. unfold addTransaction. cbn [wallets transactionPool set_transactionPool].
  rewrite Hfw, Htw.
  assert (E1 : Qltb (Wallet.balance fromWallet) amount2 = false) by now apply Qltb_false.
  assert (E2 : Qle_bool amount2 0 = false) by now apply Qle_bool_false.
  rewrite E1, E2. rewrite <- app_assoc. reflexivity.
Qed.

Lemma addTransaction_reserves_nothing_witness :
  fst (addTransaction "tx_q1" 1700000000300 alice bob 80 funded)
  = Ret (Transaction.new "tx_q1" 1700000000300 alice (Some bob) 80).
Proof.
  rewrite (addTransaction_reserves_nothing "tx_p0a7c41dblo8zq0ab" "tx_q1" 1700000000200
             1700000000300 alice bob bob 30 80 ready funded
             (Transaction.new "tx_p0a7c41dblo8zq0ab" 1700000000200 alice (Some bob) 30)
             (Wallet.Build alice "Alice" 100 1700000000001)
             (Wallet.Build bob "Bob" 0 1700000000002)).
  - reflexivity.
  - reflexivity.
  - reflexivity.
  - reflexivity.
  - reflexivity.
  - discriminate.
Defined.

(** X20.  Settlement checks the balance again, against what the earlier
    transfers of the batch have left (amounts and balances are binary64
    values).  Of two transfers from the same sender to other wallets, the
    first within the sender's balance, the second is settled exactly when its
    amount is at most the double difference [balance - amount1], and changes
    nothing otherwise. *)
Theorem second_spend_is_rechecked (ws : Double.WalletMap) (tx1 tx2 : Double.Transaction.t)
    (to1 to2 : string) (fromWallet toWallet1 toWallet2 : Double.Wallet.t) :
  Double.Transaction.from tx1 <> "System" ->
  Double.Transaction.from tx2 = Double.Transaction.from tx1 ->
  Double.Transaction.to tx1 = Some to1 ->
  Double.Transaction.to tx2 = Some to2 ->
  to1 <> Double.Transaction.from tx1 ->
  to2 <> Double.Transaction.from tx1 ->
  Double.Map_get (Double.Transaction.from tx1) ws = Some fromWallet ->
  Double.Map_get to1 ws = Some toWallet1 ->
  Double.Map_get to2 ws = Some toWallet2 ->
  (Double.Transaction.amount tx1 <=? Double.Wallet.balance fromWallet)%float = true ->
  let left := (Double.Wallet.balance fromWallet - Double.Transaction.amount tx1)%float in
  Double.balanceOf (Double.Transaction.from tx1) (Double.processTransactions [tx1] ws)
  = Some left
  /\ Double.balanceOf (Double.Transaction.from tx1) (Double.processTransactions [tx1; tx2] ws)
     = Some (if (Double.Transaction.amount tx2 <=? left)%float
             then (left - Double.Transaction.amount tx2)%float
             else left)
  /\ ((Double.Transaction.amount tx2 <=? left)%float = true ->
        Double.processTransactions [tx1; tx2] ws
        = Double.Map_mutate to2
            (fun w => Double.Wallet.set_balance
                        (Double.Wallet.balance w + Double.Transaction.amount tx2)%float w)
            (Double.Map_mutate (Double.Transaction.from tx1)
               (fun w => Double.Wallet.set_balance
                           (Double.Wallet.balance w - Double.Transaction.amount tx2)%float w)
               (Double.processTransactions [tx1] ws)))
  /\ ((Double.Transaction.amount tx2 <=? left)%float = false ->
        Double.processTransactions [tx1; tx2] ws = Double.processTransactions [tx1] ws).
Proof.
  intros Hsys Hsame Hto1 Hto2 Hne1 Hne2 Hfw Htw1 Htw2 Hle left.
  unfold Double.processTransactions. cbn [fold_left].
  pose proof (Double_processTransaction_transfer ws tx1 to1 _ _ Hsys Hto1 Hfw Htw1) as H1.
  rewrite Hle in H1.
  destruct (Double_transfer_balances ws _ _ (Double.Transaction.amount tx1) _ _ Hfw Htw1)
    as (Hdiff & _ & _).
  destruct (Hdiff (not_eq_sym Hne1)) as [Hbal _]. rewrite <- H1 in Hbal.
  set (ws1 := Double.processTransaction ws tx1) in *.
  assert (Hkeys : Double.Map_keys ws1 = Double.Map_keys ws)
    by apply Double_processTransaction_keys.
  unfold Double.balanceOf in Hbal.
  destruct (Double.Map_get (Double.Transaction.from tx1) ws1) as [fw1|] eqn:Hfw1;
    [|discriminate].
  cbn [option_map] in Hbal. injection Hbal as Hleft.
  assert (Hto2' : exists tw, Double.Map_get to2 ws1 = Some tw).
  { apply Double_Map_get_keys. rewrite Hkeys. apply Double_Map_get_keys.
    now exists toWallet2. }
  destruct Hto2' as [tw2 Htw2'].
  assert (Hsys2 : Double.Transaction.from tx2 <> "System") by now rewrite Hsame.
  rewrite <- Hsame in Hfw1.
  pose proof (Double_processTransaction_transfer ws1 tx2 to2 _ _ Hsys2 Hto2 Hfw1 Htw2')
    as H2.
  rewrite Hleft in H2. fold left in H2.
  split; [unfold Double.balanceOf; rewrite <- Hsame, Hfw1; cbn; now rewrite Hleft|].
  split.
  - rewrite H2. destruct (Double.Transaction.amount tx2 <=? left)%float.
    + destruct (Double_transfer_balances ws1 _ _ (Double.Transaction.amount tx2) _ _
                  Hfw1 Htw2') as (Hdiff2 & _ & _).
      destruct Hdiff2 as [Hbal2 _]; [rewrite Hsame; now apply not_eq_sym|].
      rewrite <- Hsame, Hbal2, Hleft. reflexivity.
    + unfold Double.balanceOf. rewrite <- Hsame, Hfw1. cbn. now rewrite Hleft.
  - split.
    + intros Hcovered. rewrite H2, Hcovered, Hsame. reflexivity.
    + intros Hover. rewrite H2, Hover. reflexivity.
Qed.

(** Alice holds 20.2 and sends 4.1 and then 16.1 to Bob: the second transfer
    is settled, since [20.2 - 4.1] is 16.1 in binary64, and Alice is left
    with 0.  Of two transfers of 70 out of 100 the second is dropped. *)
Lemma second_spend_is_rechecked_witness :
  Double.balanceOf alice
    (Double.processTransactions
       [Double.Transaction.new "tx_a" 1 alice (Some bob) 4.1;
        Double.Transaction.new "tx_b" 2 alice (Some bob) 16.1]
       (Double.wallets (doubleWallets 20.2 0)))
  = Some 0%float
  /\ Double.balanceOf alice
       (Double.processTransactions
          [Double.Transaction.new "tx_a" 1 alice (Some bob) 70;
           Double.Transaction.new "tx_b" 2 alice (Some bob) 70]
          (Double.wallets (doubleWallets 100 0)))
     = Some 30%float.
Proof.
  split.
  - rewrite doubleWallets_registry.
    destruct (second_spend_is_rechecked
                [(alice, Double.Wallet.Build alice "Alice" 20.2 1700000000001);
                 (bob, Double.Wallet.Build bob "Bob" 0 1700000000002)]
                (Double.Transaction.new "tx_a" 1 alice (Some bob) 4.1)
                (Double.Transaction.new "tx_b" 2 alice (Some bob) 16.1) bob bob
                (Double.Wallet.Build alice "Alice" 20.2 1700000000001)
                (Double.Wallet.Build bob "Bob" 0 1700000000002)
                (Double.Wallet.Build bob "Bob" 0 1700000000002))
      as (_ & Hboth & _).
    1-10: first [vm_compute; discriminate | vm_compute; reflexivity].
    cbn [Double.Transaction.from Double.Transaction.new] in Hboth. rewrite Hboth.
    vm_compute. reflexivity.
  - rewrite doubleWallets_registry.
    destruct (second_spend_is_rechecked
                [(alice, Double.Wallet.Build alice "Alice" 100 1700000000001);
                 (bob, Double.Wallet.Build bob "Bob" 0 1700000000002)]
                (Double.Transaction.new "tx_a" 1 alice (Some bob) 70)
                (Double.Transaction.new "tx_b" 2 alice (Some bob) 70) bob bob
                (Double.Wallet.Build alice "Alice" 100 1700000000001)
                (Double.Wallet.Build bob "Bob" 0 1700000000002)
                (Double.Wallet.Build bob "Bob" 0 1700000000002))
      as (_ & Hboth & _).
    1-10: first [vm_compute; discriminate | vm_compute; reflexivity].
    cbn [Double.Transaction.from Double.Transaction.new] in Hboth. rewrite Hboth.
    vm_compute. reflexivity.
Defined.

(** ** The mining controller *)

Section ControllerFacts.
Context {platform : Platform}.



(** The fields that only [addBlock] and [addTransaction] write. *)
Lemma handle_quiet (e : Event) (s : BlockchainSimulator) :
  isSubmission e = false ->
  blockchain (handle e s) = blockchain s
  /\ transactionPool (handle e s) = transactionPool s
  /\ blocksMined (handle e s) = blocksMined s
  /\ currentNonce (handle e s) = currentNonce s
  /\ miningStartTime (handle e s) = miningStartTime s
  /\ hashRate (handle e s) = hashRate s.
Proof. destruct e; [| discriminate | |]; intros _; repeat split. Qed.

Lemma handleAll_quiet (events : list Event) :
  forall s,
    Forall (fun e => isSubmission e = false) events ->
    blockchain (handleAll events s) = blockchain s
    /\ transactionPool (handleAll events s) = transactionPool s
    /\ blocksMined (handleAll events s) = blocksMined s
    /\ currentNonce (handleAll events s) = currentNonce s
    /\ miningStartTime (handleAll events s) = miningStartTime s
    /\ hashRate (handleAll events s) = hashRate s.
Proof.
  induction events as [|e events IH]; intros s Hall; [repeat split|].
  inversion Hall as [|? ? He Hrest]; subst.
  unfold handleAll in *. cbn [fold_left].
  destruct (IH (handle e s) Hrest) as (H1 & H2 & H3 & H4 & H5 & H6).
  destruct (handle_quiet e s He) as (G1 & G2 & G3 & G4 & G5 & G6).
  rewrite H1, H2, H3, H4, H5, H6. repeat split; assumption.
Qed.

Lemma miningLoop_idle (rounds : list Round) :
  forall s s',
    transactionPool s = [] ->
    List.length (blockchain s) <> 1 ->
    Forall (fun round => Forall (fun e => isSubmission e = false) (duringPause round))
      rounds ->
    miningLoop rounds s = Some s' ->
    isMining s' = false
    /\ exists events,
         Forall (fun e => isSubmission e = false) events /\ s' = handleAll events s.
Proof.
  induction rounds as [|round rest IH]; intros s s' Hpool Hlen Hquiet H;
    cbn [miningLoop] in H.
  - destruct (isMining s) eqn:Hon; [discriminate|]. injection H as <-.
    split; [exact Hon|]. exists []. split; [constructor | reflexivity].
  - destruct (isMining s) eqn:Hon;
      [|injection H as <-; split; [exact Hon|]; exists [];
        split; [constructor | reflexivity]].
    cbv zeta in H. rewrite Hpool in H. cbn [List.length Nat.ltb Nat.leb orb] in H.
    pose proof Hlen as Hlen'. apply Nat.eqb_neq in Hlen'. rewrite Hlen' in H.
    inversion Hquiet as [|? ? Hround Hrest]; subst.
    destruct (handleAll_quiet (duringPause round) s Hround) as (Hc & Hp & _).
    apply IH in H; [|now rewrite Hp|now rewrite Hc|exact Hrest].
    destruct H as (Hdown & events & Hevents & ->). split; [exact Hdown|].
    exists (duringPause round ++ events)%list. split.
    + apply Forall_app. now split.
    + unfold handleAll. now rewrite fold_left_app.
Qed.

(** X22.  With an empty pool and a chain whose length is not 1, and with no
    transaction submitted while the loop pauses, the loop never calls
    [addBlock]: when [startMining] returns, the state is the one that the
    calls handled during the pauses leave, so the chain, the pool, the count
    of mined blocks and the sealing counters are what they were.  In
    particular mining on an empty chain never creates the genesis block. *)
Theorem startMining_idle (rounds : list Round) (s s' : BlockchainSimulator) :
  transactionPool s = [] ->
  List.length (blockchain s) <> 1 ->
  Forall (fun round => Forall (fun e => isSubmission e = false) (duringPause round))
    rounds ->
  startMining rounds s = Some s' ->
  (s' = s
   \/ exists events,
        Forall (fun e => isSubmission e = false) events
        /\ s' = handleAll events (set_isMining true s))
  /\ (isMining s = false -> isMining s' = false)
  /\ blockchain s' = blockchain s
  /\ transactionPool s' = []
  /\ blocksMined s' = blocksMined s
  /\ currentNonce s' = currentNonce s
  /\ miningStartTime s' = miningStartTime s
  /\ hashRate s' = hashRate s.
Proof.
  unfold startMining. intros Hpool Hlen Hquiet H. destruct (isMining s) eqn:Hon.
  - injection H as <-. split; [now left|]. split; [discriminate|].
    rewrite Hpool. repeat split.
  - apply miningLoop_idle in H; [|exact Hpool|exact Hlen|exact Hquiet].
    destruct H as (Hdown & events & Hevents & ->).
    destruct (handleAll_quiet events (set_isMining true s) Hevents)
      as (H1 & H2 & H3 & H4 & H5 & H6).
    cbn [blockchain transactionPool blocksMined currentNonce miningStartTime hashRate
         set_isMining] in H1, H2, H3, H4, H5, H6.
    split; [right; now exists events|]. split; [intros _; exact Hdown|].
    rewrite H1, H2, H3, H4, H5, H6, Hpool. repeat split.
Qed.

End ControllerFacts.


Lemma startMining_idle_witness :
  exists s',
    startMining (platform := wholeAmounts)
      [pass readings [WalletRequest carolKey 1700000000050 "Carol"; DifficultyInput 2];
       pass laterReadings [StopRequest]] newSimulator
    = Some s'
    /\ blockchain s' = []
    /\ List.length (wallets s') = 1
    /\ difficulty s' = 2.
Proof.
  eexists. split; [vm_compute; reflexivity|].
  split; [|split; reflexivity].
  refine (proj1 (proj2 (proj2 (startMining_idle (platform := wholeAmounts)
            [pass readings [WalletRequest carolKey 1700000000050 "Carol"; DifficultyInput 2];
             pass laterReadings [StopRequest]] newSimulator _ _ _ _ _)))).
  - reflexivity.
  - discriminate.
  - repeat constructor.
  - vm_compute. reflexivity.
Defined.

(** ** The dashboard figures *)

Lemma confirmed_snoc (chain : list Block.t) (b : Block.t) (s : BlockchainSimulator) :
  confirmedTransactions (set_blockchain (chain ++ [b]) s)
  = confirmedTransactions (set_blockchain chain s) + List.length (Block.transactions b).
Proof.
  unfold confirmedTransactions. cbn [blockchain set_blockchain].
  rewrite fold_left_app. reflexivity.
Qed.

(** X23.  A produced block moves the drained transactions from the pending to
    the confirmed figure and adds the reward transaction to the latter; a
    cancelled production lowers the pending figure by the drained
    transactions and leaves the confirmed one, so they appear in neither; the
    genesis block changes neither figure. *)
Theorem addBlock_figures {platform : Platform} (fuel : nat) (world : World)
    (r : Readings) (s : BlockchainSimulator) (result : option Block.t)
    (s' : BlockchainSimulator) :
  addBlock fuel world r s = Some (result, s') ->
  match result with
  | Some _ =>
      confirmedTransactions s'
      = confirmedTransactions s + 1 + Nat.min 10 (pendingTransactions s)
      /\ pendingTransactions s' = pendingTransactions s - 10
  | None =>
      confirmedTransactions s' = confirmedTransactions s
      /\ pendingTransactions s'
         = match blockchain s with
           | [] => pendingTransactions s
           | _ :: _ => pendingTransactions s - 10
           end
  end.
Proof.
  intros Hadd. apply addBlock_produced in Hadd.
  destruct Hadd as [Hempty | previousBlock b s1 Hlast Hmine Hon
                   | previousBlock mined s1 Hlast Hmine Hwhy].
  - rewrite Hempty. unfold createGenesisBlock, confirmedTransactions, pendingTransactions.
    cbn [blockchain transactionPool set_blockchain]. rewrite Hempty. split; reflexivity.
  - pose proof (mineBlock_sameLedger _ _ _ _ _ _ _ Hmine) as (Hc & Hp & _).
    cbn [blockchain transactionPool set_transactionPool] in Hc, Hp.
    unfold mineBlock in Hmine. apply mineLoop_sealed in Hmine. destruct Hmine as (-> & _).
    unfold confirmedTransactions, pendingTransactions.
    cbn [blockchain transactionPool set_wallets set_blocksMined set_blockchain].
    rewrite Hc, Hp, fold_left_app, length_skipn.
    cbn [fold_left sealedAt candidateBlock batch Block.transactions Block.new
      Block.set_hash Block.set_nonce List.length].
    rewrite length_firstn. split; lia.
  - pose proof (mineBlock_sameLedger _ _ _ _ _ _ _ Hmine) as (Hc & Hp & _).
    cbn [blockchain transactionPool set_transactionPool] in Hc, Hp.
    unfold confirmedTransactions, pendingTransactions. rewrite Hc, Hp, length_skipn.
    destruct (blockchain s); [discriminate | split; reflexivity].
Qed.

Lemma addBlock_figures_witness :
  confirmedTransactions fundedProduced = 2 /\ pendingTransactions fundedProduced = 0.
Proof.
  pose proof (addBlock_figures (platform := wholeAmounts) 64 undisturbed readings funded
                (Some (fst fundedSealed)) fundedProduced fundedProduced_run) as [Hc Hp].
  split; [rewrite Hc | rewrite Hp]; reflexivity.
Defined.

(** ** The traffic generator *)

Lemma draw_in_range (u : Q) (addresses : list string) :
  (0 <= u)%Q -> (u < 1)%Q -> addresses <> [] ->
  exists a, draw u addresses = Some a /\ In a addresses.
Proof.
  intros H0 H1 Hne. unfold draw. cbv zeta.
  set (n := Z.of_nat (List.length addresses)).
  assert (Hn : (0 < n)%Z) by (subst n; destruct addresses; [contradiction | cbn; lia]).
  assert (HnQ : (0 < inject_Z n)%Q)
    by (change (inject_Z 0 < inject_Z n)%Q; rewrite <- Zlt_Qlt; exact Hn).
  assert (Hlo : (0 <= Qfloor (u * inject_Z n))%Z).
  { change 0%Z with (Qfloor 0). apply Qfloor_resp_le. nra. }
  assert (Hhi : (Qfloor (u * inject_Z n) < n)%Z).
  { rewrite Zlt_Qlt. eapply Qle_lt_trans; [apply Qfloor_le|]. nra. }
  destruct (Z.ltb_spec (Qfloor (u * inject_Z n)) 0) as [Hneg|_]; [lia|].
  destruct (nth_error addresses (Z.to_nat (Qfloor (u * inject_Z n)))) as [a|] eqn:E.
  - exists a. split; [reflexivity | eapply nth_error_In; exact E].
  - exfalso. apply nth_error_None in E. subst n. lia.
Qed.

Lemma redraw_differs (from : option string) (addresses : list string) :
  addresses <> [] ->
  forall us to0 to,
    Forall (fun u => (0 <= u)%Q /\ (u < 1)%Q) us ->
    (exists t0, to0 = Some t0 /\ In t0 addresses) ->
    redraw from to0 us addresses = Some to ->
    exists t, to = Some t /\ In t addresses /\ Some t <> from.
Proof.
  intros Hne. induction us as [|u us IH]; intros to0 to Hus (t0 & -> & Hin) H;
    cbn [redraw] in H.
  - destruct (option_string_eqb (Some t0) from) eqn:E; [discriminate|].
    injection H as <-. exists t0. split; [reflexivity|]. split; [exact Hin|].
    intros Heq. apply option_string_eqb_eq in Heq. congruence.
  - destruct (option_string_eqb (Some t0) from) eqn:E.
    + inversion Hus as [|? ? [Hu0 Hu1] Hrest]; subst.
      apply (IH (draw u addresses) to Hrest); [|exact H].
      destruct (draw_in_range u addresses Hu0 Hu1 Hne) as (a & Ha & Hina).
      now exists a.
    + injection H as <-. exists t0. split; [reflexivity|]. split; [exact Hin|].
      intros Heq. apply option_string_eqb_eq in Heq. congruence.
Qed.

(** X24.  With every draw in [0, 1), one firing of the traffic timer never
    fails and never has its submission refused.  Either it submits nothing and
    leaves the state as it was, or [addTransaction] accepts its transfer to
    the tail of the pool: from a registered wallet holding more than 10 to a
    different registered wallet, of an amount of at least 0.5 and within the
    sender's balance. *)
Theorem trafficTick_submits_valid_transfers (d : Draws)
    (id : string) (now : Z) (s : BlockchainSimulator)
    (out : Tick) (s' : BlockchainSimulator) :
  (0 <= fromDraw d)%Q -> (fromDraw d < 1)%Q ->
  (0 <= toDraw d)%Q -> (toDraw d < 1)%Q ->
  Forall (fun u => (0 <= u)%Q /\ (u < 1)%Q) (redraws d) ->
  (0 <= amountDraw d)%Q -> (amountDraw d < 1)%Q ->
  trafficTick d id now s = Some (out, s') ->
  (out = Idle /\ s' = s)
  \/ exists from to fromWallet toWallet tx,
       out = Submitted tx
       /\ addTransaction id now from to (Transaction.amount tx) s = (Ret tx, s')
       /\ tx = Transaction.new id now from (Some to)
                 (amountDraw d * (Wallet.balance fromWallet * (1 # 10)) + (5 # 10))%Q
       /\ from <> to
       /\ Map_get from (wallets s) = Some fromWallet
       /\ Map_get to (wallets s) = Some toWallet
       /\ (10 < Wallet.balance fromWallet)%Q
       /\ ((5 # 10) <= Transaction.amount tx)%Q
       /\ (Transaction.amount tx <= Wallet.balance fromWallet)%Q
       /\ s' = set_transactionPool (transactionPool s ++ [tx]) s.
Proof.
  intros Hf0 Hf1 Ht0 Ht1 Hre Ha0 Ha1 H. unfold trafficTick in H.
  destruct (Qltb (gate d) (2 # 10) && (2 <=? List.length (wallets s))%nat) eqn:Hgate;
    [|injection H as <- <-; now left].
  apply andb_true_iff in Hgate. destruct Hgate as [_ Hsize]. apply Nat.leb_le in Hsize.
  assert (Hne : Map_keys (wallets s) <> []).
  { unfold Map_keys. destruct (wallets s); [cbn in Hsize; lia | discriminate]. }
  cbv zeta in H.
  destruct (draw_in_range _ _ Hf0 Hf1 Hne) as (f & Hf & Hfin).
  destruct (draw_in_range _ _ Ht0 Ht1 Hne) as (t0 & Ht & Htin).
  rewrite Hf in H.
  destruct (redraw (Some f) (draw (toDraw d) (Map_keys (wallets s))) (redraws d)
              (Map_keys (wallets s))) as [to|] eqn:Hredraw; [|discriminate].
  apply (redraw_differs (Some f) _ Hne) in Hredraw;
    [|exact Hre | now exists t0].
  destruct Hredraw as (t & -> & Htkeys & Hdiff).
  apply Map_get_keys in Hfin. destruct Hfin as [fw Hfw].
  apply Map_get_keys in Htkeys. destruct Htkeys as [tw Htw].
  cbn [Map_get_opt] in H. rewrite Hfw in H.
  destruct (Qltb 1 (Wallet.balance fw * (1 # 10))) eqn:Hmax;
    [|injection H as <- <-; now left].
  apply Qltb_true in Hmax.
  set (amount := (amountDraw d * (Wallet.balance fw * (1 # 10)) + (5 # 10))%Q) in *.
  assert (Hlow : ((5 # 10) <= amount)%Q) by (subst amount; nra).
  assert (Hwithin : (amount <= Wallet.balance fw)%Q) by (subst amount; nra).
  assert (Hadd : addTransaction id now f t amount s
                 = (Ret (Transaction.new id now f (Some t) amount),
                    set_transactionPool
                      (transactionPool s ++ [Transaction.new id now f (Some t) amount]) s)).
  { unfold addTransaction. rewrite Hfw, Htw.
    assert (E1 : Qltb (Wallet.balance fw) amount = false) by now apply Qltb_false.
    assert (E2 : Qle_bool amount 0 = false) by (apply Qle_bool_false; lra).
    now rewrite E1, E2. }
  rewrite Hadd in H. injection H as <- <-.
  right. exists f, t, fw, tw. eexists. split; [reflexivity|]. split; [exact Hadd|].
  split; [reflexivity|]. split; [congruence|]. split; [exact Hfw|]. split; [exact Htw|].
  split; [lra|]. split; [exact Hlow|]. split; [exact Hwithin | reflexivity].
Qed.

Lemma trafficTick_submits_valid_transfers_witness :
  exists tx s',
    trafficTick sampleDraws "tx_auto" 1700000000700 ready = Some (Submitted tx, s')
    /\ Transaction.from tx = alice
    /\ Transaction.to tx = Some bob
    /\ (Transaction.amount tx == 11 # 2)%Q
    /\ transactionPool s' = (transactionPool ready ++ [tx])%list.
Proof.
  eexists _, _. split; [vm_compute; reflexivity|].
  match goal with
  | |- _ /\ _ /\ _ /\ transactionPool ?s' = (_ ++ [?tx])%list =>
      destruct (trafficTick_submits_valid_transfers sampleDraws "tx_auto" 1700000000700
                  ready (Submitted tx) s')
        as [[Hno _] | (f & t & fw & tw & tx' & Hout & _ & _ & _ & _ & _ & _ & _ & _ & Hs)]
  end.
  - discriminate.
  - reflexivity.
  - discriminate.
  - reflexivity.
  - repeat constructor; discriminate.
  - discriminate.
  - reflexivity.
  - vm_compute. reflexivity.
  - discriminate.
  - injection Hout as <-. split; [reflexivity|]. split; [reflexivity|].
    split; [reflexivity|]. rewrite Hs. reflexivity.
Defined.

(** ** What pool and chain hold *)

(** X25.  With amounts and balances as binary64 values: in every reachable
    state every pending transaction has a registered sender that is not
    "System" and a registered recipient.  Its amount need not be positive:
    between registered wallets [addTransaction] accepts NaN, for which both
    of its comparisons are false. *)
Theorem pool_holds_accepted_transfers (s : Double.Ledger) :
  Double.reachable s ->
  (forall tx,
     In tx (Double.transactionPool s) ->
     Double.Transaction.from tx <> "System"
     /\ (exists fromWallet,
           Double.Map_get (Double.Transaction.from tx) (Double.wallets s) = Some fromWallet)
     /\ (exists to toWallet,
           Double.Transaction.to tx = Some to
           /\ Double.Map_get to (Double.wallets s) = Some toWallet))
  /\ (forall id now from to fromWallet toWallet,
        Double.Map_get from (Double.wallets s) = Some fromWallet ->
        Double.Map_get to (Double.wallets s) = Some toWallet ->
        let tx := Double.Transaction.new id now from (Some to) nan in
        Double.addTransaction id now from to nan s
        = (Ret tx, Double.set_transactionPool (Double.transactionPool s ++ [tx]) s)).
Proof.
  intros Hreach. split.
  - intros tx Hin. apply Double_reachable_Invariant in Hreach.
    destruct Hreach as (Hkeys & Hpool).
    rewrite Forall_forall in Hpool, Hkeys.
    destruct (Hpool tx Hin) as (Hfrom & to & Hto & Hreg).
    split; [now apply Hkeys|]. split.
    + now apply Double_Map_get_keys.
    + apply Double_Map_get_keys in Hreg. destruct Hreg as [tw Htw]. now exists to, tw.
  - intros id now from to fw tw Hfw Htw tx. unfold Double.addTransaction.
    now rewrite Hfw, Htw, Double_ltb_nan, Double_nan_leb.
Qed.

Lemma pool_holds_accepted_transfers_witness :
  In (Double.Transaction.new "tx_p0a7c41dblo8zq0ab" 1700000000200 alice (Some bob) 30)
     (Double.transactionPool doubleFunded)
  /\ Double.Transaction.from
       (Double.Transaction.new "tx_p0a7c41dblo8zq0ab" 1700000000200 alice (Some bob) 30)
     <> "System"
  /\ fst (Double.addTransaction "tx_n4n0b6y2hlo8zq7rs" 1700000000300 alice bob nan
            doubleFunded)
     = Ret (Double.Transaction.new "tx_n4n0b6y2hlo8zq7rs" 1700000000300 alice (Some bob) nan).
Proof.
  assert (Hreach : Double.reachable doubleFunded).
  { unfold doubleFunded. eapply Double.reachable_step;
      [apply doubleWallets_reachable | apply Double.step_addTransaction]. }
  assert (Hin : In (Double.Transaction.new "tx_p0a7c41dblo8zq0ab" 1700000000200 alice
                      (Some bob) 30) (Double.transactionPool doubleFunded)).
  { unfold doubleFunded, Double.addTransaction. rewrite doubleWallets_registry.
    vm_compute. now left. }
  destruct (pool_holds_accepted_transfers doubleFunded Hreach) as [Hpool Hnan].
  split; [exact Hin|]. split; [exact (proj1 (Hpool _ Hin))|].
  rewrite (Hnan "tx_n4n0b6y2hlo8zq7rs" 1700000000300%Z alice bob
             (Double.Wallet.Build alice "Alice" 100 1700000000001)
             (Double.Wallet.Build bob "Bob" 0 1700000000002)).
  - reflexivity.
  - unfold doubleFunded, Double.addTransaction. rewrite doubleWallets_registry.
    vm_compute. reflexivity.
  - unfold doubleFunded, Double.addTransaction. rewrite doubleWallets_registry.
    vm_compute. reflexivity.
Defined.

(** X26.  In every reachable state every block of the chain either has no
    transactions or begins with exactly one reward transaction, from "System"
    and of amount 10, followed by at most 10 transfers, none of them from
    "System" and each to a named recipient. *)
Theorem chain_blocks_well_formed {platform : Platform} (s : BlockchainSimulator) :
  reachable s -> Forall wellFormedBlock (blockchain s).
Proof.
  induction 1 as [|s s' Hreach IH Hstep]; [constructor|].
  assert (Hgenesis : forall now,
            Forall wellFormedBlock (blockchain (createGenesisBlock now s))).
  { intros now. unfold createGenesisBlock. cbn [blockchain set_blockchain].
    apply Forall_app. split; [exact IH|]. constructor; [now left | constructor]. }
  destruct Hstep as [s rd now label bal Hbal | s now | s id now from to amount
                    | s fuel world r result s' Hadd | s | s | s d];
    try exact IH.
  - apply Hgenesis.
  - unfold addTransaction.
    destruct (Map_get from (wallets s)); [|exact IH].
    destruct (Map_get to (wallets s)); [|exact IH].
    destruct (Qltb _ amount); [exact IH|].
    destruct (Qle_bool amount 0); exact IH.
  - apply reachable_Invariant in Hreach.
    destruct Hreach as (_ & Hkeys & Hpool & Hreward & _).
    apply addBlock_produced in Hadd.
    destruct Hadd as [Hempty | previousBlock b s1 Hlast Hmine Hon
                     | previousBlock mined s1 Hlast Hmine Hwhy].
    + apply Hgenesis.
    + pose proof (mineBlock_sameLedger _ _ _ _ _ _ _ Hmine) as (Hc & _).
      cbn [blockchain set_transactionPool] in Hc.
      unfold mineBlock in Hmine. apply mineLoop_sealed in Hmine. destruct Hmine as (-> & _).
      cbn [blockchain set_wallets set_blocksMined set_blockchain]. rewrite Hc.
      apply Forall_app. split; [exact IH|]. constructor; [|constructor].
      right. exists (rewardTransaction r s), (firstn 10 (transactionPool s)).
      split; [reflexivity|]. split; [reflexivity|]. split; [exact Hreward|].
      split; [rewrite length_firstn; lia|].
      apply Forall_firstn_of. eapply Forall_impl; [|exact Hpool].
      intros tx Hacc. pose proof (accepted_not_System _ _ Hkeys Hacc) as Hsys.
      destruct Hacc as (_ & _ & to & Hto & _).
      split; [exact Hsys | now exists to].
    + pose proof (mineBlock_sameLedger _ _ _ _ _ _ _ Hmine) as (Hc & _).
      cbn [blockchain set_transactionPool] in Hc. now rewrite Hc.
Qed.

Lemma chain_blocks_well_formed_witness :
  Forall wellFormedBlock (blockchain fundedProduced).
Proof.
  exact (chain_blocks_well_formed (platform := wholeAmounts) fundedProduced
           fundedProduced_reachable).
Defined.

(** ** The state after [init] *)

(** X27.  After [init] with three draws whose addresses are pairwise distinct,
    the registry holds Alice with 100, Bob with 75 and Charlie with 50 in that
    order, so that Alice's address receives the rewards; the chain is the
    genesis block alone and is accepted by [validateChain]; the pool is empty,
    mining is off and the difficulty is 3. *)
Theorem init_state {platform : Platform} (rd1 rd2 rd3 : list Z) (t1 t2 t3 now : Z) :
  generateAddress rd1 <> generateAddress rd2 ->
  generateAddress rd1 <> generateAddress rd3 ->
  generateAddress rd2 <> generateAddress rd3 ->
  let s := init [(rd1, t1); (rd2, t2); (rd3, t3)] now in
  wallets s
  = [(generateAddress rd1, Wallet.Build (generateAddress rd1) "Alice" 100 t1);
     (generateAddress rd2, Wallet.Build (generateAddress rd2) "Bob" 75 t2);
     (generateAddress rd3, Wallet.Build (generateAddress rd3) "Charlie" 50 t3)]
  /\ (forall r, Transaction.to (rewardTransaction r s) = Some (generateAddress rd1))
  /\ (exists g, blockchain s = [g] /\ Block.index g = 0
                /\ Block.previousHash g = Some "0" /\ Block.transactions g = [])
  /\ validateChain s = Ret true
  /\ transactionPool s = []
  /\ isMining s = false
  /\ difficulty s = 3.
Proof.
  intros H12 H13 H23 s.
  assert (Hw : wallets s
    = [(generateAddress rd1, Wallet.Build (generateAddress rd1) "Alice" 100 t1);
       (generateAddress rd2, Wallet.Build (generateAddress rd2) "Bob" 75 t2);
       (generateAddress rd3, Wallet.Build (generateAddress rd3) "Charlie" 50 t3)]).
  { subst s. unfold init, createGenesisBlock, initializeWallets, initialWallets, createWallet.
    cbn [combine fold_left fst snd wallets set_wallets set_blockchain newSimulator
      Map_set String.eqb Ascii.eqb Bool.eqb].
    destruct (String.eqb_spec (generateAddress rd2) (generateAddress rd1)) as [E|_];
      [congruence|].
    cbn [Map_set].
    destruct (String.eqb_spec (generateAddress rd3) (generateAddress rd1)) as [E|_];
      [congruence|].
    destruct (String.eqb_spec (generateAddress rd3) (generateAddress rd2)) as [E|_];
      [congruence|].
    reflexivity. }
  split; [exact Hw|]. split.
  - intros r. cbn [rewardTransaction Transaction.to Transaction.new]. now rewrite Hw.
  - split; [|repeat split].
    eexists. split; [reflexivity|]. repeat split.
Qed.

Lemma init_state_witness :
  List.length (wallets (init (platform := wholeAmounts)
                          [(aliceKey, 1%Z); (bobKey, 2%Z); (carolKey, 3%Z)] 4%Z)) = 3.
Proof.
  destruct (init_state (platform := wholeAmounts) aliceKey bobKey carolKey 1 2 3 4)
    as (Hw & _).
  - vm_compute. discriminate.
  - vm_compute. discriminate.
  - vm_compute. discriminate.
  - rewrite Hw. reflexivity.
Defined.
